(** * AutoProf: the global isophote initializer and the image pipeline

    A shallow embedding of [autoprofutils/Isophote_Initialize.py] and of
    [Pipeline.py], and the properties of the isophote-fitting specification
    that concern them.

    Numbers.  Python floats are modelled as rationals ([Q]).  The
    arithmetic the source writes out with [+], [*], [/] and [<] is exact:
    its rounding, infinities and NaN are outside the model.  The remainder
    [%] is modelled as the float operation is computed, an exact [fmod] and
    then an addition of the divisor that is rounded to the nearest double,
    because the range of the position angle depends on that rounding.
    Decimal literals of the source denote their decimal value.

    Collaborators.  The routines of numpy, scipy and of
    [autoprofutils.SharedFunctions] that the two files call are not part of
    them; they are the fields of the class [Numerics] and the theorems hold
    for every implementation of that class.  The module [Demo] gives one
    small executable implementation on which the model is run.

    Control.  A Python exception is the outcome [Raise]; the [while] loops
    take a bound on the number of iterations and answer [OutOfFuel] when it
    is exceeded.

    Scope.  Of [Isophote_Initialize.py] both initializers are modelled, the
    figures by the [savefig] call alone; the circular fit is modelled on the
    four values it reads from [results], and once more on the dictionary
    itself, as the pipeline calls it.  Of [Pipeline.py] the object, its
    [UpdatePipeline], [Process_Image] and [Process_List] are modelled;
    [WriteProf], which writes files, is taken by its outcome, and of
    [Process_ConfigFile], which imports a module by name, the name of the
    module alone is modelled. *)

From Stdlib Require Import QArith Qround Qabs Qminmax Qpower Lqa.
From Stdlib Require Import Ascii.
From stdpp Require Import gmap strings list.

(** ** Python outcomes *)

Module Py.

Inductive seq_kind := PyList | NdArray.

Inductive exn :=
| IndexError (k : seq_kind)
| KeyError (key : string)
| NameError (name : string)
| ValueError
| StageError (msg : string).

Inductive res (A : Type) : Type :=
| Ok (a : A)
| Raise (e : exn)
| OutOfFuel.

Arguments Ok {A} a.
Arguments Raise {A} e.
Arguments OutOfFuel {A}.

Definition bind {A B} (m : res A) (k : A -> res B) : res B :=
  match m with
  | Ok a => k a
  | Raise e => Raise e
  | OutOfFuel => OutOfFuel
  end.

(** [for x in l: f(x)], collecting the values; the first exception ends it. *)
Fixpoint mapM {A B} (f : A -> res B) (l : list A) : res (list B) :=
  match l with
  | [] => Ok []
  | x :: l' =>
      bind (f x) (fun y => bind (mapM f l') (fun ys => Ok (y :: ys)))
  end.

(** [l[i]] with Python's negative indices. *)
Definition index {A} (l : list A) (i : Z) : option A :=
  if (0 <=? i)%Z then l !! Z.to_nat i
  else if (- i <=? Z.of_nat (length l))%Z
       then l !! (length l - Z.to_nat (- i))%nat
       else None.

Definition getitem {A} (k : seq_kind) (l : list A) (i : Z) : res A :=
  match index l i with
  | Some x => Ok x
  | None => Raise (IndexError k)
  end.

(** [l[i:]] *)
Definition slice_from {A} (l : list A) (i : Z) : list A :=
  if (0 <=? i)%Z then drop (Z.to_nat i) l
  else drop (length l - Z.to_nat (- i))%nat l.

(** [l[i:j]] *)
Definition slice {A} (l : list A) (i j : Z) : list A :=
  let n := Z.of_nat (length l) in
  let norm k := if (0 <=? k)%Z then Z.min k n else Z.max (k + n) 0 in
  let a := norm i in
  let b := norm j in
  take (Z.to_nat (b - a)) (drop (Z.to_nat a) l).

(** Values of keyword arguments and of configuration entries. *)
#[warnings="-register-all"]
Inductive pyval :=
| PNone
| PBool (b : bool)
| PNum (q : Q)
| PStr (s : string)
| PList (l : list pyval).

Definition truthy (v : pyval) : bool :=
  match v with
  | PNone => false
  | PBool b => b
  | PNum q => negb (Qeq_bool q 0)
  | PStr s => negb (String.eqb s "")
  | PList l => match l with [] => false | _ => true end
  end.

Definition is_list (v : pyval) : bool :=
  match v with PList _ => true | _ => false end.

End Py.

Import Py.

Notation "'let*' x ':=' e 'in' k" := (bind e (fun x => k))
  (at level 10, x name, e at level 100, k at level 200, only parsing).

(** ** numpy on rationals *)

Module Np.

Local Open Scope Q_scope.

Definition Qltb (x y : Q) : bool := negb (Qle_bool y x).

Definition of_nat (n : nat) : Q := inject_Z (Z.of_nat n).

(** The double [np.pi], which is this rational exactly. *)
Definition pi : Q := 884279719003555 # 281474976710656.

(** The [b] with [2^b <= q < 2^(b+1)], for [0 < q]. *)
Definition binade (q : Q) : Z :=
  let l := (Z.log2 (Qnum q) - Z.log2 (Zpos (Qden q)))%Z in
  if Qle_bool (2 ^ l) q then l else (l - 1)%Z.

(** The integer nearest to [q], and the even one of two equally near. *)
Definition rint (q : Q) : Z :=
  let f := Qfloor q in
  match Qcompare (q - inject_Z f) (1 # 2) with
  | Lt => f
  | Gt => (f + 1)%Z
  | Eq => if Z.even f then f else (f + 1)%Z
  end.

(** The double nearest to [q], ties to even: 53 bits from the leading one
    and none below [2^-1074].  Overflow to infinity is outside the model. *)
Definition double (q : Q) : Q :=
  let e := Z.max (binade (Qabs q) - 52) (-1074) in
  inject_Z (rint (q / 2 ^ e)) * 2 ^ e.

(** C's [fmod(x, y)]: [x - n * y] for the quotient [x / y] cut to the
    integer [n] towards zero.  On doubles it is exact. *)
Definition fmod (x y : Q) : Q :=
  let t := x / y in
  x - inject_Z (if Qle_bool 0 t then Qfloor t else Qceiling t) * y.

(** [x % y] on floats, as CPython ([float_rem]) and numpy ([npy_divmod])
    compute it: [mod = fmod(x, y)]; a remainder that is zero is returned
    as zero (with the sign of [y], which a rational does not keep); one
    that has not the sign of [y] is moved by [mod += y], an addition of
    doubles, which rounds.  No call of the two files has a divisor of
    zero. *)
Definition pymod (x y : Q) : Q :=
  let m := fmod x y in
  if Qeq_bool m 0 then 0
  else if Bool.eqb (Qltb y 0) (Qltb m 0) then m
  else double (m + y).

(** [np.linspace(start, stop, num)], endpoint included. *)
Definition linspace (start stop : Q) (num : nat) : list Q :=
  let step := (stop - start) / of_nat (num - 1) in
  let y := map (fun i => of_nat i * step + start) (seq 0 num) in
  if (1 <? num)%nat then <[(num - 1)%nat := stop]> y else y.

(** [np.clip(a, a_min = None, a_max = m)] *)
Definition clip (a : list Q) (m : Q) : list Q := map (fun v => Qmin v m) a.

(** Python's [sum] of a list of floats. *)
Definition sum (l : list Q) : Q := fold_left Qplus l 0.

Fixpoint argmin_from (best_i : nat) (best : Q) (i : nat) (l : list Q) : nat :=
  match l with
  | [] => best_i
  | x :: l' =>
      if Qltb x best then argmin_from i x (S i) l'
      else argmin_from best_i best (S i) l'
  end.

(** [np.argmin]: the first index of the minimum. *)
Definition argmin (l : list Q) : res nat :=
  match l with
  | [] => Raise ValueError
  | x :: l' => Ok (argmin_from 0 x 1 l')
  end.

Record complex := Cx { re : Q; im : Q }.

Definition j : complex := Cx 0 1.

Definition cmul (a b : complex) : complex :=
  Cx (re a * re b - im a * im b) (re a * im b + im a * re b).

Definition cdiv (a b : complex) : complex :=
  let d := re b * re b + im b * im b in
  Cx ((re a * re b + im a * im b) / d) ((im a * re b - re a * im b) / d).

End Np.

(** ** Data of the initializer *)

Definition image := list (list Q).

(** [results['center']], a dictionary with the keys ['x'] and ['y']. *)
Record center := { x : Q; y : Q }.

(** The entries of [results] that the initializers read:
    ['psf fwhm'], ['background'], ['background noise'], ['center']. *)
Record results := {
  psf_fwhm : Q;
  background : Q;
  background_noise : Q;
  center_ : center
}.

(** What [scipy.optimize.minimize] returns, for a one-dimensional problem:
    [res.x[0]] and [res.success]. *)
Record OptimizeResult := { res_x : Q; success : bool }.

(** The dictionary returned by [Isophote_Initialize_CircFit]. *)
Record CircFit_result := {
  init_ellip : Q;
  init_ellip_err : Q;
  init_pa : Q;
  init_pa_err : Q;
  init_R : Q
}.

(** The dictionary returned by [Isophote_Initialize_GridSearch]. *)
Record GridSearch_result := { gs_init_ellip : Q; gs_init_pa : Q }.

(** Calls to [logging] and to [plt.savefig], in program order. *)
Inductive event :=
| Info_init_scale (name : string) (r : Q)
| Info_counts (name : string) (n_radii n_allphase : nat)
| Debug_optimal (name : string) (optimal grid : Q)
| Info_initializing (name : string)
| Info_best (name : string) (e : Q)
| SaveFig (plotpath : option pyval) (name : string).

(** ** The collaborators

    The routines are taken as total functions of their arguments; what
    they do on arguments they reject (an empty sample, say) is not
    modelled. *)

Class Numerics := {
  (** [_iso_extract(IMG, r, e, pa, c)]: flux along the ellipse. *)
  _iso_extract : image -> Q -> Q -> Q -> center -> list Q;
  (** [_iso_extract(..., more = True)]: a tuple, flux first. *)
  _iso_extract_more : image -> Q -> Q -> Q -> center -> list Q * list Q;
  _x_to_eps : Q -> Q;
  _inv_x_to_eps : Q -> Q;
  (** [scipy.fftpack.fft] *)
  fft : list Q -> list Np.complex;
  np_quantile : list Q -> Q -> Q;
  np_median : list Q -> Q;
  (** [np.abs] and [np.angle] of a complex number, [np.mean] of complex. *)
  np_abs : Np.complex -> Q;
  np_angle : Np.complex -> Q;
  np_mean : list Np.complex -> Np.complex;
  (** [minimize(f, x0 = x0, method = 'Nelder-Mead',
      options = {'initial_simplex': s})] *)
  minimize_NelderMead : (Q -> res Q) -> Q -> list (list Q) -> res OptimizeResult;
  (** [scipy.stats.iqr(x, rng = [lo, hi])] *)
  iqr : list Q -> Q -> Q -> Q;
  (** [_Fit_Isophotes_Loss], which the grid search calls; the module neither
      defines nor imports it, so the name may be unbound. *)
  _Fit_Isophotes_Loss :
    option (list (Q * Q) -> image -> list Q -> center -> list nat -> Q)
}.

(** ** Isophote_Initialize.py *)

Module Initialize.

Section Model.

Context {num : Numerics}.

Local Open Scope Q_scope.

(** [while guard: body], where the body may [break]; [fuel] bounds the
    number of iterations. *)
Fixpoint while_loop {St : Type} (fuel : nat) (guard : St -> res bool)
    (body : St -> res (St * bool)) (st : St) : res St :=
  let* g := guard st in
  if g : bool then
    match fuel with
    | O => OutOfFuel
    | S fuel' =>
        let* sb := body st in
        if snd sb : bool then Ok (fst sb)
        else while_loop fuel' guard body (fst sb)
    end
  else Ok st.

(** [IMG - results['background']] *)
Definition subtract_background (IMG : image) (b : Q) : image :=
  map (map (fun v => v - b)) IMG.

(** [len(IMG)/2]: half the length of the array, that is of its first
    axis (the rows of the image). *)
Definition half_len (IMG : image) : Q := Np.of_nat (length IMG) / 2.

(** [fft(np.clip(isovals, a_max = np.quantile(isovals, 0.85), a_min = None))] *)
Definition clipped_fft (isovals : list Q) : list Np.complex :=
  fft (Np.clip isovals (np_quantile isovals 0.85)).

(** The three lists that the growth loop of the circular fit extends. *)
Record grow_state := {
  circ_ellipse_radii : list Q;
  phasekeep : list Np.complex;
  allphase : list Np.complex
}.

Definition grow_guard (IMG : image) (st : grow_state) : res bool :=
  let* r := getitem PyList (circ_ellipse_radii st) (-1) in
  Ok (Np.Qltb r (half_len IMG)).

Definition grow_body (dat : image) (rs : results) (st : grow_state)
    : res (grow_state * bool) :=
  let* r_prev := getitem PyList (circ_ellipse_radii st) (-1) in
  let radii := circ_ellipse_radii st ++ [r_prev * (1 + 0.2)] in
  let* r := getitem PyList radii (-1) in
  let isovals := _iso_extract_more dat r 0 0 (center_ rs) in
  let coefs := clipped_fft (fst isovals) in
  let* c2 := getitem NdArray coefs 2 in
  let all' := allphase st ++ [c2] in
  let* c1 := getitem NdArray coefs 1 in
  let* keep :=
    if Np.Qltb (np_abs c1) (np_abs c2)
    then let* c3 := getitem NdArray coefs 3 in
         Ok (Np.Qltb (np_abs c3) (np_abs c2))
    else Ok false in
  let keep' := if keep : bool then phasekeep st ++ [c2] else phasekeep st in
  let stop :=
    Np.Qltb (np_quantile (fst isovals) 0.8) (3 * background_noise rs)
    && (4 <? length radii)%nat in
  Ok ({| circ_ellipse_radii := radii; phasekeep := keep'; allphase := all' |},
      stop).

Definition grow_init (rs : results) : grow_state :=
  {| circ_ellipse_radii := [psf_fwhm rs / 2]; phasekeep := []; allphase := [] |}.

(** Lines 105-119: the radius growth loop. *)
Definition grow (fuel : nat) (IMG : image) (rs : results) : res grow_state :=
  while_loop fuel (grow_guard IMG)
    (grow_body (subtract_background IMG (background rs)) rs) (grow_init rs).

(** Lines 121-124: the global position angle. *)
Definition global_phase (st : grow_state) : Q :=
  if (5 <=? length (phasekeep st))%nat
  then Np.pymod (- np_angle (np_mean (slice_from (phasekeep st) (-5))) / 2) Np.pi
  else Np.pymod
         (- np_angle
              (np_mean
                 (slice_from (allphase st)
                    (Z.of_nat (length (allphase st) / 2)))) / 2) Np.pi.

Definition _CircfitEllip_loss (e : Q) (dat : image) (r p : Q) (c : center)
    (n : Q) : res Q :=
  let isovals := _iso_extract dat r e p c in
  let coefs := clipped_fft isovals in
  let* c2 := getitem NdArray coefs 2 in
  Ok (np_abs c2 / (Np.of_nat (length isovals) * (Qabs (np_median isovals) + n))).

(** Line 130: one entry of [test_f2]. *)
Definition test_f2_entry (radii : list Q) (dat : image) (phase : Q)
    (rs : results) (e : Q) : res Q :=
  let* losses :=
    mapM (fun m =>
            let* R := getitem PyList radii (-2) in
            _CircfitEllip_loss e dat (R * m) phase (center_ rs)
              (background_noise rs))
         (Np.linspace 0.8 1.2 5) in
  Ok (Np.sum losses).

(** Line 132: the function handed to [minimize]. *)
Definition refine_objective (d : image) (r p : Q) (c : center) (n : Q)
    (e0 : Q) : res Q :=
  let* losses :=
    mapM (fun m => _CircfitEllip_loss (_x_to_eps e0) d (r * m) p c n)
         (Np.linspace 0.8 1.2 5) in
  Ok (Np.sum losses).

Definition initial_simplex (ellip : Q) : list (list Q) :=
  [[_inv_x_to_eps ellip - 1 / 15]; [_inv_x_to_eps ellip + 1 / 15]].

(** Lines 127-138: the global ellipticity; the value and the events. *)
Definition global_ellip (name : string) (radii : list Q) (dat : image)
    (phase : Q) (rs : results) : res (Q * list event) :=
  let test_ellip := Np.linspace 0.05 0.95 15 in
  let* test_f2 := mapM (test_f2_entry radii dat phase rs) test_ellip in
  let* k := Np.argmin test_f2 in
  let* ellip := getitem NdArray test_ellip (Z.of_nat k) in
  let* R := getitem PyList radii (-2) in
  let* res :=
    minimize_NelderMead
      (refine_objective dat R phase (center_ rs) (background_noise rs))
      (_inv_x_to_eps ellip) (initial_simplex ellip) in
  if success res
  then Ok (_x_to_eps (res_x res),
           [Debug_optimal name (_x_to_eps (res_x res)) ellip])
  else Ok (ellip, []).

(** Lines 142-153: the two error bars. *)
Definition error_bars (radii : list Q) (dat : image) (ellip : Q)
    (rs : results) : res (Q * Q) :=
  let* R := getitem PyList radii (-2) in
  let RR := Np.linspace (R - psf_fwhm rs) (R + psf_fwhm rs) 10 in
  let* errallphase :=
    mapM (fun rr =>
            let isovals := _iso_extract_more dat rr 0 0 (center_ rs) in
            getitem NdArray (clipped_fft (fst isovals)) 2) RR in
  let sample_pas :=
    map (fun z =>
           Np.pymod
             (- np_angle (Np.cdiv (Np.cmul Np.j z) (np_mean errallphase)) / 2)
             Np.pi) errallphase in
  let pa_err := iqr sample_pas 16 84 / 2 in
  let* res_multi :=
    mapM (fun rrp =>
            minimize_NelderMead
              (fun e0 => _CircfitEllip_loss (_x_to_eps e0) dat (fst rrp)
                           (snd rrp) (center_ rs) (background_noise rs))
              (_inv_x_to_eps ellip) (initial_simplex ellip))
         (zip RR sample_pas) in
  let ellip_err := iqr (map (fun rm => _x_to_eps (res_x rm)) res_multi) 16 84 / 2 in
  Ok (pa_err, ellip_err).

(** [name != '' and 'doplot' in kwargs and kwargs['doplot']] *)
Definition doplot (name : string) (kwargs : gmap string pyval) : bool :=
  negb (String.eqb name "")
  && match kwargs !! "doplot" with
     | Some v => truthy v
     | None => false
     end.

Definition plot_events (name : string) (kwargs : gmap string pyval)
    : list event :=
  if doplot name kwargs then [SaveFig (kwargs !! "plotpath") name] else [].

(** The function; [clock] is what [time()] answers at line 126. *)
Definition Isophote_Initialize_CircFit (fuel : nat) (clock : Q) (IMG : image)
    (pixscale : Q) (name : string) (rs : results)
    (kwargs : gmap string pyval) : res (CircFit_result * list event) :=
  let dat := subtract_background IMG (background rs) in
  let* st := grow fuel IMG rs in
  let radii := circ_ellipse_radii st in
  let* r_last := getitem PyList radii (-1) in
  let phase := global_phase st in
  let start := clock in
  let* ee := global_ellip name radii dat phase rs in
  let ellip := fst ee in
  let* errs := error_bars radii dat ellip rs in
  let* R := getitem NdArray radii (-2) in
  Ok ({| init_ellip := ellip; init_ellip_err := snd errs;
         init_pa := phase; init_pa_err := fst errs; init_R := R |},
      [Info_init_scale name r_last;
       Info_counts name (length radii) (length (allphase st))]
      ++ snd ee ++ plot_events name kwargs).

(** *** The grid search *)

Definition gs_guard (IMG : image) (radii : list Q) : res bool :=
  let* r := getitem PyList radii (-1) in
  Ok (Np.Qltb r (half_len IMG)).

Definition gs_body (IMG : image) (rs : results) (radii : list Q)
    : res (list Q * bool) :=
  let* r_prev := getitem PyList radii (-1) in
  let radii' := radii ++ [r_prev * (1 + 0.3)] in
  let* r := getitem PyList radii' (-1) in
  let isovals :=
    _iso_extract (subtract_background IMG (background rs)) r 0 0 (center_ rs) in
  let stop :=
    Np.Qltb (np_quantile isovals 0.6) (3 * background_noise rs)
    && (4 <? length radii')%nat in
  Ok (radii', stop).

(** Lines 33-38. *)
Definition gs_grow (fuel : nat) (IMG : image) (rs : results) : res (list Q) :=
  while_loop fuel (gs_guard IMG) (gs_body IMG rs) [psf_fwhm rs].

(** Lines 48-52. *)
Definition initializations : list (Q * Q) :=
  let N_e := 10%nat in
  let N_pa := 20%nat in
  flat_map
    (fun e =>
       map (fun p => (e, p))
         (Np.linspace 0 ((Np.of_nat N_pa - 1) * Np.pi / Np.of_nat N_pa) N_pa))
    (Np.linspace (_inv_x_to_eps 0.2) (_inv_x_to_eps 0.8) N_e).

(** [best = [np.inf, -1, []]]; [None] is [np.inf]. *)
Record gs_best := {
  best_loss : option Q;
  best_index : Z;
  best_params : list Q
}.

Definition lt_best (v : Q) (b : option Q) : bool :=
  match b with
  | None => true
  | Some w => Np.Qltb v w
  end.

(** Lines 58-69: one turn of the loop over [initializations]. *)
Definition gs_step (IMG : image) (radii : list Q) (c : center)
    (st : list Q * gs_best) (ep : Q * Q) : res (list Q * gs_best) :=
  match _Fit_Isophotes_Loss with
  | None => Raise (NameError "_Fit_Isophotes_Loss")
  | Some loss =>
      let loss_results :=
        fst st
        ++ [loss (replicate (length radii) ep) IMG radii c
              (seq 0 (length radii))] in
      let* v := getitem PyList loss_results (-1) in
      if lt_best v (best_loss (snd st))
      then Ok (loss_results,
               {| best_loss := Some v;
                  best_index := Z.of_nat (length loss_results) - 1;
                  best_params := [fst ep; snd ep] |})
      else Ok (loss_results, snd st)
  end.

Fixpoint foldM {A B} (f : A -> B -> res A) (a : A) (l : list B) : res A :=
  match l with
  | [] => Ok a
  | b :: l' => let* a' := f a b in foldM f a' l'
  end.

Definition Isophote_Initialize_GridSearch (fuel : nat) (IMG : image)
    (pixscale : Q) (name : string) (rs : results)
    (kwargs : gmap string pyval) : res (GridSearch_result * list event) :=
  let* radii := gs_grow fuel IMG rs in
  let* r_last := getitem PyList radii (-1) in
  let* lb :=
    foldM (gs_step IMG radii (center_ rs))
      ([], {| best_loss := None; best_index := -1; best_params := [] |})
      initializations in
  let best := snd lb in
  let* plotted :=
    if doplot name kwargs
    then let* e := getitem PyList (best_params best) 0 in
         let* p := getitem PyList (best_params best) 1 in
         Ok [SaveFig (kwargs !! "plotpath") name]
    else Ok [] in
  let* e := getitem PyList (best_params best) 0 in
  let* p := getitem PyList (best_params best) 1 in
  Ok ({| gs_init_ellip := e; gs_init_pa := p |},
      [Info_init_scale name r_last; Info_initializing name]
      ++ plotted ++ [Info_best name e]).

(** *** Vocabulary of the properties *)

(** The [k]-th coefficient of the clipped transform of the circular
    isophote of radius [r]. *)
Definition harmonic (dat : image) (rs : results) (k : nat) (r : Q)
    : Np.complex :=
  nth k (clipped_fft (fst (_iso_extract_more dat r 0 0 (center_ rs))))
    (Np.Cx 0 0).

(** The second harmonic is larger than the first and than the third. *)
Definition dominant (dat : image) (rs : results) (r : Q) : bool :=
  Np.Qltb (np_abs (harmonic dat rs 1 r)) (np_abs (harmonic dat rs 2 r))
  && Np.Qltb (np_abs (harmonic dat rs 3 r)) (np_abs (harmonic dat rs 2 r)).

(** The 80th percentile of the flux on the circle of radius [r]. *)
Definition flux_p80 (dat : image) (rs : results) (r : Q) : Q :=
  np_quantile (fst (_iso_extract_more dat r 0 0 (center_ rs))) 0.8.

(** The noise floor is reached on the last of the radii tried so far, and
    at least 4 radii have been tried. *)
Definition noise_floor_reached (dat : image) (rs : results) (tried : list Q)
    : Prop :=
  exists r, last tried = Some r
            /\ flux_p80 dat rs r < 3 * background_noise rs
            /\ (4 <= length tried)%nat.

(** A number of iterations after which the radius has passed [len(IMG)/2]. *)
Definition growth_bound (IMG : image) (rs : results) : nat :=
  Z.to_nat (Qceiling (5 * Np.of_nat (length IMG) / psf_fwhm rs)).


(** The 2nd-harmonic loss of ellipticity [e] summed over the five radii
    [0.8 R, ..., 1.2 R]. *)
Definition sum_loss (dat : image) (R phase : Q) (rs : results) (e : Q)
    : res Q :=
  let* losses :=
    mapM (fun m => _CircfitEllip_loss e dat (R * m) phase (center_ rs)
                     (background_noise rs))
         (Np.linspace 0.8 1.2 5) in
  Ok (Np.sum losses).

(** The 2nd-harmonic loss of ellipticity [e] averaged over the five radii
    [0.8 R, ..., 1.2 R], as the specification words it. *)
Definition mean_loss (dat : image) (R phase : Q) (rs : results) (e : Q)
    : res Q :=
  let* losses :=
    mapM (fun m => _CircfitEllip_loss e dat (R * m) phase (center_ rs)
                     (background_noise rs))
         (Np.linspace 0.8 1.2 5) in
  Ok (Np.sum losses / 5).

(** The dictionary a run returns, without the log and the figures. *)
Definition returned {A : Type} (r : res (A * list event)) : res A :=
  let* p := r in Ok (fst p).

(** What holds of the three lists after any number of iterations: the radii
    start at half the PSF width and grow by the factor 1.2 while they are
    below [len(IMG)/2]; one coefficient is recorded per radius tried, and
    retained where the second harmonic dominates; the noise floor was not
    reached before the last radius. *)
Definition grown (IMG : image) (rs : results) (st : grow_state) : Prop :=
  let dat := subtract_background IMG (background rs) in
  exists tried,
    circ_ellipse_radii st = psf_fwhm rs / 2 :: tried
    /\ (forall i a b,
          circ_ellipse_radii st !! i = Some a ->
          circ_ellipse_radii st !! S i = Some b ->
          b = a * (1 + 0.2) /\ a < half_len IMG)
    /\ allphase st = map (harmonic dat rs 2) tried
    /\ phasekeep st
       = map (harmonic dat rs 2) (List.filter (dominant dat rs) tried)
    /\ (forall k, (0 < k < length tried)%nat ->
                  ~ noise_floor_reached dat rs (take k tried)).

(** The state in which the loop ends. *)
Definition grow_final (IMG : image) (rs : results) (st : grow_state) : Prop :=
  let dat := subtract_background IMG (background rs) in
  grown IMG rs st
  /\ (noise_floor_reached dat rs (tail (circ_ellipse_radii st))
      \/ exists r, last (circ_ellipse_radii st) = Some r /\ half_len IMG <= r).

End Model.

End Initialize.

(** ** Pipeline.py *)

Module Pipeline.

(** The log of one run: the calls to [logging], and the calls of the stage
    functions together with the dictionary [results] they are handed. *)
Inductive log_event (V : Type) :=
| Error_data_missing (name : string)
| Info_step (name step : string)
| Called (step : string) (seen : gmap string V)
| Info_saving (name : string)
| Info_complete (name : string)
| Info_all_finished.

Arguments Error_data_missing {V} name.
Arguments Info_step {V} name step.
Arguments Called {V} step seen.
Arguments Info_saving {V} name.
Arguments Info_complete {V} name.
Arguments Info_all_finished {V}.

(** A computation that extends the log and ends in an outcome; the log
    survives an exception. *)
Definition io (V A : Type) : Type :=
  list (log_event V) -> res A * list (log_event V).

Definition io_ret {V A} (a : A) : io V A := fun log => (Ok a, log).

Definition io_bind {V A B} (m : io V A) (k : A -> io V B) : io V B :=
  fun log =>
    match m log with
    | (Ok a, log') => k a log'
    | (Raise e, log') => (Raise e, log')
    | (OutOfFuel, log') => (OutOfFuel, log')
    end.

Definition io_log {V} (e : log_event V) : io V unit :=
  fun log => (Ok tt, log ++ [e]).

Definition io_lift {V A} (r : res A) : io V A := fun log => (r, log).

Fixpoint io_mapM {V A B} (f : A -> io V B) (l : list A) : io V (list B) :=
  match l with
  | [] => io_ret []
  | a :: l' =>
      io_bind (f a) (fun b => io_bind (io_mapM f l') (fun bs => io_ret (b :: bs)))
  end.

(** A stage function: [f(dat, pixscale, name, results, **kwargs)]. *)
Definition stage (V : Type) : Type :=
  image -> Q -> string -> gmap string V -> gmap string pyval -> res V.

(** The arguments of one [Process_Image] call made by [Process_List]:
    [(IMG, pixscale, saveto, name, kwargs_internal)]. *)
Definition job : Type :=
  string * Q * option string * option string * gmap string pyval.

(** What the pipeline imports and what it hands to the operating system. *)
Class Stages (V : Type) := {
  Background_Mode : stage V;
  Calculate_PSF : stage V;
  Center_HillClimb : stage V;
  Isophote_Initialize_CircFit : stage V;
  Isophote_Fit_FFT_Robust : stage V;
  Star_Mask_IRAF : stage V;
  Isophote_Extract : stage V;
  Check_Fit_IQR : stage V;
  (** [Read_Image(IMG, **kwargs)]; [None] when there is no data. *)
  Read_Image : string -> gmap string pyval -> res (option image);
  (** The files written by [WriteProf]. *)
  WriteProf :
    gmap string V -> string -> Q -> string -> gmap string pyval -> res unit;
  (** The file name without directory and extension (line 129). *)
  name_of_path : string -> string;
  (** [Pool(n_procs).starmap(f, jobs, chunksize)] *)
  pool_starmap : nat -> (job -> io V Z) -> list job -> nat -> io V (list Z)
}.

Section Model.

Context {V : Type} {stages : Stages V}.

Notation "'do' x '<-' e ';' k" := (io_bind e (fun x => k))
  (at level 10, x name, e at level 100, k at level 200, only parsing).

(** The two attributes of an [Isophote_Pipeline] object. *)
Record Isophote_Pipeline := {
  pipeline_functions : gmap string (stage V);
  pipeline_steps : list string
}.

(** [__init__] *)
Definition init : Isophote_Pipeline :=
  {| pipeline_functions :=
       <["background" := Background_Mode]>
       (<["psf" := Calculate_PSF]>
       (<["center" := Center_HillClimb]>
       (<["isophoteinit" := Isophote_Initialize_CircFit]>
       (<["isophotefit" := Isophote_Fit_FFT_Robust]>
       (<["starmask" := Star_Mask_IRAF]>
       (<["isophoteextract" := Isophote_Extract]>
       (<["checkfit" := Check_Fit_IQR]> ∅)))))));
     pipeline_steps :=
       ["background"; "psf"; "center"; "isophoteinit"; "isophotefit";
        "starmask"; "isophoteextract"; "checkfit"] |}.

Definition UpdatePipeline (self : Isophote_Pipeline)
    (new_pipeline_functions : option (gmap string (stage V)))
    (new_pipeline_steps : option (list string)) : Isophote_Pipeline :=
  let fs :=
    match new_pipeline_functions with
    | Some new =>
        if decide (new = ∅) then pipeline_functions self
        else new ∪ pipeline_functions self
    | None => pipeline_functions self
    end in
  let steps :=
    match new_pipeline_steps with
    | Some (s :: l) => s :: l
    | _ => pipeline_steps self
    end in
  {| pipeline_functions := fs; pipeline_steps := steps |}.

(** Line 135: the 20 x 20 block around the middle of the image. *)
Definition center_block (dat : image) : res (list (list Q)) :=
  let a := Z.of_nat (length dat / 2) in
  let* row0 := getitem NdArray dat 0 in
  let b := Z.of_nat (length row0 / 2) in
  Ok (map (fun row => slice row (b - 10) (b + 10)) (slice dat (a - 10) (a + 10))).

Definition all_zero (block : list (list Q)) : bool :=
  forallb (forallb (fun v => Qeq_bool v 0)) block.

(** Lines 149-151: the loop over the steps. *)
Fixpoint run_steps (self : Isophote_Pipeline) (dat : image) (pixscale : Q)
    (name : string) (kwargs : gmap string pyval) (steps : list string)
    (results : gmap string V) : io V (gmap string V) :=
  match steps with
  | [] => io_ret results
  | step :: rest =>
      do _ <- io_log (Info_step name step);
      match pipeline_functions self !! step with
      | None => io_lift (Raise (KeyError step))
      | Some f =>
          do _ <- io_log (Called step results);
          do v <- io_lift (f dat pixscale name results kwargs);
          run_steps self dat pixscale name kwargs rest (<[step := v]> results)
      end
  end.

Definition Process_Image (self : Isophote_Pipeline) (IMG : string)
    (pixscale : Q) (saveto name : option string)
    (kwargs_internal kwargs : gmap string pyval) : io V Z :=
  let kwargs := kwargs_internal ∪ kwargs in
  let name := match name with Some n => n | None => name_of_path IMG end in
  do dat <- io_lift (Read_Image IMG kwargs);
  do missing <-
    match dat with
    | None => io_ret true
    | Some d => do block <- io_lift (center_block d); io_ret (all_zero block)
    end;
  match dat, missing with
  | Some d, false =>
      let saveto := match saveto with Some s => s | None => "./" end in
      do results <- run_steps self d pixscale name kwargs (pipeline_steps self) ∅;
      do _ <- io_log (Info_saving name);
      do _ <- io_lift (WriteProf results saveto pixscale name kwargs);
      do _ <- io_log (Info_complete name);
      io_ret 0%Z
  | _, _ =>
      do _ <- io_log (Error_data_missing name);
      io_ret 1%Z
  end.

(** Lines 189-200: one dictionary of keyword arguments per image. *)
Definition kwargs_of (kwargs : gmap string pyval) (i : nat)
    : res (gmap string pyval) :=
  let tmp :=
    omap (fun v => match v with PList l => l !! i | _ => Some v end) kwargs in
  if (size tmp =? size kwargs)%nat then Ok tmp else Raise (IndexError PyList).

Definition use_kwargs (kwargs : gmap string pyval) (n : nat)
    : res (list (gmap string pyval)) :=
  if decide (map_Forall (fun _ v => is_list v = false) kwargs)
  then Ok (replicate n kwargs)
  else mapM (kwargs_of kwargs) (seq 0 n).

Definition zip5 {A B C D E} (a : list A) (b : list B) (c : list C)
    (d : list D) (e : list E) : list (A * B * C * D * E) :=
  zip (zip (zip (zip a b) c) d) e.

(** Lines 176-206: the arguments of the calls, one tuple per image. *)
Definition imagedata (IMG : list string) (pixscale : Q + list Q)
    (saveto name : option (list string)) (kwargs : gmap string pyval)
    : res (list job) :=
  let n := length IMG in
  let use_pixscale :=
    match pixscale with inl p => replicate n p | inr l => l end in
  let use_saveto :=
    match saveto with None => replicate n None | Some l => map Some l end in
  let use_name :=
    match name with None => replicate n None | Some l => map Some l end in
  let* kws := use_kwargs kwargs n in
  Ok (zip5 IMG use_pixscale use_saveto use_name kws).

(** [self.Process_Image] applied to one tuple, as [starmap] does. *)
Definition Process_job (self : Isophote_Pipeline) (a : job) : io V Z :=
  match a with
  | (img, p, s, nm, kw) => Process_Image self img p s nm kw ∅
  end.

Definition Process_List (self : Isophote_Pipeline) (IMG : list string)
    (pixscale : Q + list Q) (n_procs : Z) (saveto name : option (list string))
    (kwargs : gmap string pyval) : io V (list Z) :=
  do jobs <- io_lift (imagedata IMG pixscale saveto name kwargs);
  do res <-
    (if (1 <? n_procs)%Z
     then pool_starmap (Z.to_nat n_procs) (Process_job self) jobs
            (if (100 <? length IMG)%nat then 5%nat else 1%nat)
     else io_mapM (Process_job self) jobs);
  do _ <- io_log Info_all_finished;
  io_ret res.

(** *** Vocabulary of the properties *)

(** The stage calls of a log, in order, with the dictionary each was handed. *)
Definition calls (log : list (log_event V)) : list (string * gmap string V) :=
  omap (fun e => match e with Called s seen => Some (s, seen) | _ => None end)
    log.

End Model.

(** Stage [a] comes before stage [b] in an order of execution. *)
Definition runs_before (a b : string) (order : list string) : Prop :=
  exists i j, (i < j)%nat /\ order !! i = Some a /\ order !! j = Some b.

End Pipeline.

(** ** One executable implementation of the collaborators

    A four-point sampler on the axes of the ellipse (nearest pixel, zero
    outside the image), the four-point discrete Fourier transform,
    numpy's quantile by linear interpolation, and stand-ins for the
    transcendental routines.  It serves to run the model on concrete
    images; no theorem about the source depends on it. *)

Module Demo.

Local Open Scope Q_scope.

Definition pixel (IMG : image) (px py : Q) : Q :=
  let col := Qfloor (px + 1 / 2) in
  let row := Qfloor (py + 1 / 2) in
  if ((0 <=? row) && (0 <=? col))%Z
  then match IMG !! Z.to_nat row with
       | Some r => match r !! Z.to_nat col with Some v => v | None => 0 end
       | None => 0
       end
  else 0.

Definition iso4 (IMG : image) (r e pa : Q) (c : center) : list Q :=
  [pixel IMG (x c + r) (y c); pixel IMG (x c) (y c + r * (1 - e));
   pixel IMG (x c - r) (y c); pixel IMG (x c) (y c - r * (1 - e))].

Definition fft4 (l : list Q) : list Np.complex :=
  match l with
  | [a; b; c; d] =>
      [Np.Cx (a + b + c + d) 0; Np.Cx (a - c) (d - b);
       Np.Cx (a - b + c - d) 0; Np.Cx (a - c) (b - d)]
  | _ => []
  end.

Fixpoint insert_sorted (v : Q) (l : list Q) : list Q :=
  match l with
  | [] => [v]
  | w :: l' => if Qle_bool v w then v :: l else w :: insert_sorted v l'
  end.

Definition sort (l : list Q) : list Q := fold_right insert_sorted [] l.

Definition quantile (l : list Q) (q : Q) : Q :=
  let s := sort l in
  let pos := q * (Np.of_nat (length l) - 1) in
  let lo := Z.to_nat (Qfloor pos) in
  let frac := pos - inject_Z (Qfloor pos) in
  let a := nth lo s 0 in
  let b := nth (S lo) s a in
  Qred (a + frac * (b - a)).

Definition abs1 (z : Np.complex) : Q := Qred (Qabs (Np.re z) + Qabs (Np.im z)).

Definition axis_angle (z : Np.complex) : Q :=
  if Np.Qltb 0 (Np.im z) then Np.pi / 2
  else if Np.Qltb (Np.im z) 0 then - (Np.pi / 2)
  else if Np.Qltb (Np.re z) 0 then Np.pi
  else 0.

Definition mean (l : list Np.complex) : Np.complex :=
  Np.Cx (Qred (Np.sum (map Np.re l) / Np.of_nat (length l)))
        (Qred (Np.sum (map Np.im l) / Np.of_nat (length l))).

(** A rational bijection between the line and the open unit interval. *)
Definition x_to_eps (t : Q) : Q := Qred (1 / 2 + t / (2 * (1 + Qabs t))).

Definition inv_x_to_eps (e : Q) : Q :=
  Qred ((2 * e - 1) / (1 - Qabs (2 * e - 1))).

(** The best vertex of the initial simplex; [converged] is the success
    flag it reports. *)
Definition minimize (converged : bool) (f : Q -> res Q) (x0 : Q)
    (simplex : list (list Q)) : res OptimizeResult :=
  let* vals :=
    mapM (fun v => let* p := getitem PyList v 0 in
                   let* fp := f p in Ok (p, fp)) simplex in
  match vals with
  | [] => Raise ValueError
  | v :: vals' =>
      Ok {| res_x :=
              fst (fold_left
                     (fun b w => if Np.Qltb (snd w) (snd b) then w else b)
                     vals' v);
            success := converged |}
  end.

Definition numerics (converged : bool) : Numerics :=
  {| _iso_extract := iso4;
     _iso_extract_more := fun IMG r e pa c => (iso4 IMG r e pa c, []);
     _x_to_eps := x_to_eps;
     _inv_x_to_eps := inv_x_to_eps;
     fft := fft4;
     np_quantile := quantile;
     np_median := fun l => quantile l 0.5;
     np_abs := abs1;
     np_angle := axis_angle;
     np_mean := mean;
     minimize_NelderMead := minimize converged;
     iqr := fun l lo hi => quantile l (hi / 100) - quantile l (lo / 100);
     _Fit_Isophotes_Loss := None |}.

(** Images: [n] rows of [m] pixels. *)
Definition make_image (n m : nat) (f : nat -> nat -> Q) : image :=
  map (fun row => map (fun col => f row col) (seq 0 m)) (seq 0 n).

(** A flat field of flux 100. *)
Definition flat (n m : nat) : image := make_image n m (fun _ _ => 100).

(** A galaxy with axis ratio 1/2 centred on pixel (16, 16) of a 32 x 32
    image: flux 1000 / (1 + dx^2 + 4 dy^2). *)
Definition galaxy : image :=
  make_image 32 32
    (fun row col =>
       let dx := Np.of_nat col - 16 in
       let dy := Np.of_nat row - 16 in
       Qred (1000 / (1 + dx * dx + 4 * dy * dy))).

Definition galaxy_results : results :=
  {| psf_fwhm := 2; background := 0; background_noise := 10;
     center_ := {| x := 16; y := 16 |} |}.

Definition flat_results (n : nat) (psf : Q) : results :=
  {| psf_fwhm := psf; background := 0; background_noise := 1;
     center_ := {| x := Np.of_nat (n / 2); y := Np.of_nat (n / 2) |} |}.

(** *** A pipeline to run

    Every stage answers with the keys of [results] it was handed, so that a
    run records what each stage could depend on.  The stage bound to
    ['isophoteinit'] here is not the call that the source makes: it runs
    the circular fit on entries fixed beforehand (a PSF of 4 pixels, no
    background, the centre in the middle of the image) and not on the
    [results] it is handed, and so it is a stage that raises on some images
    and returns on others.  The default pipeline with the circular fit
    itself, which reads [results], is [Cases.pipeline] below. *)

Definition keys_seen (results : gmap string (list string)) : list string :=
  map fst (map_to_list results).

Definition echo : Pipeline.stage (list string) :=
  fun _ _ _ results _ => Ok (keys_seen results).

Definition circfit_stage : Pipeline.stage (list string) :=
  fun dat pixscale name results kwargs =>
    let* out :=
      Initialize.Isophote_Initialize_CircFit (num := numerics true) 64 0 dat
        pixscale name (flat_results (length dat) 4) kwargs in
    Ok (keys_seen results).

Definition read_image (path : string) (kwargs : gmap string pyval)
    : res (option image) :=
  if String.eqb path "galaxy.fits" then Ok (Some galaxy)
  else if String.eqb path "small.fits" then Ok (Some (flat 4 8))
  else if String.eqb path "blank.fits" then Ok (Some (make_image 32 32 (fun _ _ => 0)))
  else Ok None.

Fixpoint before_dot (s : string) : string :=
  match s with
  | EmptyString => EmptyString
  | String c s' => if String.eqb (String c EmptyString) "." then EmptyString else String c (before_dot s')
  end.

(** A pool that runs every job and then reports the first exception. *)
Fixpoint run_all {V A B} (f : A -> Pipeline.io V B) (jobs : list A)
    : Pipeline.io V (list B) :=
  match jobs with
  | [] => Pipeline.io_ret []
  | a :: jobs' =>
      fun log =>
        match f a log with
        | (Ok b, log') =>
            Pipeline.io_bind (run_all f jobs')
              (fun bs => Pipeline.io_ret (b :: bs)) log'
        | (Raise e, log') => (Raise e, snd (run_all f jobs' log'))
        | (OutOfFuel, log') => (OutOfFuel, log')
        end
  end.

Definition stages : Pipeline.Stages (list string) :=
  {| Pipeline.Background_Mode := echo;
     Pipeline.Calculate_PSF := echo;
     Pipeline.Center_HillClimb := echo;
     Pipeline.Isophote_Initialize_CircFit := circfit_stage;
     Pipeline.Isophote_Fit_FFT_Robust := echo;
     Pipeline.Star_Mask_IRAF := echo;
     Pipeline.Isophote_Extract := echo;
     Pipeline.Check_Fit_IQR := echo;
     Pipeline.Read_Image := read_image;
     Pipeline.WriteProf := fun _ _ _ _ _ => Ok tt;
     Pipeline.name_of_path := before_dot;
     Pipeline.pool_starmap := fun _ f jobs _ => run_all f jobs |}.

(** A readable view of a log: the stage calls with the keys they saw. *)
Definition view (e : Pipeline.log_event (list string)) : string * list string :=
  match e with
  | Pipeline.Called s seen => (s, keys_seen seen)
  | Pipeline.Info_step n s => ("info", [n; s])
  | Pipeline.Error_data_missing n => ("missing", [n])
  | Pipeline.Info_saving n => ("saving", [n])
  | Pipeline.Info_complete n => ("complete", [n])
  | Pipeline.Info_all_finished => ("finished", [])
  end.

Definition run {A} (m : Pipeline.io (list string) A)
    : res A * list (string * list string) :=
  let r := m [] in (fst r, map view (snd r)).

Definition pipeline : Pipeline.Isophote_Pipeline := @Pipeline.init _ stages.

Definition Process_Image :=
  @Pipeline.Process_Image _ stages pipeline.

Definition Process_List :=
  @Pipeline.Process_List _ stages pipeline.

Definition CircFit (converged : bool) :=
  @Initialize.Isophote_Initialize_CircFit (numerics converged).

(** The runs on which the properties are exercised. *)
Definition galaxy_grown : Initialize.grow_state :=
  match Initialize.grow (num := numerics true) 100 galaxy galaxy_results with
  | Ok st => st
  | _ => Initialize.grow_init galaxy_results
  end.

Definition galaxy_fit : CircFit_result * list event :=
  match CircFit true 100 0 galaxy 1 "galaxy" galaxy_results ∅ with
  | Ok oe => oe
  | _ => ({| init_ellip := 0; init_ellip_err := 0; init_pa := 0;
             init_pa_err := 0; init_R := 0 |}, [])
  end.

Definition galaxy_log : list (Pipeline.log_event (list string)) :=
  snd (Process_Image "galaxy.fits" 1 None None ∅ ∅ []).

(** Keyword arguments that name the configuration values. *)
Definition overrides : gmap string pyval :=
  <["clip_quantile" := PNum 0.5]>
  (<["growth_factor" := PNum 2]>
  (<["N_ellip" := PNum 30]>
  (<["noise_multiple" := PNum 10]> ∅))).

End Demo.

(** ** The default name of an image

    Line 129 of [Pipeline.py], which names an image after its file when no
    name is given:
    [IMG[a : IMG.find('.', a)]] with [a = IMG.rfind('/') if '/' in IMG else 0]. *)

Module Name.

(** [s.find(c, start)]: the lowest index from [start] on at which [c]
    occurs, or -1. *)
Definition find (c : ascii) (s : list ascii) (start : nat) : Z :=
  match list_find (fun a => a = c) (drop start s) with
  | Some (i, _) => Z.of_nat (start + i)
  | None => -1
  end.

(** [s.rfind(c)]: the highest index at which [c] occurs, or -1. *)
Definition rfind (c : ascii) (s : list ascii) : Z :=
  match list_find (fun a => a = c) (reverse s) with
  | Some (i, _) => Z.of_nat (length s - 1 - i)
  | None => -1
  end.

Definition default_name (IMG : string) : string :=
  let s := String.list_ascii_of_string IMG in
  let a := if bool_decide ("/"%char ∈ s) then rfind "/" s else 0%Z in
  String.string_of_list_ascii (slice s a (find "." s (Z.to_nat a))).

End Name.

(** ** The module of a configuration file

    Lines 225-228 of [Pipeline.py]: the name under which
    [Process_ConfigFile] imports the file, and the directory it appends to
    [sys.path] before.  The import itself, and the calls that follow it,
    are not modelled. *)

Module Config.

(** [config_file[:-3] if config_file[-3:] == '.py' else config_file], then
    [use_config[use_config.rfind('/')+1:]] when the path has a slash. *)
Definition use_config (config_file : string) : string :=
  let s := String.list_ascii_of_string config_file in
  let u :=
    if bool_decide (slice_from s (-3) = ["."; "p"; "y"]%char)
    then slice s 0 (-3)
    else s in
  String.string_of_list_ascii
    (if bool_decide ("/"%char ∈ s)
     then slice_from u (Name.rfind "/" u + 1)
     else u).

(** [config_file[:config_file.rfind('/')]], when the path has a slash. *)
Definition path_appended (config_file : string) : option string :=
  let s := String.list_ascii_of_string config_file in
  if bool_decide ("/"%char ∈ s)
  then Some (String.string_of_list_ascii (slice s 0 (Name.rfind "/" s)))
  else None.

End Config.

(** ** The circular fit as a stage of the pipeline

    [Process_Image] hands a stage the dictionary [results] itself.  Here
    [Isophote_Initialize_CircFit] is written once more with every
    [results[...]] where the source has it, so that a missing key raises
    where the source raises.  The dictionary is not written to by the
    function. *)

Module Stage.

(** The values of [results] as the circular fit uses them. *)
Class Values (V : Type) := {
  (** The float that a value is, or the exception that arithmetic on the
      value raises when it is none. *)
  as_float : V -> res Q;
  (** The centre ([{'x': ..., 'y': ...}]) that [_iso_extract] reads from a
      value, or the exception of reading it. *)
  as_center : V -> res center;
  (** The dictionary that the circular fit returns, as a value. *)
  of_CircFit : CircFit_result -> V
}.

Section Model.

Context {num : Numerics} {V : Type} {val : Values V}.

Local Open Scope Q_scope.

Import Initialize.

(** [results[key]] *)
Definition item (results : gmap string V) (key : string) : res V :=
  match results !! key with
  | Some v => Ok v
  | None => Raise (KeyError key)
  end.

Definition float_item (results : gmap string V) (key : string) : res Q :=
  let* v := item results key in as_float v.

Definition center_item (results : gmap string V) (key : string) : res center :=
  let* v := item results key in as_center v.

(** Lines 111-119. *)
Definition grow_body (dat : image) (results : gmap string V) (st : grow_state)
    : res (grow_state * bool) :=
  let* r_prev := getitem PyList (circ_ellipse_radii st) (-1) in
  let radii := circ_ellipse_radii st ++ [r_prev * (1 + 0.2)] in
  let* r := getitem PyList radii (-1) in
  let* c := center_item results "center" in
  let isovals := _iso_extract_more dat r 0 0 c in
  let coefs := clipped_fft (fst isovals) in
  let* c2 := getitem NdArray coefs 2 in
  let all' := allphase st ++ [c2] in
  let* c1 := getitem NdArray coefs 1 in
  let* keep :=
    if Np.Qltb (np_abs c1) (np_abs c2)
    then let* c3 := getitem NdArray coefs 3 in
         Ok (Np.Qltb (np_abs c3) (np_abs c2))
    else Ok false in
  let keep' := if keep : bool then phasekeep st ++ [c2] else phasekeep st in
  let* noise := float_item results "background noise" in
  let stop :=
    Np.Qltb (np_quantile (fst isovals) 0.8) (3 * noise)
    && (4 <? length radii)%nat in
  Ok ({| circ_ellipse_radii := radii; phasekeep := keep'; allphase := all' |},
      stop).

(** Line 130: one entry of [test_f2]. *)
Definition test_f2_entry (radii : list Q) (dat : image) (phase : Q)
    (results : gmap string V) (e : Q) : res Q :=
  let* losses :=
    mapM (fun m =>
            let* R := getitem PyList radii (-2) in
            let* c := center_item results "center" in
            let* n := float_item results "background noise" in
            _CircfitEllip_loss e dat (R * m) phase c n)
         (Np.linspace 0.8 1.2 5) in
  Ok (Np.sum losses).

(** Lines 127-138. *)
Definition global_ellip (name : string) (radii : list Q) (dat : image)
    (phase : Q) (results : gmap string V) : res (Q * list event) :=
  let test_ellip := Np.linspace 0.05 0.95 15 in
  let* test_f2 := mapM (test_f2_entry radii dat phase results) test_ellip in
  let* k := Np.argmin test_f2 in
  let* ellip := getitem NdArray test_ellip (Z.of_nat k) in
  let* R := getitem PyList radii (-2) in
  let* c := center_item results "center" in
  let* n := float_item results "background noise" in
  let* res :=
    minimize_NelderMead (refine_objective dat R phase c n)
      (_inv_x_to_eps ellip) (initial_simplex ellip) in
  if success res
  then Ok (_x_to_eps (res_x res),
           [Debug_optimal name (_x_to_eps (res_x res)) ellip])
  else Ok (ellip, []).

(** Lines 142-153. *)
Definition error_bars (radii : list Q) (dat : image) (ellip : Q)
    (results : gmap string V) : res (Q * Q) :=
  let* R := getitem PyList radii (-2) in
  let* psf := float_item results "psf fwhm" in
  let RR := Np.linspace (R - psf) (R + psf) 10 in
  let* errallphase :=
    mapM (fun rr =>
            let* c := center_item results "center" in
            let isovals := _iso_extract_more dat rr 0 0 c in
            getitem NdArray (clipped_fft (fst isovals)) 2) RR in
  let sample_pas :=
    map (fun z =>
           Np.pymod
             (- np_angle (Np.cdiv (Np.cmul Np.j z) (np_mean errallphase)) / 2)
             Np.pi) errallphase in
  let pa_err := iqr sample_pas 16 84 / 2 in
  let* res_multi :=
    mapM (fun rrp =>
            let* c := center_item results "center" in
            let* n := float_item results "background noise" in
            minimize_NelderMead
              (fun e0 => _CircfitEllip_loss (_x_to_eps e0) dat (fst rrp)
                           (snd rrp) c n)
              (_inv_x_to_eps ellip) (initial_simplex ellip))
         (zip RR sample_pas) in
  let ellip_err := iqr (map (fun rm => _x_to_eps (res_x rm)) res_multi) 16 84 / 2 in
  Ok (pa_err, ellip_err).

(** Lines 168-179: the figure, which reads [results['center']]. *)
Definition plot_events (name : string) (results : gmap string V)
    (kwargs : gmap string pyval) : res (list event) :=
  if doplot name kwargs
  then let* c := center_item results "center" in
       Ok [SaveFig (kwargs !! "plotpath") name]
  else Ok [].

Definition Isophote_Initialize_CircFit (fuel : nat) (clock : Q) (IMG : image)
    (pixscale : Q) (name : string) (results : gmap string V)
    (kwargs : gmap string pyval) : res (CircFit_result * list event) :=
  let* psf := float_item results "psf fwhm" in
  let* bg := float_item results "background" in
  let dat := subtract_background IMG bg in
  let* st :=
    while_loop fuel (grow_guard IMG) (grow_body dat results)
      {| circ_ellipse_radii := [psf / 2]; phasekeep := []; allphase := [] |} in
  let radii := circ_ellipse_radii st in
  let* r_last := getitem PyList radii (-1) in
  let phase := global_phase st in
  let start := clock in
  let* ee := global_ellip name radii dat phase results in
  let ellip := fst ee in
  let* errs := error_bars radii dat ellip results in
  let* plotted := plot_events name results kwargs in
  let* R := getitem NdArray radii (-2) in
  Ok ({| init_ellip := ellip; init_ellip_err := snd errs;
         init_pa := phase; init_pa_err := fst errs; init_R := R |},
      [Info_init_scale name r_last;
       Info_counts name (length radii) (length (allphase st))]
      ++ snd ee ++ plotted).

(** The function as an entry of [pipeline_functions]: what the pipeline
    stores under the step name is the dictionary returned. *)
Definition CircFit_stage (fuel : nat) (clock : Q) : Pipeline.stage V :=
  fun dat pixscale name results kwargs =>
    let* out :=
      Isophote_Initialize_CircFit fuel clock dat pixscale name results kwargs in
    Ok (of_CircFit (fst out)).

(** The four entries of [results] that the function reads, as the record
    of the model above. *)
Definition entries (psf bg noise : Q) (c : center) : results :=
  {| psf_fwhm := psf; background := bg; background_noise := noise;
     center_ := c |}.

End Model.

End Stage.

(** ** More of the executable implementation *)

Module Cases.

Local Open Scope Q_scope.

(** The values of [results] in the runs below: a float, a centre, the
    dictionary of the circular fit, or the keys a stage was handed. *)
Inductive value :=
| Float (q : Q)
| XY (c : center)
| Fit (r : CircFit_result)
| Seen (keys : list string).

#[export] Instance values : Stage.Values value :=
  {| Stage.as_float :=
       fun v => match v with
                | Float q => Ok q
                | _ => Raise (StageError "TypeError")
                end;
     Stage.as_center :=
       fun v => match v with
                | XY c => Ok c
                | _ => Raise (StageError "TypeError")
                end;
     Stage.of_CircFit := Fit |}.

(** [results] as the circular fit expects it, for the galaxy of [Demo]. *)
Definition galaxy_entries : gmap string value :=
  <["psf fwhm" := Float 2]>
  (<["background" := Float 0]>
  (<["background noise" := Float 10]>
  (<["center" := XY {| x := 16; y := 16 |}]> ∅))).

Definition seen : Pipeline.stage value :=
  fun _ _ _ results _ => Ok (Seen (map fst (map_to_list results))).

(** The pipeline whose initializer is the circular fit itself; the image
    read is [img] whatever the path. *)
Definition stages (img : option image) : Pipeline.Stages value :=
  {| Pipeline.Background_Mode := seen;
     Pipeline.Calculate_PSF := seen;
     Pipeline.Center_HillClimb := seen;
     Pipeline.Isophote_Initialize_CircFit :=
       Stage.CircFit_stage (num := Demo.numerics true) 100 0;
     Pipeline.Isophote_Fit_FFT_Robust := seen;
     Pipeline.Star_Mask_IRAF := seen;
     Pipeline.Isophote_Extract := seen;
     Pipeline.Check_Fit_IQR := seen;
     Pipeline.Read_Image := fun _ _ => Ok img;
     Pipeline.WriteProf := fun _ _ _ _ _ => Ok tt;
     Pipeline.name_of_path := Name.default_name;
     Pipeline.pool_starmap := fun _ f jobs _ => Demo.run_all f jobs |}.

Definition pipeline (img : option image) : Pipeline.Isophote_Pipeline :=
  @Pipeline.init _ (stages img).

Definition Process_Image (img : option image) :=
  @Pipeline.Process_Image _ (stages img).

(** A sampler that finds the flux 100 at every radius. *)
Definition saturated : Numerics :=
  {| _iso_extract := fun _ _ _ _ _ => [100; 100; 100; 100];
     _iso_extract_more := fun _ _ _ _ _ => ([100; 100; 100; 100], []);
     _x_to_eps := Demo.x_to_eps;
     _inv_x_to_eps := Demo.inv_x_to_eps;
     fft := Demo.fft4;
     np_quantile := Demo.quantile;
     np_median := fun l => Demo.quantile l 0.5;
     np_abs := Demo.abs1;
     np_angle := Demo.axis_angle;
     np_mean := Demo.mean;
     minimize_NelderMead := Demo.minimize true;
     iqr := fun l lo hi => Demo.quantile l (hi / 100) - Demo.quantile l (lo / 100);
     _Fit_Isophotes_Loss := None |}.

(** An image of 19 rows and 19 columns of flux 100 whose last row is 0. *)
Definition last_row_dark : image :=
  Demo.make_image 19 19 (fun row _ => if (row =? 18)%nat then 0 else 100).

(** An image of 32 rows and 32 columns of flux 100, dark in the 20 x 20
    block around its middle. *)
Definition hollow : image :=
  Demo.make_image 32 32
    (fun row col =>
       if ((6 <=? row) && (row <? 26) && (6 <=? col) && (col <? 26))%nat
       then 0 else 100).

(** The fit of an 8 x 8 flat field with a PSF of 4 pixels, on which the
    loop ends with 5 radii. *)
Definition flat_fit : CircFit_result * list event :=
  match Demo.CircFit true 100 0 (Demo.flat 8 8) 1 "flat" (Demo.flat_results 8 4) ∅
  with
  | Ok oe => oe
  | _ => ({| init_ellip := 0; init_ellip_err := 0; init_pa := 0;
             init_pa_err := 0; init_R := 0 |}, [])
  end.

(** Keyword arguments of a batch: a list to hand out and a value to share. *)
Definition batch_kwargs : gmap string pyval :=
  <["doplot" := PList [PBool true; PBool false; PBool true]]>
  (<["plotpath" := PStr "plots/"]> ∅).




End Cases.

(** * Properties *)

(** ** Outcomes, indexing and loops *)

Section Basics.

Lemma bind_Ok {A B} (m : res A) (k : A -> res B) (b : B) :
  bind m k = Ok b <-> exists a, m = Ok a /\ k a = Ok b.
Proof.
  destruct m as [a| |]; simpl; split.
  - intros Hk. exists a. split; [reflexivity | exact Hk].
  - intros (a' & Ha & Hk). injection Ha as ->. exact Hk.
  - discriminate.
  - intros (a' & Ha & _). discriminate.
  - discriminate.
  - intros (a' & Ha & _). discriminate.
Qed.

Lemma getitem_not_OutOfFuel {A} k (l : list A) i : getitem k l i <> OutOfFuel.
Proof. unfold getitem. destruct (index l i); discriminate. Qed.

Lemma index_neg {A} (l : list A) (n : nat) :
  (0 < n)%nat ->
  index l (- Z.of_nat n) =
  if (n <=? length l)%nat then l !! (length l - n)%nat else None.
Proof.
  intros Hn. unfold index.
  destruct (Z.leb_spec 0 (- Z.of_nat n)) as [Hle|_]; [lia|].
  rewrite Z.opp_involutive, Nat2Z.id.
  destruct (Z.leb_spec (Z.of_nat n) (Z.of_nat (length l)));
    destruct (Nat.leb_spec n (length l)); try lia; reflexivity.
Qed.

Lemma index_last {A} (l : list A) : index l (-1) = last l.
Proof.
  change (-1)%Z with (- Z.of_nat 1)%Z. rewrite index_neg by lia.
  rewrite last_lookup. destruct l as [|a l]; [reflexivity|].
  simpl length. replace (S (length l) - 1)%nat with (length l) by lia.
  reflexivity.
Qed.

Lemma getitem_last {A} k (l : list A) (v : A) :
  getitem k (l ++ [v]) (-1) = Ok v.
Proof. unfold getitem. rewrite index_last, last_snoc. reflexivity. Qed.

Lemma getitem_last_Ok {A} k (l : list A) (v : A) :
  getitem k l (-1) = Ok v <-> last l = Some v.
Proof.
  unfold getitem. rewrite index_last.
  destruct (last l); split; intros Hv; try discriminate; congruence.
Qed.

Lemma index_second_last {A} (l : list A) :
  index l (-2) =
  if (2 <=? length l)%nat then l !! (length l - 2)%nat else None.
Proof. change (-2)%Z with (- Z.of_nat 2)%Z. apply index_neg. lia. Qed.

Lemma getitem_nat_Ok {A} k (l : list A) (i : nat) (v : A) :
  getitem k l (Z.of_nat i) = Ok v <-> l !! i = Some v.
Proof.
  unfold getitem, index.
  destruct (Z.leb_spec 0 (Z.of_nat i)) as [_|Hlt]; [|lia].
  rewrite Nat2Z.id.
  destruct (l !! i); split; intros Hv; try discriminate; congruence.
Qed.

Lemma Qltb_lt (a b : Q) : Np.Qltb a b = true <-> (a < b)%Q.
Proof.
  unfold Np.Qltb. rewrite negb_true_iff.
  destruct (Qle_bool b a) eqn:Hle.
  - apply Qle_bool_iff in Hle. split; [discriminate|].
    intros Hlt. exfalso. exact (Qlt_not_le _ _ Hlt Hle).
  - split; [|reflexivity]. intros _.
    apply Qnot_le_lt. intros Hba. apply Qle_bool_iff in Hba. congruence.
Qed.

Lemma Qltb_ge (a b : Q) : Np.Qltb a b = false <-> (b <= a)%Q.
Proof.
  unfold Np.Qltb. rewrite negb_false_iff. apply Qle_bool_iff.
Qed.

End Basics.

(** ** The loop rules *)

Section Loops.

Context {St : Type} (guard : St -> res bool) (body : St -> res (St * bool)).

Lemma while_loop_rule (I F : St -> Prop) :
  (forall st st', I st -> guard st = Ok true -> body st = Ok (st', false) -> I st') ->
  (forall st, I st -> guard st = Ok false -> F st) ->
  (forall st st', I st -> guard st = Ok true -> body st = Ok (st', true) -> F st') ->
  forall fuel st st',
    I st -> Initialize.while_loop fuel guard body st = Ok st' -> F st'.
Proof.
  intros Hstep Hexit Hbreak fuel.
  induction fuel as [|fuel IH]; intros st st' HI Hrun; simpl in Hrun.
  - apply bind_Ok in Hrun as (g & Hg & Hrun).
    destruct g; [discriminate|]. injection Hrun as <-. eauto.
  - apply bind_Ok in Hrun as (g & Hg & Hrun).
    destruct g; [|injection Hrun as <-; eauto].
    apply bind_Ok in Hrun as ([st1 b] & Hb & Hrun). simpl in Hrun.
    destruct b.
    + injection Hrun as <-. eauto.
    + eapply IH; [|exact Hrun]. eauto.
Qed.

Lemma while_loop_fuel_mono (fuel fuel' : nat) (st : St) :
  (fuel <= fuel')%nat ->
  Initialize.while_loop fuel guard body st <> OutOfFuel ->
  Initialize.while_loop fuel' guard body st
  = Initialize.while_loop fuel guard body st.
Proof.
  revert fuel' st. induction fuel as [|fuel IH]; intros fuel' st Hle Hrun.
  - destruct fuel' as [|fuel']; [reflexivity|].
    simpl in *. destruct (guard st) as [[|]| |]; simpl in *; congruence.
  - destruct fuel' as [|fuel']; [lia|].
    simpl in *. destruct (guard st) as [[|]| |]; simpl in *; try reflexivity.
    destruct (body st) as [[st1 [|]]| |]; simpl in *; try reflexivity.
    apply IH; [lia | exact Hrun].
Qed.

End Loops.


(** ** The radius growth loop *)

Section Growth.

Context {num : Numerics}.

Local Open Scope Q_scope.

Import Initialize.

Variables (IMG : image) (rs : results).

Local Abbreviation dat := (subtract_background IMG (background rs)).

Lemma grown_init : grown IMG rs (grow_init rs).
Proof.
  exists []. simpl. repeat split; try reflexivity.
  - destruct i; simpl in *; discriminate.
  - destruct i; simpl in *; discriminate.
  - simpl. intros k Hk. lia.
Qed.

Lemma nth_lookup_Some {A} (l : list A) (i : nat) (d x : A) :
  l !! i = Some x -> nth i l d = x.
Proof.
  revert i. induction l as [|a l IH]; intros [|i]; simpl; try discriminate.
  - congruence.
  - apply IH.
Qed.

Lemma grow_body_spec (st st' : grow_state) (b : bool) (r_prev : Q) :
  last (circ_ellipse_radii st) = Some r_prev ->
  grow_body dat rs st = Ok (st', b) ->
  let r := r_prev * (1 + 0.2) in
  circ_ellipse_radii st' = circ_ellipse_radii st ++ [r]
  /\ allphase st' = allphase st ++ [harmonic dat rs 2 r]
  /\ phasekeep st' =
       phasekeep st ++ (if dominant dat rs r then [harmonic dat rs 2 r] else [])
  /\ b = Np.Qltb (flux_p80 dat rs r) (3 * background_noise rs)
         && (4 <? length (circ_ellipse_radii st'))%nat.
Proof.
  intros Hlast Hbody r. unfold grow_body in Hbody.
  apply bind_Ok in Hbody as (r0 & Hr0 & Hbody).
  apply getitem_last_Ok in Hr0. rewrite Hlast in Hr0. injection Hr0 as <-.
  rewrite getitem_last in Hbody. simpl bind in Hbody. fold r in Hbody.
  apply bind_Ok in Hbody as (c2 & Hc2 & Hbody).
  apply bind_Ok in Hbody as (c1 & Hc1 & Hbody).
  apply bind_Ok in Hbody as (keep & Hkeep & Hbody).
  injection Hbody as <- <-. simpl.
  change 2%Z with (Z.of_nat 2) in Hc2. apply getitem_nat_Ok in Hc2.
  change 1%Z with (Z.of_nat 1) in Hc1. apply getitem_nat_Ok in Hc1.
  assert (Hh2 : harmonic dat rs 2 r = c2)
    by (apply nth_lookup_Some; exact Hc2).
  assert (Hh1 : harmonic dat rs 1 r = c1)
    by (apply nth_lookup_Some; exact Hc1).
  assert (Hdom : dominant dat rs r = keep).
  { unfold dominant. rewrite Hh1, Hh2.
    destruct (Np.Qltb (np_abs c1) (np_abs c2)).
    - apply bind_Ok in Hkeep as (c3 & Hc3 & Hkeep). injection Hkeep as <-.
      change 3%Z with (Z.of_nat 3) in Hc3. apply getitem_nat_Ok in Hc3.
      simpl. f_equal. f_equal. apply nth_lookup_Some. exact Hc3.
    - injection Hkeep as <-. reflexivity. }
  rewrite Hh2, Hdom. repeat split.
  destruct keep; [reflexivity|]. symmetry. apply app_nil_r.
Qed.

Lemma bind_terminates {A B} (m : res A) (k : A -> res B) :
  m <> OutOfFuel -> (forall a, k a <> OutOfFuel) -> bind m k <> OutOfFuel.
Proof. destruct m; simpl; intros Hm Hk; [apply Hk | discriminate | congruence]. Qed.

Lemma grow_body_not_OutOfFuel (st : grow_state) : grow_body dat rs st <> OutOfFuel.
Proof.
  unfold grow_body.
  repeat (apply bind_terminates; [try apply getitem_not_OutOfFuel | intros ?]);
    try discriminate.
  destruct (Np.Qltb _ _); [|discriminate].
  apply bind_terminates; [apply getitem_not_OutOfFuel | discriminate].
Qed.

Lemma grow_guard_Ok (st : grow_state) (g : bool) :
  grow_guard IMG st = Ok g ->
  exists r, last (circ_ellipse_radii st) = Some r /\ g = Np.Qltb r (half_len IMG).
Proof.
  unfold grow_guard. intros Hg. apply bind_Ok in Hg as (r & Hr & Hg).
  apply getitem_last_Ok in Hr. injection Hg as <-. eauto.
Qed.

Lemma noise_floor_reached_snoc (tried : list Q) (r : Q) :
  noise_floor_reached dat rs (tried ++ [r]) <->
  Np.Qltb (flux_p80 dat rs r) (3 * background_noise rs)
  && (4 <? S (length (tried ++ [r])))%nat = true.
Proof.
  unfold noise_floor_reached. rewrite andb_true_iff, Qltb_lt, Nat.ltb_lt.
  split.
  - intros (r' & Hlast & Hq & Hn). rewrite last_snoc in Hlast.
    injection Hlast as <-. split; [exact Hq | lia].
  - intros [Hq Hn]. exists r. rewrite last_snoc. repeat split; [exact Hq | lia].
Qed.

Lemma grown_step (st st' : grow_state) (b : bool) :
  grown IMG rs st ->
  ~ noise_floor_reached dat rs (tail (circ_ellipse_radii st)) ->
  grow_guard IMG st = Ok true ->
  grow_body dat rs st = Ok (st', b) ->
  grown IMG rs st'
  /\ (b = true <-> noise_floor_reached dat rs (tail (circ_ellipse_radii st'))).
Proof.
  intros (tried & Hr & Hgeo & Hall & Hkeep & Hno) Hnow Hg Hbody.
  apply grow_guard_Ok in Hg as (r_prev & Hlast & Hlt).
  symmetry in Hlt. apply Qltb_lt in Hlt.
  destruct (grow_body_spec st st' b r_prev Hlast Hbody)
    as (Hr' & Hall' & Hkeep' & Hb).
  set (r := r_prev * (1 + 0.2)) in *.
  rewrite Hr in Hnow. simpl in Hnow.
  assert (Htail : tail (circ_ellipse_radii st') = tried ++ [r])
    by (rewrite Hr', Hr; reflexivity).
  split.
  - exists (tried ++ [r]).
    split; [rewrite Hr', Hr; reflexivity|].
    split; [|split; [|split]].
    + intros i a c Ha Hc. rewrite Hr' in Ha, Hc.
      destruct (Nat.lt_ge_cases (S i) (length (circ_ellipse_radii st)))
        as [Hin|Hout].
      * rewrite lookup_app_l in Ha by lia. rewrite lookup_app_l in Hc by lia.
        eapply Hgeo; eassumption.
      * assert (Hi : S i = length (circ_ellipse_radii st)).
        { apply lookup_lt_Some in Hc. rewrite length_app in Hc. simpl in Hc. lia. }
        rewrite lookup_app_l in Ha by lia.
        rewrite last_lookup in Hlast.
        replace (Init.Nat.pred (length (circ_ellipse_radii st))) with i in Hlast
          by lia.
        rewrite Hlast in Ha. injection Ha as <-.
        rewrite lookup_app_r in Hc by lia.
        replace (S i - length (circ_ellipse_radii st))%nat with 0%nat in Hc
          by lia.
        simpl in Hc. injection Hc as <-. split; [reflexivity | exact Hlt].
    + rewrite Hall', Hall, map_app. reflexivity.
    + rewrite Hkeep', Hkeep, List.filter_app, map_app. simpl.
      destruct (dominant dat rs r); reflexivity.
    + intros k Hk. rewrite length_app in Hk. simpl in Hk.
      rewrite take_app_le by lia.
      destruct (Nat.eq_dec k (length tried)) as [->|Hne].
      * rewrite firstn_all. exact Hnow.
      * apply Hno. lia.
  - rewrite Htail, noise_floor_reached_snoc, Hb, Hr', Hr. simpl length.
    reflexivity.
Qed.

Lemma grow_Ok (fuel : nat) (st : grow_state) :
  grow fuel IMG rs = Ok st -> grow_final IMG rs st.
Proof.
  unfold grow.
  apply (while_loop_rule (grow_guard IMG) (grow_body dat rs)
           (fun st => grown IMG rs st
                      /\ ~ noise_floor_reached dat rs (tail (circ_ellipse_radii st)))
           (grow_final IMG rs)).
  - intros st0 st1 [Hg Hno] Hguard Hbody.
    destruct (grown_step st0 st1 false Hg Hno Hguard Hbody) as [Hg1 Hb].
    split; [exact Hg1|]. intros Hn. apply Hb in Hn. discriminate.
  - intros st0 [Hg Hno] Hguard. split; [exact Hg|]. right.
    apply grow_guard_Ok in Hguard as (r & Hlast & Hlt).
    exists r. split; [exact Hlast|]. symmetry in Hlt. apply Qltb_ge in Hlt.
    exact Hlt.
  - intros st0 st1 [Hg Hno] Hguard Hbody.
    destruct (grown_step st0 st1 true Hg Hno Hguard Hbody) as [Hg1 Hb].
    split; [exact Hg1|]. left. apply Hb. reflexivity.
  - split; [apply grown_init|]. simpl. intros (r & Hlast & _). discriminate.
Qed.

End Growth.

(** ** Termination of the growth loop *)

Section Termination.

Context {num : Numerics}.
Local Open Scope Q_scope.
Import Initialize.
Variables (IMG : image) (rs : results).
Local Abbreviation dat := (subtract_background IMG (background rs)).

Lemma of_nat_S (n : nat) : Np.of_nat (S n) == Np.of_nat n + 1.
Proof.
  unfold Np.of_nat. rewrite Nat2Z.inj_succ. unfold Z.succ.
  rewrite inject_Z_plus. reflexivity.
Qed.

Lemma of_nat_nonneg (n : nat) : 0 <= Np.of_nat n.
Proof.
  unfold Np.of_nat. change 0 with (inject_Z 0). rewrite <- Zle_Qle. lia.
Qed.

Lemma of_nat_le (n m : nat) : (n <= m)%nat -> Np.of_nat n <= Np.of_nat m.
Proof. intros Hnm. unfold Np.of_nat. rewrite <- Zle_Qle. lia. Qed.

(** From a positive radius [r], [fuel] iterations suffice as soon as
    [r (1 + fuel/5)] is beyond the bound. *)
Lemma grow_loop_terminates (fuel : nat) :
  forall (st : grow_state) (r : Q),
    last (circ_ellipse_radii st) = Some r ->
    0 < r ->
    half_len IMG <= r * (1 + Np.of_nat fuel * 0.2) ->
    while_loop fuel (grow_guard IMG) (grow_body dat rs) st <> OutOfFuel.
Proof.
  induction fuel as [|fuel IH]; intros st r Hlast Hr Hbound.
  - simpl. unfold grow_guard.
    apply getitem_last_Ok with (k := PyList) in Hlast as Hget.
    rewrite Hget. simpl.
    destruct (Np.Qltb r (half_len IMG)) eqn:Hlt; [|discriminate].
    apply Qltb_lt in Hlt. exfalso.
    change (Np.of_nat 0) with (inject_Z 0) in Hbound.
    change (inject_Z 0) with 0 in Hbound. lra.
  - simpl. unfold grow_guard at 1.
    apply getitem_last_Ok with (k := PyList) in Hlast as Hget.
    rewrite Hget. simpl.
    destruct (Np.Qltb r (half_len IMG)) eqn:Hlt; [|discriminate].
    destruct (grow_body dat rs st) as [[st' b]| |] eqn:Hbody; simpl.
    + destruct b; [discriminate|].
      destruct (grow_body_spec IMG rs st st' false r Hlast Hbody) as (Hr' & _).
      apply (IH st' (r * (1 + 0.2))).
      * rewrite Hr'. apply last_snoc.
      * lra.
      * rewrite of_nat_S in Hbound. pose proof (of_nat_nonneg fuel).
        assert (0 <= r * Np.of_nat fuel) by (apply Qmult_le_0_compat; lra).
        lra.
    + discriminate.
    + exfalso. eapply grow_body_not_OutOfFuel. exact Hbody.
Qed.

Lemma growth_bound_enough :
  0 < psf_fwhm rs ->
  half_len IMG
  <= psf_fwhm rs / 2 * (1 + Np.of_nat (growth_bound IMG rs) * 0.2).
Proof.
  intros Hpsf. unfold growth_bound, half_len.
  set (L := Np.of_nat (length IMG)).
  set (q := 5 * L / psf_fwhm rs).
  assert (HL : 0 <= L) by apply of_nat_nonneg.
  assert (Hq : q * psf_fwhm rs == 5 * L).
  { unfold q. field. lra. }
  assert (Hq0 : 0 <= q).
  { unfold q. apply Qle_shift_div_l; [exact Hpsf|]. lra. }
  assert (Hc : q <= Np.of_nat (Z.to_nat (Qceiling q))).
  { unfold Np.of_nat. rewrite Z2Nat.id.
    - apply Qle_ceiling.
    - change 0%Z with (Qceiling 0). apply Qceiling_resp_le. exact Hq0. }
  set (c := Np.of_nat (Z.to_nat (Qceiling q))) in *.
  assert (Hm : q * psf_fwhm rs <= c * psf_fwhm rs).
  { apply Qmult_le_compat_r; lra. }
  assert (E1 : L / 2 == L * (1 # 2)) by reflexivity.
  assert (E2 : psf_fwhm rs / 2 == psf_fwhm rs * (1 # 2)) by reflexivity.
  rewrite E1, E2. lra.
Qed.

Lemma grow_terminates (fuel : nat) :
  0 < psf_fwhm rs ->
  (growth_bound IMG rs <= fuel)%nat ->
  grow fuel IMG rs <> OutOfFuel.
Proof.
  intros Hpsf Hfuel. unfold grow.
  apply (grow_loop_terminates fuel (grow_init rs) (psf_fwhm rs / 2)).
  - reflexivity.
  - apply Qlt_shift_div_l; lra.
  - pose proof growth_bound_enough Hpsf as Hb.
    pose proof (of_nat_le _ _ Hfuel) as Hle.
    assert (Hhalf : 0 < psf_fwhm rs / 2) by (apply Qlt_shift_div_l; lra).
    assert (psf_fwhm rs / 2 * Np.of_nat (growth_bound IMG rs)
            <= psf_fwhm rs / 2 * Np.of_nat fuel).
    { rewrite !(Qmult_comm (psf_fwhm rs / 2)).
      apply Qmult_le_compat_r; lra. }
    lra.
Qed.

Lemma grown_positive (st : grow_state) :
  0 < psf_fwhm rs -> grown IMG rs st ->
  forall i a, circ_ellipse_radii st !! i = Some a -> 0 < a.
Proof.
  intros Hpsf (tried & Hr & Hgeo & _) i.
  induction i as [|i IH]; intros a Ha.
  - rewrite Hr in Ha. simpl in Ha. injection Ha as <-.
    apply Qlt_shift_div_l; lra.
  - destruct (circ_ellipse_radii st !! i) as [a'|] eqn:Ha'.
    + destruct (Hgeo i a' a Ha' Ha) as [-> _]. specialize (IH a' eq_refl). lra.
    + apply lookup_ge_None in Ha'. apply lookup_lt_Some in Ha. lia.
Qed.

End Termination.

(** ** Lists and numbers *)

Section Numbers.
Local Open Scope Q_scope.









(** Rounding to an integer. *)







(** Rounding to a double. *)










End Numbers.

Section Lists.
Local Open Scope Q_scope.

Lemma res_mapM_Ok {A B} (f : A -> res B) (l : list A) (ys : list B) :
  mapM f l = Ok ys <-> Forall2 (fun a b => f a = Ok b) l ys.
Proof.
  revert ys. induction l as [|a l IH]; intros ys; simpl.
  - split.
    + intros Hys. injection Hys as <-. constructor.
    + intros Hys. inversion Hys. reflexivity.
  - split.
    + intros Hys. apply bind_Ok in Hys as (b & Hb & Hys).
      apply bind_Ok in Hys as (bs & Hbs & Hys). injection Hys as <-.
      constructor; [exact Hb | apply IH; exact Hbs].
    + intros Hys. inversion Hys as [|a' b l' bs Hb Hbs]; subst.
      rewrite Hb. simpl. apply IH in Hbs. rewrite Hbs. reflexivity.
Qed.

Lemma res_mapM_ext {A B} (f g : A -> res B) (l : list A) :
  (forall a, f a = g a) -> mapM f l = mapM g l.
Proof.
  intros Hfg. induction l as [|a l IH]; simpl; [reflexivity|].
  rewrite Hfg, IH. reflexivity.
Qed.

Lemma argmin_from_spec (l pre : list Q) (bi n : nat) (b : Q) :
  n = length pre ->
  pre !! bi = Some b ->
  (forall i w, pre !! i = Some w -> b <= w /\ ((i < bi)%nat -> b < w)) ->
  exists v,
    (pre ++ l) !! Np.argmin_from bi b n l = Some v
    /\ forall i w, (pre ++ l) !! i = Some w ->
                   v <= w /\ ((i < Np.argmin_from bi b n l)%nat -> v < w).
Proof.
  revert pre bi n b.
  induction l as [|a l IH]; intros pre bi n b Hn Hb Hmin; simpl.
  - rewrite app_nil_r. exists b. split; [exact Hb | exact Hmin].
  - assert (Hbi : (bi < length pre)%nat) by (eapply lookup_lt_Some; exact Hb).
    assert (Hlen : S n = length (pre ++ [a]))
      by (rewrite length_app; simpl; lia).
    assert (Hsnoc : forall i w,
               (pre ++ [a]) !! i = Some w ->
               ((i < n)%nat /\ pre !! i = Some w) \/ (i = n /\ w = a)).
    { intros i w Hw. destruct (Nat.lt_ge_cases i (length pre)) as [Hi|Hi].
      - rewrite lookup_app_l in Hw by lia. left. split; [lia | exact Hw].
      - rewrite lookup_app_r in Hw by lia.
        destruct (i - length pre)%nat as [|m] eqn:Hm; simpl in Hw;
          [|destruct m; discriminate].
        injection Hw as <-. right. split; [lia | reflexivity]. }
    replace (pre ++ a :: l) with ((pre ++ [a]) ++ l)
      by (rewrite <- app_assoc; reflexivity).
    destruct (Np.Qltb a b) eqn:Hab.
    + apply Qltb_lt in Hab. apply IH; [exact Hlen | |].
      * rewrite lookup_app_r by lia. subst n. rewrite Nat.sub_diag. reflexivity.
      * intros i w Hw. destruct (Hsnoc i w Hw) as [[Hi Hw']|[-> ->]].
        -- destruct (Hmin i w Hw') as [Hle _]. split; [lra | intros _; lra].
        -- split; [lra | lia].
    + apply Qltb_ge in Hab. apply IH; [exact Hlen | |].
      * rewrite lookup_app_l by lia. exact Hb.
      * intros i w Hw. destruct (Hsnoc i w Hw) as [[Hi Hw']|[-> ->]].
        -- apply Hmin. exact Hw'.
        -- split; [exact Hab | lia].
Qed.

(** [np.argmin] answers the first index of a least element. *)
Lemma argmin_spec (l : list Q) (k : nat) :
  Np.argmin l = Ok k ->
  exists v, l !! k = Some v
            /\ forall i w, l !! i = Some w -> v <= w /\ ((i < k)%nat -> v < w).
Proof.
  destruct l as [|a l]; simpl; [discriminate|]. intros Hk. injection Hk as <-.
  apply (argmin_from_spec l [a] 0 1 a).
  - reflexivity.
  - reflexivity.
  - intros [|i] w Hw; simpl in Hw; [|destruct i; discriminate].
    injection Hw as <-. split; [lra | lia].
Qed.

End Lists.

(** ** The circular fit as a whole *)

Section CircFit.

Context {num : Numerics}.
Local Open Scope Q_scope.
Import Initialize.

Lemma CircFit_Ok (fuel : nat) (clock : Q) (IMG : image) (pixscale : Q)
    (name : string) (rs : results) (kwargs : gmap string pyval)
    (out : CircFit_result) (ev : list event) :
  Isophote_Initialize_CircFit fuel clock IMG pixscale name rs kwargs
  = Ok (out, ev) ->
  let dat := subtract_background IMG (background rs) in
  exists st r_last ellip evs pa_err ellip_err R,
    grow fuel IMG rs = Ok st
    /\ last (circ_ellipse_radii st) = Some r_last
    /\ global_ellip name (circ_ellipse_radii st) dat (global_phase st) rs
       = Ok (ellip, evs)
    /\ error_bars (circ_ellipse_radii st) dat ellip rs = Ok (pa_err, ellip_err)
    /\ index (circ_ellipse_radii st) (-2) = Some R
    /\ out = {| init_ellip := ellip; init_ellip_err := ellip_err;
                init_pa := global_phase st; init_pa_err := pa_err;
                init_R := R |}
    /\ ev = [Info_init_scale name r_last;
             Info_counts name (length (circ_ellipse_radii st))
               (length (allphase st))]
            ++ evs ++ plot_events name kwargs.
Proof.
  intros Hrun dat. unfold Isophote_Initialize_CircFit in Hrun. fold dat in Hrun.
  apply bind_Ok in Hrun as (st & Hst & Hrun).
  apply bind_Ok in Hrun as (r_last & Hlast & Hrun).
  apply bind_Ok in Hrun as ([ellip evs] & Hell & Hrun).
  apply bind_Ok in Hrun as ([pa_err ellip_err] & Herr & Hrun).
  apply bind_Ok in Hrun as (R & HR & Hrun).
  injection Hrun as <- <-.
  apply getitem_last_Ok in Hlast.
  exists st, r_last, ellip, evs, pa_err, ellip_err, R.
  repeat split; try assumption.
  unfold getitem in HR. destruct (index (circ_ellipse_radii st) (-2)); congruence.
Qed.

End CircFit.

(** ** The ellipticity and the error bars *)

Section Estimates.

Context {num : Numerics}.
Local Open Scope Q_scope.
Import Initialize.

Lemma test_f2_entry_sum_loss (radii : list Q) (dat : image) (phase : Q)
    (rs : results) (R e : Q) :
  index radii (-2) = Some R ->
  test_f2_entry radii dat phase rs e = sum_loss dat R phase rs e.
Proof.
  intros HR. unfold test_f2_entry, sum_loss. f_equal. apply res_mapM_ext.
  intros m. unfold getitem. rewrite HR. reflexivity.
Qed.

Lemma sum_loss_mean_loss (dat : image) (R phase : Q) (rs : results) (e v : Q) :
  sum_loss dat R phase rs e = Ok v -> mean_loss dat R phase rs e = Ok (v / 5).
Proof.
  unfold sum_loss, mean_loss. intros Hs.
  apply bind_Ok in Hs as (losses & Hl & Hs). injection Hs as <-.
  rewrite Hl. reflexivity.
Qed.

Lemma global_ellip_Ok (name : string) (radii : list Q) (dat : image)
    (phase : Q) (rs : results) (R ellip : Q) (evs : list event) :
  index radii (-2) = Some R ->
  global_ellip name radii dat phase rs = Ok (ellip, evs) ->
  exists test_f2 k grid res,
    Forall2 (fun e f2 => sum_loss dat R phase rs e = Ok f2)
      (Np.linspace 0.05 0.95 15) test_f2
    /\ Np.argmin test_f2 = Ok k
    /\ Np.linspace 0.05 0.95 15 !! k = Some grid
    /\ minimize_NelderMead
         (fun t => sum_loss dat R phase rs (_x_to_eps t))
         (_inv_x_to_eps grid)
         [[_inv_x_to_eps grid - 1 / 15]; [_inv_x_to_eps grid + 1 / 15]]
       = Ok res
    /\ ellip = (if success res then _x_to_eps (res_x res) else grid)
    /\ evs = (if success res
              then [Debug_optimal name (_x_to_eps (res_x res)) grid]
              else []).
Proof.
  intros HR Hrun. unfold global_ellip in Hrun.
  apply bind_Ok in Hrun as (test_f2 & Hf2 & Hrun).
  apply bind_Ok in Hrun as (k & Hk & Hrun).
  apply bind_Ok in Hrun as (grid & Hgrid & Hrun).
  apply bind_Ok in Hrun as (R' & HR' & Hrun).
  apply bind_Ok in Hrun as (res & Hres & Hrun).
  unfold getitem in HR'. rewrite HR in HR'. injection HR' as <-.
  apply getitem_nat_Ok in Hgrid.
  exists test_f2, k, grid, res.
  split.
  { apply res_mapM_Ok.
    rewrite <- Hf2. apply res_mapM_ext. intros e. symmetry.
    apply test_f2_entry_sum_loss. exact HR. }
  split; [exact Hk|]. split; [exact Hgrid|]. split; [exact Hres|].
  destruct (success res); injection Hrun as <- <-; split; reflexivity.
Qed.

Lemma error_bars_Ok (radii : list Q) (dat : image) (ellip : Q) (rs : results)
    (R pa_err ellip_err : Q) :
  index radii (-2) = Some R ->
  error_bars radii dat ellip rs = Ok (pa_err, ellip_err) ->
  let RR := Np.linspace (R - psf_fwhm rs) (R + psf_fwhm rs) 10 in
  exists errallphase res_multi,
    Forall2 (fun rr z =>
               clipped_fft (fst (_iso_extract_more dat rr 0 0 (center_ rs))) !! 2%nat
               = Some z) RR errallphase
    /\ let sample_pas :=
         map (fun z =>
                Np.pymod
                  (- np_angle (Np.cdiv (Np.cmul Np.j z) (np_mean errallphase)) / 2)
                  Np.pi) errallphase in
       pa_err = iqr sample_pas 16 84 / 2
       /\ Forall2 (fun rrp rm =>
                     minimize_NelderMead
                       (fun t => _CircfitEllip_loss (_x_to_eps t) dat (fst rrp)
                                   (snd rrp) (center_ rs) (background_noise rs))
                       (_inv_x_to_eps ellip)
                       [[_inv_x_to_eps ellip - 1 / 15];
                        [_inv_x_to_eps ellip + 1 / 15]]
                     = Ok rm) (zip RR sample_pas) res_multi
       /\ ellip_err
          = iqr (map (fun rm => _x_to_eps (res_x rm)) res_multi) 16 84 / 2.
Proof.
  intros HR Hrun RR. unfold error_bars in Hrun.
  apply bind_Ok in Hrun as (R' & HR' & Hrun).
  unfold getitem in HR'. rewrite HR in HR'. injection HR' as <-.
  fold RR in Hrun.
  apply bind_Ok in Hrun as (errallphase & Hph & Hrun).
  apply bind_Ok in Hrun as (res_multi & Hmulti & Hrun).
  injection Hrun as <- <-.
  exists errallphase, res_multi. split.
  { apply res_mapM_Ok in Hph. eapply Forall2_impl; [exact Hph|].
    intros rr z Hz. simpl in Hz. change 2%Z with (Z.of_nat 2) in Hz.
    apply getitem_nat_Ok in Hz. exact Hz. }
  split; [reflexivity|]. split; [|reflexivity].
  apply res_mapM_Ok in Hmulti. exact Hmulti.
Qed.

End Estimates.

(** ** Evenly spaced points *)

Section Linspace.
Local Open Scope Q_scope.

Lemma linspace_length (a b : Q) (n : nat) : length (Np.linspace a b n) = n.
Proof.
  unfold Np.linspace. destruct (1 <? n)%nat.
  - rewrite length_insert, length_map, length_seq. reflexivity.
  - rewrite length_map, length_seq. reflexivity.
Qed.

Lemma linspace_last (a b : Q) (n : nat) :
  (1 < n)%nat -> Np.linspace a b n !! (n - 1)%nat = Some b.
Proof.
  intros Hn. unfold Np.linspace.
  destruct (Nat.ltb_spec 1 n) as [_|Hle]; [|lia].
  apply list_lookup_insert_eq. rewrite length_map, length_seq. lia.
Qed.

(** The points are evenly spaced from [a] to [b]. *)
Lemma linspace_lookup (a b : Q) (n i : nat) (v : Q) :
  (1 < n)%nat ->
  Np.linspace a b n !! i = Some v ->
  v == a + Np.of_nat i * ((b - a) / Np.of_nat (n - 1)).
Proof.
  intros Hn Hv.
  assert (Hi : (i < n)%nat).
  { apply lookup_lt_Some in Hv. rewrite linspace_length in Hv. exact Hv. }
  assert (Hpos : 0 < Np.of_nat (n - 1)).
  { unfold Np.of_nat. change 0 with (inject_Z 0). rewrite <- Zlt_Qlt. lia. }
  destruct (Nat.eq_dec i (n - 1)%nat) as [->|Hne].
  - rewrite linspace_last in Hv by exact Hn. injection Hv as <-.
    field. lra.
  - unfold Np.linspace in Hv.
    destruct (Nat.ltb_spec 1 n) as [_|Hle]; [|lia].
    rewrite list_lookup_insert_ne in Hv by lia.
    rewrite list_lookup_fmap in Hv.
    rewrite lookup_seq_lt in Hv by lia. simpl in Hv. injection Hv as <-.
    ring.
Qed.

End Linspace.

(** ** The keyword arguments *)

Section Keywords.

Context {num : Numerics}.
Local Open Scope Q_scope.
Import Initialize.

Lemma global_ellip_returned_name (name name' : string) (radii : list Q)
    (dat : image) (phase : Q) (rs : results) :
  returned (global_ellip name radii dat phase rs)
  = returned (global_ellip name' radii dat phase rs).
Proof.
  unfold returned, global_ellip.
  destruct (mapM _ _) as [test_f2| |]; cbn [bind]; try reflexivity.
  destruct (Np.argmin test_f2) as [k| |]; cbn [bind]; try reflexivity.
  destruct (getitem NdArray _ _) as [ellip| |]; cbn [bind]; try reflexivity.
  destruct (getitem PyList _ _) as [R| |]; cbn [bind]; try reflexivity.
  destruct (minimize_NelderMead _ _ _) as [res| |]; cbn [bind]; try reflexivity.
  destruct (success res); reflexivity.
Qed.

(** The dictionary returned by the circular fit is a function of the image
    and of [results]: the clock, the pixel scale, the name and the keyword
    arguments do not reach it. *)
Lemma CircFit_returned_kwargs (fuel : nat) (clock clock' : Q) (IMG : image)
    (pixscale pixscale' : Q) (name name' : string) (rs : results)
    (kwargs kwargs' : gmap string pyval) :
  returned (Isophote_Initialize_CircFit fuel clock IMG pixscale name rs kwargs)
  = returned
      (Isophote_Initialize_CircFit fuel clock' IMG pixscale' name' rs kwargs').
Proof.
  unfold Isophote_Initialize_CircFit.
  destruct (grow fuel IMG rs) as [st| |]; cbn [bind returned]; try reflexivity.
  destruct (getitem PyList _ (-1)) as [r| |]; cbn [bind]; try reflexivity.
  pose proof (global_ellip_returned_name name name' (circ_ellipse_radii st)
                (subtract_background IMG (background rs)) (global_phase st) rs)
    as Hname.
  unfold returned in Hname.
  destruct (global_ellip name _ _ _ _) as [[e evs]| |];
    destruct (global_ellip name' _ _ _ _) as [[e' evs']| |];
    cbn [bind fst] in *; try discriminate; try reflexivity;
    [|injection Hname as <-; reflexivity].
  injection Hname as <-.
  destruct (error_bars _ _ _ _) as [errs| |]; cbn [bind]; try reflexivity.
  destruct (getitem NdArray _ (-2)) as [R| |]; cbn [bind]; reflexivity.
Qed.

Lemma GridSearch_returned_kwargs (fuel : nat) (IMG : image)
    (pixscale pixscale' : Q) (name name' : string) (rs : results)
    (kwargs kwargs' : gmap string pyval) :
  returned (Isophote_Initialize_GridSearch fuel IMG pixscale name rs kwargs)
  = returned
      (Isophote_Initialize_GridSearch fuel IMG pixscale' name' rs kwargs').
Proof.
  unfold returned, Isophote_Initialize_GridSearch.
  destruct (gs_grow fuel IMG rs) as [radii| |]; cbn [bind]; try reflexivity.
  destruct (getitem PyList radii (-1)) as [r| |]; cbn [bind]; try reflexivity.
  destruct (foldM _ _ _) as [lb| |]; cbn [bind]; try reflexivity.
  destruct (getitem PyList (best_params (snd lb)) 0) as [e| |] eqn:He;
    destruct (getitem PyList (best_params (snd lb)) 1) as [p| |] eqn:Hp;
    destruct (doplot name kwargs); destruct (doplot name' kwargs');
    cbn [bind]; rewrite ?He, ?Hp; cbn [bind]; try reflexivity;
    try (exfalso; eapply getitem_not_OutOfFuel; eassumption).
Qed.

Lemma CircFit_events_kwargs (fuel : nat) (clock : Q) (IMG : image)
    (pixscale : Q) (name : string) (rs : results)
    (kwargs : gmap string pyval) (out : CircFit_result) (ev : list event) :
  Isophote_Initialize_CircFit fuel clock IMG pixscale name rs kwargs
  = Ok (out, ev) ->
  exists ev0,
    Isophote_Initialize_CircFit fuel clock IMG pixscale name rs ∅ = Ok (out, ev0)
    /\ ev = ev0 ++ plot_events name kwargs.
Proof.
  intros Hrun. unfold Isophote_Initialize_CircFit in *.
  apply bind_Ok in Hrun as (st & Hst & Hrun). rewrite Hst. cbn [bind].
  apply bind_Ok in Hrun as (r_last & Hlast & Hrun). rewrite Hlast. cbn [bind].
  apply bind_Ok in Hrun as (ee & Hell & Hrun). rewrite Hell. cbn [bind].
  apply bind_Ok in Hrun as (errs & Herr & Hrun). rewrite Herr. cbn [bind].
  apply bind_Ok in Hrun as (R & HR & Hrun). rewrite HR. cbn [bind].
  injection Hrun as <- <-. eexists. split; [reflexivity|].
  unfold plot_events at 2. unfold doplot. rewrite lookup_empty, andb_false_r.
  rewrite !app_nil_r. rewrite <- !app_assoc. reflexivity.
Qed.

End Keywords.

(** * The claims about the initializer *)

Section Claims.

Context {num : Numerics}.
Local Open Scope Q_scope.
Import Initialize.

Lemma grow_not_started (fuel : nat) (IMG : image) (rs : results) :
  half_len IMG <= psf_fwhm rs / 2 -> grow fuel IMG rs = Ok (grow_init rs).
Proof.
  intros Hge. apply Qltb_ge in Hge. unfold grow.
  destruct fuel; simpl; unfold grow_guard; simpl;
    change (getitem PyList [psf_fwhm rs / 2] (-1)) with (Ok (psf_fwhm rs / 2));
    simpl; rewrite Hge; reflexivity.
Qed.

Lemma grow_length (IMG : image) (rs : results) (fuel : nat) :
  forall st st',
    while_loop fuel (grow_guard IMG)
      (grow_body (subtract_background IMG (background rs)) rs) st = Ok st' ->
    (length (circ_ellipse_radii st') <= length (circ_ellipse_radii st) + fuel)%nat.
Proof.
  induction fuel as [|fuel IH]; intros st st' Hrun; simpl in Hrun;
    apply bind_Ok in Hrun as (g & Hg & Hrun).
  - destruct g; [discriminate|]. injection Hrun as <-. lia.
  - destruct g; [|injection Hrun as <-; lia].
    apply bind_Ok in Hrun as ([st1 b] & Hb & Hrun). simpl in Hrun.
    apply grow_guard_Ok in Hg as (r & Hlast & _).
    destruct (grow_body_spec IMG rs st st1 b r Hlast Hb) as (Hr1 & _).
    assert (Hlen : length (circ_ellipse_radii st1)
                   = S (length (circ_ellipse_radii st)))
      by (rewrite Hr1, length_app; simpl; lia).
    destruct b.
    + injection Hrun as <-. lia.
    + apply IH in Hrun. lia.
Qed.

Lemma slice_from_neg {A} (l : list A) (n : nat) :
  (0 < n)%nat -> slice_from l (- Z.of_nat n) = drop (length l - n) l.
Proof.
  intros Hn. unfold slice_from.
  destruct (Z.leb_spec 0 (- Z.of_nat n)); [lia|].
  rewrite Z.opp_involutive, Nat2Z.id. reflexivity.
Qed.

Lemma slice_from_nat {A} (l : list A) (n : nat) :
  slice_from l (Z.of_nat n) = drop n l.
Proof.
  unfold slice_from. destruct (Z.leb_spec 0 (Z.of_nat n)); [|lia].
  rewrite Nat2Z.id. reflexivity.
Qed.



(** C1.  The growth loop of [Isophote_Initialize_CircFit] is left exactly
    when the 80th percentile of the background-subtracted flux sampled on
    the current circle is below 3 times the background noise and at least 4
    radii have been tried (the radii tried are those sampled, all but the
    starting one, so this is the code's [len(circ_ellipse_radii) > 4]), and
    otherwise when the radius has reached half the image, [len(IMG)/2]: in
    the state the loop ends in one of the two holds, at no earlier radius
    the noise floor was reached, and every radius from which the loop grew
    was below [len(IMG)/2]. *)
Theorem growth_stops_at_noise_floor_or_half_image (fuel : nat) (IMG : image)
    (rs : results) (st : grow_state) :
  grow fuel IMG rs = Ok st ->
  let dat := subtract_background IMG (background rs) in
  exists tried,
    circ_ellipse_radii st = psf_fwhm rs / 2 :: tried
    /\ (forall k a, (k < length tried)%nat ->
                    circ_ellipse_radii st !! k = Some a -> a < half_len IMG)
    /\ (forall k, (0 < k < length tried)%nat ->
                  ~ noise_floor_reached dat rs (take k tried))
    /\ (noise_floor_reached dat rs tried
        \/ exists r, last (circ_ellipse_radii st) = Some r /\ half_len IMG <= r).
Proof.
  intros Hrun dat. apply grow_Ok in Hrun as [Hg Hend].
  destruct Hg as (tried & Hr & Hgeo & _ & _ & Hno).
  exists tried. split; [exact Hr|]. split; [|split; [exact Hno|]].
  - intros k a Hk Ha.
    destruct (circ_ellipse_radii st !! S k) as [b|] eqn:Hb.
    + exact (proj2 (Hgeo k a b Ha Hb)).
    + apply lookup_ge_None in Hb. rewrite Hr in Hb. simpl in Hb. lia.
  - rewrite Hr. rewrite Hr in Hend. exact Hend.
Qed.

(** C5.  With a positive PSF width the radii start at half of it, each is
    1.2 times the one before and strictly larger, and the loop ends within
    [growth_bound] iterations whatever the image holds, an image of pure
    noise on which the noise floor is never reached included: the bound
    depends on the PSF width and on [len(IMG)] only, since the loop is left
    once the radius has reached half the image, [len(IMG)/2].  More
    iterations allowed change nothing, and the list never holds more than
    [growth_bound + 1] radii. *)
Theorem radius_growth_increases_and_terminates (IMG : image) (rs : results) :
  0 < psf_fwhm rs ->
  (forall fuel, (growth_bound IMG rs <= fuel)%nat ->
                grow fuel IMG rs <> OutOfFuel
                /\ grow fuel IMG rs = grow (growth_bound IMG rs) IMG rs)
  /\ (forall fuel st,
        grow fuel IMG rs = Ok st ->
        head (circ_ellipse_radii st) = Some (psf_fwhm rs / 2)
        /\ (length (circ_ellipse_radii st) <= S (growth_bound IMG rs))%nat
        /\ forall i a b,
             circ_ellipse_radii st !! i = Some a ->
             circ_ellipse_radii st !! S i = Some b ->
             b = a * (1 + 0.2) /\ a < b).
Proof.
  intros Hpsf.
  assert (Hterm : forall fuel, (growth_bound IMG rs <= fuel)%nat ->
                               grow fuel IMG rs <> OutOfFuel
                               /\ grow fuel IMG rs
                                  = grow (growth_bound IMG rs) IMG rs).
  { intros fuel Hfuel. split.
    - apply grow_terminates; assumption.
    - apply while_loop_fuel_mono; [exact Hfuel|].
      apply grow_terminates; [exact Hpsf | lia]. }
  split; [exact Hterm|].
  intros fuel st Hrun. pose proof (grow_Ok IMG rs fuel st Hrun) as [Hg _].
  pose proof (grown_positive IMG rs st Hpsf Hg) as Hposi.
  destruct Hg as (tried & Hr & Hgeo & _).
  split; [rewrite Hr; reflexivity|]. split.
  - destruct (Nat.le_ge_cases (growth_bound IMG rs) fuel) as [Hle|Hge].
    + destruct (Hterm fuel Hle) as [_ Heq]. rewrite Heq in Hrun.
      apply grow_length in Hrun. simpl in Hrun. lia.
    + apply grow_length in Hrun. simpl in Hrun. lia.
  - intros i a b Ha Hb. destruct (Hgeo i a b Ha Hb) as [-> _].
    split; [reflexivity|]. specialize (Hposi i a Ha). lra.
Qed.


Lemma Qdiv5_le (v w : Q) : v <= w -> v / 5 <= w / 5.
Proof. intros Hvw. unfold Qdiv. apply Qmult_le_compat_r; [exact Hvw | discriminate]. Qed.

Lemma Qdiv5_lt (v w : Q) : v < w -> v / 5 < w / 5.
Proof. intros Hvw. unfold Qdiv. apply Qmult_lt_compat_r; [reflexivity | exact Hvw]. Qed.

(** C3.  The global ellipticity.  15 candidates evenly spaced from 0.05 to
    0.95 are evaluated at [R], the second-to-outermost radius; what is kept
    of a candidate is its 2nd-harmonic loss summed over the five radii
    [0.8 R, 0.9 R, R, 1.1 R, 1.2 R], five times the loss averaged over
    them, so that the candidate chosen, the first of least sum, is the
    first of least average.  Its image in the transformed variable is the
    starting point of the Nelder-Mead minimization of the same loss, with
    the simplex of the two points 1/15 to either side of it.  The
    ellipticity returned is the refined one when the optimizer reports
    success and the grid value when it does not: nothing else is
    compared. *)
Theorem ellipticity_from_grid_then_simplex (fuel : nat) (clock : Q)
    (IMG : image) (pixscale : Q) (name : string) (rs : results)
    (kwargs : gmap string pyval) (out : CircFit_result) (ev : list event) :
  Isophote_Initialize_CircFit fuel clock IMG pixscale name rs kwargs
  = Ok (out, ev) ->
  let dat := subtract_background IMG (background rs) in
  let test_ellip := Np.linspace 0.05 0.95 15 in
  exists st R test_f2 k grid res,
    grow fuel IMG rs = Ok st
    /\ index (circ_ellipse_radii st) (-2) = Some R
    /\ length test_ellip = 15%nat
    /\ (forall i e, test_ellip !! i = Some e ->
                    e == 0.05 + Np.of_nat i * ((0.95 - 0.05) / 14))
    /\ Forall2 Qeq (Np.linspace 0.8 1.2 5) [0.8; 0.9; 1; 1.1; 1.2]
    /\ Forall2 (fun e f2 =>
                  sum_loss dat R (init_pa out) rs e = Ok f2
                  /\ mean_loss dat R (init_pa out) rs e = Ok (f2 / 5))
         test_ellip test_f2
    /\ test_ellip !! k = Some grid
    /\ (exists v, test_f2 !! k = Some v
                  /\ forall i w, test_f2 !! i = Some w ->
                                 v / 5 <= w / 5 /\ ((i < k)%nat -> v / 5 < w / 5))
    /\ minimize_NelderMead
         (fun t => sum_loss dat R (init_pa out) rs (_x_to_eps t))
         (_inv_x_to_eps grid)
         [[_inv_x_to_eps grid - 1 / 15]; [_inv_x_to_eps grid + 1 / 15]]
       = Ok res
    /\ init_ellip out = (if success res then _x_to_eps (res_x res) else grid).
Proof.
  intros Hrun dat test_ellip.
  apply CircFit_Ok in Hrun
    as (st & r_last & ellip & evs & pa_err & ellip_err & R
        & Hst & _ & Hell & _ & HR & -> & _).
  fold dat in Hell. simpl init_pa. simpl init_ellip.
  destruct (global_ellip_Ok name _ dat _ rs R ellip evs HR Hell)
    as (test_f2 & k & grid & res & Hf2 & Hk & Hgrid & Hres & Hellip & _).
  exists st, R, test_f2, k, grid, res.
  split; [exact Hst|]. split; [exact HR|].
  split; [apply linspace_length|].
  split; [intros i e He; apply (linspace_lookup 0.05 0.95 15 i e); [lia | exact He]|].
  split; [repeat constructor|].
  split.
  { eapply Forall2_impl; [exact Hf2|]. intros e f2 He. simpl in He.
    split; [exact He | apply sum_loss_mean_loss; exact He]. }
  split; [exact Hgrid|]. split.
  { destruct (argmin_spec test_f2 k Hk) as (v & Hv & Hmin).
    exists v. split; [exact Hv|]. intros i w Hw.
    destruct (Hmin i w Hw) as [Hle Hlt].
    split; [apply Qdiv5_le; exact Hle | intros Hi; apply Qdiv5_lt, Hlt, Hi]. }
  split; [exact Hres | exact Hellip].
Qed.

(** C4.  The two error bars.  The reference radius [R] is the
    second-to-outermost radius, the one returned as ['init R'].  Ten radii
    evenly spaced from [R - psf fwhm] to [R + psf fwhm] are sampled; the
    position-angle error is half the range between the 16th and the 84th
    percentile of the ten position angles found on them, and the
    ellipticity error is half the same range of the ten ellipticities
    refitted on them. *)
Theorem error_bars_from_ten_radii_around_reference (fuel : nat) (clock : Q)
    (IMG : image) (pixscale : Q) (name : string) (rs : results)
    (kwargs : gmap string pyval) (out : CircFit_result) (ev : list event) :
  Isophote_Initialize_CircFit fuel clock IMG pixscale name rs kwargs
  = Ok (out, ev) ->
  let dat := subtract_background IMG (background rs) in
  exists st R errallphase res_multi,
    grow fuel IMG rs = Ok st
    /\ index (circ_ellipse_radii st) (-2) = Some R
    /\ init_R out = R
    /\ let RR := Np.linspace (R - psf_fwhm rs) (R + psf_fwhm rs) 10 in
       let sample_pas :=
         map (fun z =>
                Np.pymod
                  (- np_angle (Np.cdiv (Np.cmul Np.j z) (np_mean errallphase)) / 2)
                  Np.pi) errallphase in
       length RR = 10%nat
       /\ (forall i rr, RR !! i = Some rr ->
                        rr == R - psf_fwhm rs
                              + Np.of_nat i * (2 * psf_fwhm rs / 9))
       /\ RR !! 9%nat = Some (R + psf_fwhm rs)
       /\ Forall2 (fun rr z =>
                     clipped_fft (fst (_iso_extract_more dat rr 0 0 (center_ rs)))
                       !! 2%nat = Some z) RR errallphase
       /\ init_pa_err out = iqr sample_pas 16 84 / 2
       /\ Forall2 (fun rrp rm =>
                     minimize_NelderMead
                       (fun t => _CircfitEllip_loss (_x_to_eps t) dat (fst rrp)
                                   (snd rrp) (center_ rs) (background_noise rs))
                       (_inv_x_to_eps (init_ellip out))
                       [[_inv_x_to_eps (init_ellip out) - 1 / 15];
                        [_inv_x_to_eps (init_ellip out) + 1 / 15]]
                     = Ok rm) (zip RR sample_pas) res_multi
       /\ length res_multi = 10%nat
       /\ init_ellip_err out
          = iqr (map (fun rm => _x_to_eps (res_x rm)) res_multi) 16 84 / 2.
Proof.
  intros Hrun dat.
  apply CircFit_Ok in Hrun
    as (st & r_last & ellip & evs & pa_err & ellip_err & R
        & Hst & _ & _ & Herr & HR & -> & _).
  fold dat in Herr. cbn [init_R init_pa_err init_ellip init_ellip_err].
  destruct (error_bars_Ok _ dat ellip rs R pa_err ellip_err HR Herr)
    as (errallphase & res_multi & Hph & Hpa & Hmulti & Hee).
  exists st, R, errallphase, res_multi.
  split; [exact Hst|]. split; [exact HR|]. split; [reflexivity|].
  split; [apply linspace_length|]. split.
  { intros i rr Hrr.
    rewrite (linspace_lookup _ _ 10 i rr) by (lia || exact Hrr).
    change (Np.of_nat (10 - 1)) with 9. field. }
  split; [apply (linspace_last _ _ 10); lia|].
  split; [exact Hph|]. split; [exact Hpa|]. split; [exact Hmulti|].
  split; [|exact Hee].
  apply Forall2_length in Hmulti, Hph. rewrite <- Hmulti.
  rewrite length_zip_with, length_map, <- Hph, linspace_length. reflexivity.
Qed.

(** C9.  When half the PSF width is below [len(IMG)/2] the loop runs at
    least once: a list of radii it ends with has at least two elements,
    its second-to-last element exists, and it is the ['init R'] of any
    dictionary returned.  When half the PSF width is not below
    [len(IMG)/2] the loop does not run, the list holds the starting radius
    alone, and the function ends in the [IndexError] of
    [circ_ellipse_radii[-2]] instead of returning. *)
Theorem reference_radius_defined_iff_growth_starts (fuel : nat) (clock : Q)
    (IMG : image) (pixscale : Q) (name : string) (rs : results)
    (kwargs : gmap string pyval) :
  (psf_fwhm rs / 2 < half_len IMG ->
   forall st,
     grow fuel IMG rs = Ok st ->
     (2 <= length (circ_ellipse_radii st))%nat
     /\ exists R,
          getitem PyList (circ_ellipse_radii st) (-2) = Ok R
          /\ forall out ev,
               Isophote_Initialize_CircFit fuel clock IMG pixscale name rs
                 kwargs = Ok (out, ev) ->
               init_R out = R)
  /\ (half_len IMG <= psf_fwhm rs / 2 ->
      Isophote_Initialize_CircFit fuel clock IMG pixscale name rs kwargs
      = Raise (IndexError PyList)).
Proof.
  split.
  - intros Hlt st Hst.
    pose proof (grow_Ok IMG rs fuel st Hst) as [(tried & Hr & _) Hend].
    assert (Hlen : (2 <= length (circ_ellipse_radii st))%nat).
    { rewrite Hr in *. simpl in *. destruct Hend as [(r & _ & _ & Hn)|(r & Hl & Hge)].
      - lia.
      - destruct tried as [|a tried]; [|simpl; lia].
        simpl in Hl. injection Hl as <-. lra. }
    split; [exact Hlen|].
    destruct (lookup_lt_is_Some_2 (circ_ellipse_radii st)
                (length (circ_ellipse_radii st) - 2)) as [R HR]; [lia|].
    assert (Hidx : index (circ_ellipse_radii st) (-2) = Some R).
    { rewrite index_second_last.
      destruct (Nat.leb_spec 2 (length (circ_ellipse_radii st))); [exact HR | lia]. }
    exists R. split; [unfold getitem; rewrite Hidx; reflexivity|].
    intros out ev Hrun.
    apply CircFit_Ok in Hrun
      as (st' & r_last & ellip & evs & pa_err & ellip_err & R'
          & Hst' & _ & _ & _ & HR' & -> & _).
    rewrite Hst in Hst'. injection Hst' as <-. simpl. congruence.
  - intros Hge. unfold Isophote_Initialize_CircFit.
    rewrite grow_not_started by exact Hge. simpl.
    reflexivity.
Qed.

(** C8, as amended.  No argument of a run reaches the configuration values
    of the two initializers: the clip quantile 0.85, the growth factors 1.2
    and 1.3, the grid sizes 15, 10 and 20 and the noise multiple 3 are
    literals of the code.  The dictionary each initializer returns is a
    function of the image and of [results] alone, the same for any two sets
    of keyword arguments (and pixel scales, and names); of the circular fit
    the keyword arguments decide the figure that is saved and nothing
    else. *)
Theorem keyword_arguments_reach_only_the_figure (fuel : nat) (clock : Q)
    (IMG : image) (pixscale pixscale' : Q) (name name' : string)
    (rs : results) (kwargs kwargs' : gmap string pyval) :
  returned (Isophote_Initialize_CircFit fuel clock IMG pixscale name rs kwargs)
  = returned
      (Isophote_Initialize_CircFit fuel clock IMG pixscale' name' rs kwargs')
  /\ returned (Isophote_Initialize_GridSearch fuel IMG pixscale name rs kwargs)
     = returned
         (Isophote_Initialize_GridSearch fuel IMG pixscale' name' rs kwargs')
  /\ (forall out ev,
        Isophote_Initialize_CircFit fuel clock IMG pixscale name rs kwargs
        = Ok (out, ev) ->
        exists ev0,
          Isophote_Initialize_CircFit fuel clock IMG pixscale name rs ∅
          = Ok (out, ev0)
          /\ ev = ev0 ++ plot_events name kwargs).
Proof.
  split; [apply CircFit_returned_kwargs|].
  split; [apply GridSearch_returned_kwargs|].
  intros out ev. apply CircFit_events_kwargs.
Qed.

End Claims.

(** ** The pipeline *)

Set Warnings "-clear-no-such-hyp".

Section PipelineProofs.

Context {V : Type} {stages : Pipeline.Stages V}.
Import Pipeline.

Lemma calls_app (l1 l2 : list (log_event V)) :
  calls (l1 ++ l2) = calls l1 ++ calls l2.
Proof. unfold calls. apply omap_app. Qed.

Lemma run_steps_Ok (self : Isophote_Pipeline) (dat : image) (pixscale : Q)
    (name : string) (kwargs : gmap string pyval) (steps : list string) :
  forall (results results' : gmap string V) (log log' : list (log_event V)),
    run_steps self dat pixscale name kwargs steps results log
    = (Ok results', log') ->
    exists new,
      log' = log ++ new
      /\ map fst (calls new) = steps
      /\ (forall i step seen,
            calls new !! i = Some (step, seen) ->
            dom seen = dom results ∪ list_to_set (take i steps))
      /\ dom results' = dom results ∪ list_to_set steps.
Proof.
  induction steps as [|step rest IH]; intros results results' log log' Hrun.
  - simpl in Hrun. injection Hrun as <- <-. exists [].
    rewrite app_nil_r. repeat split; try reflexivity.
    + intros i step seen Hc. destruct i; discriminate.
    + simpl. set_solver.
  - simpl in Hrun. unfold io_bind, io_log, io_lift in Hrun.
    destruct (pipeline_functions self !! step) as [f|]; [|discriminate].
    destruct (f dat pixscale name results kwargs) as [v| |]; try discriminate.
    apply IH in Hrun as (new & -> & Hsteps & Hseen & Hdom).
    exists ([Info_step name step; Called step results] ++ new).
    split; [rewrite <- !app_assoc; reflexivity|].
    split; [simpl; rewrite Hsteps; reflexivity|].
    split.
    + intros [|i] step' seen Hc; simpl in Hc.
      * injection Hc as <- <-. simpl. set_solver.
      * apply Hseen in Hc. rewrite Hc, dom_insert_L. simpl. set_solver.
    + rewrite Hdom, dom_insert_L. simpl. set_solver.
Qed.

Lemma Process_Image_Ok_0 (self : Isophote_Pipeline) (IMG : string)
    (pixscale : Q) (saveto name : option string)
    (kwargs_internal kwargs : gmap string pyval)
    (log log' : list (log_event V)) :
  Process_Image self IMG pixscale saveto name kwargs_internal kwargs log
  = (Ok 0%Z, log') ->
  exists dat results log1 nm,
    Read_Image IMG (kwargs_internal ∪ kwargs) = Ok (Some dat)
    /\ run_steps self dat pixscale nm (kwargs_internal ∪ kwargs)
         (pipeline_steps self) ∅ log = (Ok results, log1)
    /\ log' = log1 ++ [Info_saving nm; Info_complete nm].
Proof.
  unfold Process_Image, io_bind, io_lift, io_log, io_ret. intros Hrun.
  destruct (Read_Image IMG (kwargs_internal ∪ kwargs)) as [[dat|]| |];
    try discriminate.
  destruct (center_block dat) as [block| |]; try discriminate.
  destruct (all_zero block); [discriminate|].
  destruct (run_steps _ _ _ _ _ _ _ _) as [[results| |] log1] eqn:Hsteps;
    try discriminate.
  destruct (WriteProf _ _ _ _ _); try discriminate.
  injection Hrun as <-. exists dat, results, log1. eexists.
  split; [reflexivity|]. split; [exact Hsteps|].
  rewrite <- app_assoc. reflexivity.
Qed.

(** Sequential [starmap]: the first call that raises ends the batch. *)
Lemma io_mapM_abort {A B} (f : A -> io V B) (done : list A) (a : A)
    (rest : list A) (bs : list B) (e : exn) (log log1 log2 : list (log_event V)) :
  io_mapM f done log = (Ok bs, log1) ->
  f a log1 = (Raise e, log2) ->
  io_mapM f (done ++ a :: rest) log = (Raise e, log2).
Proof.
  revert bs log. induction done as [|d done IH]; intros bs log Hdone Ha.
  - simpl in Hdone. injection Hdone as <- <-. simpl. unfold io_bind.
    rewrite Ha. reflexivity.
  - simpl in *. unfold io_bind in *.
    destruct (f d log) as [[b| |] log0]; try discriminate.
    destruct (io_mapM f done log0) as [[bs'| |] log0'] eqn:Hd; try discriminate.
    unfold io_ret in Hdone. injection Hdone as <- <-.
    rewrite (IH bs' log0 Hd Ha). reflexivity.
Qed.

(** With one process, [Process_List] ends with the exception of the first
    image whose processing raises; the images after it are not touched. *)
Lemma Process_List_raises (self : Isophote_Pipeline) (IMG : list string)
    (pixscale : Q + list Q) (n_procs : Z) (saveto name : option (list string))
    (kwargs : gmap string pyval) (done : list job) (a : job) (rest : list job)
    (codes : list Z) (e : exn) (log log1 log2 : list (log_event V)) :
  (n_procs <= 1)%Z ->
  imagedata IMG pixscale saveto name kwargs = Ok (done ++ a :: rest) ->
  io_mapM (Process_job self) done log = (Ok codes, log1) ->
  Process_job self a log1 = (Raise e, log2) ->
  Process_List self IMG pixscale n_procs saveto name kwargs log
  = (Raise e, log2).
Proof.
  intros Hn Hjobs Hdone Ha. unfold Process_List, io_bind, io_lift.
  rewrite Hjobs. destruct (Z.ltb_spec 1 n_procs) as [Hlt|_]; [lia|].
  rewrite (io_mapM_abort _ done a rest codes e log log1 log2 Hdone Ha).
  reflexivity.
Qed.

(** Whatever its outcome, the loop over the steps calls the stages along
    the list: the calls made are the first [k] steps, all of them when the
    loop returns, and each stage is handed [results] with the outputs of
    the steps before it. *)
Lemma run_steps_calls (self : Isophote_Pipeline) (dat : image) (pixscale : Q)
    (name : string) (kwargs : gmap string pyval) (steps : list string) :
  forall (results : gmap string V) (log : list (log_event V)),
    exists new k,
      snd (run_steps self dat pixscale name kwargs steps results log)
      = log ++ new
      /\ map fst (calls new) = take k steps
      /\ (forall results',
            fst (run_steps self dat pixscale name kwargs steps results log)
            = Ok results' ->
            k = length steps)
      /\ (forall i step seen,
            calls new !! i = Some (step, seen) ->
            dom seen = dom results ∪ list_to_set (take i steps)).
Proof.
  induction steps as [|step rest IH]; intros results log.
  - exists [], 0%nat. simpl. rewrite app_nil_r.
    repeat split; try reflexivity.
    intros i step seen Hc. destruct i; discriminate.
  - cbn [run_steps]. unfold io_bind, io_log, io_lift.
    destruct (pipeline_functions self !! step) as [f|].
    + destruct (f dat pixscale name results kwargs) as [v|e|] eqn:Hf.
      * destruct (IH (<[step := v]> results)
                    ((log ++ [Info_step name step]) ++ [Called step results]))
          as (new & k & Hlog & Hcalls & Hall & Hseen).
        exists ([Info_step name step; Called step results] ++ new), (S k).
        split; [rewrite Hlog, <- !app_assoc; reflexivity|].
        split; [simpl; rewrite Hcalls; reflexivity|].
        split; [intros results' Hok; simpl; f_equal; exact (Hall results' Hok)|].
        intros [|i] step' seen Hc; simpl in Hc.
        -- injection Hc as <- <-. simpl. set_solver.
        -- apply Hseen in Hc. rewrite Hc, dom_insert_L. simpl. set_solver.
      * exists [Info_step name step; Called step results], 1%nat.
        split; [simpl; rewrite <- app_assoc; reflexivity|].
        split; [simpl; rewrite take_0; reflexivity|].
        split; [intros results' Hok; discriminate Hok|].
        intros [|i] step' seen Hc; simpl in Hc; [|destruct i; discriminate Hc].
        injection Hc as <- <-. simpl. set_solver.
      * exists [Info_step name step; Called step results], 1%nat.
        split; [simpl; rewrite <- app_assoc; reflexivity|].
        split; [simpl; rewrite take_0; reflexivity|].
        split; [intros results' Hok; discriminate Hok|].
        intros [|i] step' seen Hc; simpl in Hc; [|destruct i; discriminate Hc].
        injection Hc as <- <-. simpl. set_solver.
    + exists [Info_step name step], 0%nat.
      split; [reflexivity|]. split; [reflexivity|].
      split; [intros results' Hok; discriminate Hok|].
      intros i step' seen Hc. destruct i; discriminate Hc.
Qed.

(** The same of a whole run of [Process_Image], which starts the loop
    with an empty [results]. *)
Lemma Process_Image_calls (self : Isophote_Pipeline) (IMG : string)
    (pixscale : Q) (saveto name : option string)
    (kwargs_internal kwargs : gmap string pyval) (log : list (log_event V)) :
  exists new k,
    snd (Process_Image self IMG pixscale saveto name kwargs_internal kwargs log)
    = log ++ new
    /\ map fst (calls new) = take k (pipeline_steps self)
    /\ (fst (Process_Image self IMG pixscale saveto name kwargs_internal
               kwargs log) = Ok 0%Z ->
        k = length (pipeline_steps self))
    /\ (forall i step seen,
          calls new !! i = Some (step, seen) ->
          dom seen = list_to_set (take i (pipeline_steps self))).
Proof.
  assert (Hnone : forall (r : res Z) (l log' : list (log_event V)),
            r <> Ok 0%Z -> calls l = [] -> log' = log ++ l ->
            exists new k,
              snd (r, log') = log ++ new
              /\ map fst (calls new) = take k (pipeline_steps self)
              /\ (fst (r, log') = Ok 0%Z -> k = length (pipeline_steps self))
              /\ (forall i step seen,
                    calls new !! i = Some (step, seen) ->
                    dom seen = list_to_set (take i (pipeline_steps self)))).
  { intros r l log' Hr Hl ->. exists l, 0%nat. rewrite Hl.
    split; [reflexivity|]. split; [reflexivity|].
    split; [intros H; contradiction|].
    intros i step seen Hc. destruct i; discriminate Hc. }
  unfold Process_Image, io_bind, io_lift, io_log, io_ret.
  set (nm := match name with Some n => n | None => name_of_path IMG end).
  destruct (Read_Image IMG (kwargs_internal ∪ kwargs)) as [[dat|]| |].
  - destruct (center_block dat) as [block| |].
    + destruct (all_zero block).
      * apply (Hnone (Ok 1%Z) [Error_data_missing nm]);
          [discriminate | reflexivity | reflexivity].
      * destruct (run_steps_calls self dat pixscale nm (kwargs_internal ∪ kwargs)
                    (pipeline_steps self) ∅ log)
          as (new & k & Hlog & Hcalls & Hall & Hseen).
        destruct (run_steps self dat pixscale nm (kwargs_internal ∪ kwargs)
                    (pipeline_steps self) ∅ log) as [[results| |] log1] eqn:Hrun;
          simpl in Hlog; subst log1.
        -- assert (Hk : k = length (pipeline_steps self))
             by (apply (Hall results); reflexivity).
           assert (Hseen' : forall i step seen,
                     calls new !! i = Some (step, seen) ->
                     dom seen = list_to_set (take i (pipeline_steps self))).
           { intros i step seen Hc. rewrite (Hseen i step seen Hc), dom_empty_L.
             set_solver. }
           destruct (WriteProf _ _ _ _ _).
           ++ exists (new ++ [Info_saving nm; Info_complete nm]), k.
              split; [simpl; rewrite <- !app_assoc; reflexivity|].
              rewrite calls_app. simpl. rewrite app_nil_r.
              split; [exact Hcalls|]. split; [intros _; exact Hk | exact Hseen'].
           ++ exists (new ++ [Info_saving nm]), k.
              split; [simpl; rewrite <- !app_assoc; reflexivity|].
              rewrite calls_app. simpl. rewrite app_nil_r.
              split; [exact Hcalls|]. split; [intros _; exact Hk | exact Hseen'].
           ++ exists (new ++ [Info_saving nm]), k.
              split; [simpl; rewrite <- !app_assoc; reflexivity|].
              rewrite calls_app. simpl. rewrite app_nil_r.
              split; [exact Hcalls|]. split; [intros _; exact Hk | exact Hseen'].
        -- exists new, k. split; [reflexivity|]. split; [exact Hcalls|].
           split; [intros H; discriminate H|].
           intros i step seen Hc. rewrite (Hseen i step seen Hc), dom_empty_L.
           set_solver.
        -- exists new, k. split; [reflexivity|]. split; [exact Hcalls|].
           split; [intros H; discriminate H|].
           intros i step seen Hc. rewrite (Hseen i step seen Hc), dom_empty_L.
           set_solver.
    + apply (Hnone (Raise e) []);
        [discriminate | reflexivity | symmetry; apply app_nil_r].
    + apply (Hnone OutOfFuel []);
        [discriminate | reflexivity | symmetry; apply app_nil_r].
  - apply (Hnone (Ok 1%Z) [Error_data_missing nm]);
          [discriminate | reflexivity | reflexivity].
  - apply (Hnone (Raise e) []);
      [discriminate | reflexivity | symmetry; apply app_nil_r].
  - apply (Hnone OutOfFuel []);
      [discriminate | reflexivity | symmetry; apply app_nil_r].
Qed.

End PipelineProofs.


(** * The claims about the pipeline *)

Section PipelineClaims.

Context {V : Type} {stages : Pipeline.Stages V}.
Import Pipeline.

Lemma order_places (order : list string) (i : nat) (step : string) :
  order = ["background"; "psf"; "center"; "isophoteinit"; "isophotefit";
           "starmask"; "isophoteextract"; "checkfit"] ->
  order !! i = Some step ->
  (step = "isophoteextract" -> i = 6%nat) /\ (step = "checkfit" -> i = 7%nat).
Proof.
  intros -> Hi.
  do 8 (destruct i as [|i];
        [injection Hi as <-; split; intros H; try reflexivity; discriminate H|]).
  discriminate Hi.
Qed.

(** C7, as amended.  In every run of [Process_Image] with the default
    pipeline, whether it returns or ends in an exception, the stages
    called are the first [k] of background, psf, center, isophoteinit,
    isophotefit, starmask, isophoteextract, checkfit, in this order, and
    all eight when the run returns 0: the initializer comes before the
    refiner, the refiner before the profile extractor, and the fit
    quality checker after the extractor.  In no run is the checker called
    before the extractor: when the checker is called, it is the eighth
    call and the extractor was the seventh.  Every stage is handed the
    outputs of exactly the stages called before it. *)
Theorem default_pipeline_extracts_before_checking (IMG : string)
    (pixscale : Q) (saveto name : option string)
    (kwargs_internal kwargs : gmap string pyval) (log : list (log_event V)) :
  let order :=
    ["background"; "psf"; "center"; "isophoteinit"; "isophotefit";
     "starmask"; "isophoteextract"; "checkfit"] in
  exists new k,
    snd (Process_Image init IMG pixscale saveto name kwargs_internal kwargs log)
    = log ++ new
    /\ map fst (calls new) = take k order
    /\ (fst (Process_Image init IMG pixscale saveto name kwargs_internal
               kwargs log) = Ok 0%Z ->
        map fst (calls new) = order)
    /\ runs_before "isophoteinit" "isophotefit" order
    /\ runs_before "isophotefit" "isophoteextract" order
    /\ runs_before "isophoteextract" "checkfit" order
    /\ ~ runs_before "checkfit" "isophoteextract" (map fst (calls new))
    /\ (forall j,
          map fst (calls new) !! j = Some "checkfit" ->
          j = 7%nat /\ map fst (calls new) !! 6%nat = Some "isophoteextract")
    /\ (forall i step seen,
          calls new !! i = Some (step, seen) ->
          dom seen = list_to_set (take i order)).
Proof.
  intros order.
  destruct (Process_Image_calls init IMG pixscale saveto name kwargs_internal
              kwargs log) as (new & k & Hlog & Hcalls & Hall & Hseen).
  change (pipeline_steps init) with order in Hcalls, Hall, Hseen.
  exists new, k. split; [exact Hlog|]. split; [exact Hcalls|].
  split.
  { intros Hok. rewrite Hcalls, (Hall Hok). reflexivity. }
  split; [exists 3%nat, 4%nat; repeat split; lia|].
  split; [exists 4%nat, 6%nat; repeat split; lia|].
  split; [exists 6%nat, 7%nat; repeat split; lia|].
  rewrite Hcalls. split.
  { intros (i & j & Hlt & Hi & Hj).
    apply lookup_take_Some in Hi as [Hi _]. apply lookup_take_Some in Hj as [Hj _].
    destruct (order_places order i "checkfit" eq_refl Hi) as [_ Hi7].
    destruct (order_places order j "isophoteextract" eq_refl Hj) as [Hj6 _].
    specialize (Hi7 eq_refl). specialize (Hj6 eq_refl). lia. }
  split; [|exact Hseen].
  intros j Hj. apply lookup_take_Some in Hj as [Hj Hlt].
  destruct (order_places order j "checkfit" eq_refl Hj) as [_ Hj7].
  specialize (Hj7 eq_refl). subst j. split; [reflexivity|].
  apply lookup_take_Some. split; [reflexivity | lia].
Qed.

End PipelineClaims.

(** * The model at work

    The theorems above applied to runs of the implementations [Demo] and
    [Cases], and the runs on which C2, C6, C7 and C8 are decided. *)

Section Runs.

Local Open Scope Q_scope.

Import Initialize.

(** Python's indexing, slicing, remainder and numpy's helpers on small
    inputs. *)
Example index_from_the_end :
  index [10%nat; 20%nat; 30%nat] (-1) = Some 30%nat
  /\ index [10%nat; 20%nat; 30%nat] (-2) = Some 20%nat
  /\ index [10%nat] (-2) = None.
Proof. repeat split. Qed.

Example slice_of_the_last_five :
  slice_from [1%nat; 2%nat; 3%nat; 4%nat; 5%nat; 6%nat; 7%nat] (-5)
  = [3%nat; 4%nat; 5%nat; 6%nat; 7%nat]
  /\ slice_from [1%nat; 2%nat; 3%nat] (-5) = [1%nat; 2%nat; 3%nat]
  /\ slice [1%nat; 2%nat; 3%nat; 4%nat] (-8) 12 = [1%nat; 2%nat; 3%nat; 4%nat].
Proof. repeat split. Qed.

Example remainder_has_the_sign_of_pi :
  Np.pymod (- (1 # 2)) Np.pi == Np.pi - (1 # 2) /\ Np.pymod 4 Np.pi == 4 - Np.pi.
Proof. split; vm_compute; reflexivity. Qed.

(** The remainder where the addition rounds: [(-pi/4) % pi] is the double
    nearest to three quarters of pi, and [(-2**-61) % pi] is pi. *)
Example remainder_is_rounded :
  Np.pymod (- Np.pi / 4) Np.pi == 2652839157010665 # 1125899906842624
  /\ Np.pymod (- (1 # 2305843009213693952)) Np.pi == Np.pi
  /\ Np.double (1 # 10) == 3602879701896397 # 36028797018963968.
Proof. repeat split; vm_compute; reflexivity. Qed.

Example argmin_is_the_first_minimum : Np.argmin [3; 1; 2; 1] = Ok 1%nat.
Proof. reflexivity. Qed.

Example linspace_of_the_radius_factors :
  Forall2 Qeq (Np.linspace 0.8 1.2 5) [0.8; 0.9; 1; 1.1; 1.2].
Proof. repeat constructor. Qed.

(** The grid search with the module as it stands, where nothing binds
    [_Fit_Isophotes_Loss]. *)
Example grid_search_name_is_unbound :
  Initialize.Isophote_Initialize_GridSearch (num := Demo.numerics true) 100
    (Demo.flat 8 8) 1 "flat" (Demo.flat_results 8 2) ∅
  = Raise (NameError "_Fit_Isophotes_Loss").
Proof. vm_compute. reflexivity. Qed.

(** The radii grown on an 8 x 8 flat field with a PSF of 2 pixels: the
    noise floor is never reached and the loop ends past [len(IMG)/2 = 4]. *)
Example radii_on_a_flat_field :
  exists st,
    grow (num := Demo.numerics true) 100 (Demo.flat 8 8) (Demo.flat_results 8 2)
    = Ok st
    /\ Forall2 Qeq (circ_ellipse_radii st)
         [1; 1.2; 1.44; 1.728; 2.0736; 2.48832; 2.985984; 3.5831808;
          4.29981696].
Proof. eexists. split; [vm_compute; reflexivity | repeat constructor]. Qed.

(** The growth loop on the galaxy of [Demo]: it ends at the noise floor. *)
Lemma growth_stops_witness :
  exists tried,
    circ_ellipse_radii Demo.galaxy_grown
    = psf_fwhm Demo.galaxy_results / 2 :: tried
    /\ (noise_floor_reached (num := Demo.numerics true)
          (subtract_background Demo.galaxy (background Demo.galaxy_results))
          Demo.galaxy_results tried
        \/ exists r, last (circ_ellipse_radii Demo.galaxy_grown) = Some r
                     /\ half_len Demo.galaxy <= r).
Proof.
  destruct (growth_stops_at_noise_floor_or_half_image (num := Demo.numerics true)
              100 Demo.galaxy Demo.galaxy_results Demo.galaxy_grown)
    as (tried & Hr & _ & _ & Hend); [vm_compute; reflexivity|].
  exists tried. split; assumption.
Defined.

(** The same loop ends within the bound, for a PSF of 2 pixels. *)
Lemma radius_growth_witness :
  0 < psf_fwhm Demo.galaxy_results
  /\ grow (num := Demo.numerics true) 100 Demo.galaxy Demo.galaxy_results
     <> OutOfFuel
  /\ (length (circ_ellipse_radii Demo.galaxy_grown)
      <= S (growth_bound Demo.galaxy Demo.galaxy_results))%nat.
Proof.
  assert (Hpsf : 0 < psf_fwhm Demo.galaxy_results) by reflexivity.
  destruct (radius_growth_increases_and_terminates (num := Demo.numerics true)
              Demo.galaxy Demo.galaxy_results Hpsf) as [Hterm Hinc].
  split; [exact Hpsf|]. split.
  - apply Hterm. vm_compute. lia.
  - apply (Hinc 100%nat Demo.galaxy_grown). vm_compute. reflexivity.
Defined.



(** The fit of the galaxy: its ellipticity, from the grid or refined. *)
Lemma ellipticity_witness :
  exists k grid res,
    Np.linspace 0.05 0.95 15 !! k = Some grid
    /\ init_ellip (fst Demo.galaxy_fit)
       = (if success res then Demo.x_to_eps (res_x res) else grid).
Proof.
  destruct (ellipticity_from_grid_then_simplex
              (num := Demo.numerics true) 100 0 Demo.galaxy 1 "galaxy"
              Demo.galaxy_results ∅ (fst Demo.galaxy_fit) (snd Demo.galaxy_fit))
    as (st & R & test_f2 & k & grid & res & _ & _ & _ & _ & _ & _ & Hgrid
        & _ & _ & Hellip);
    [vm_compute; reflexivity|].
  exists k, grid, res. split; assumption.
Defined.

(** The fit of the galaxy: the ten radii and the ten refits behind its
    error bars. *)
Lemma error_bars_witness :
  exists R res_multi,
    init_R (fst Demo.galaxy_fit) = R
    /\ length (Np.linspace (R - psf_fwhm Demo.galaxy_results)
                 (R + psf_fwhm Demo.galaxy_results) 10) = 10%nat
    /\ length res_multi = 10%nat
    /\ init_ellip_err (fst Demo.galaxy_fit)
       = iqr (Numerics := Demo.numerics true)
           (map (fun rm => Demo.x_to_eps (res_x rm)) res_multi) 16 84 / 2.
Proof.
  destruct (error_bars_from_ten_radii_around_reference
              (num := Demo.numerics true) 100 0 Demo.galaxy 1 "galaxy"
              Demo.galaxy_results ∅ (fst Demo.galaxy_fit) (snd Demo.galaxy_fit))
    as (st & R & errallphase & res_multi & _ & _ & HR & Hlen & _ & _ & _ & _
        & _ & Hn & Herr);
    [vm_compute; reflexivity|].
  exists R, res_multi. repeat split; assumption.
Defined.

(** The galaxy, where the loop runs, and an image of 4 rows with a PSF of
    4 pixels, where it does not. *)
Lemma reference_radius_witness :
  (2 <= length (circ_ellipse_radii Demo.galaxy_grown))%nat
  /\ Demo.CircFit true 100 0 (Demo.flat 4 8) 1 "small" (Demo.flat_results 4 4) ∅
     = Raise (IndexError PyList).
Proof.
  split.
  - destruct (reference_radius_defined_iff_growth_starts
                (num := Demo.numerics true) 100 0 Demo.galaxy 1 "galaxy"
                Demo.galaxy_results ∅) as [Hstarted _].
    destruct (Hstarted ltac:(reflexivity) Demo.galaxy_grown
                ltac:(vm_compute; reflexivity)) as [Hlen _].
    exact Hlen.
  - destruct (reference_radius_defined_iff_growth_starts
                (num := Demo.numerics true) 100 0 (Demo.flat 4 8) 1 "small"
                (Demo.flat_results 4 4) ∅) as [_ Hnot].
    apply Hnot. vm_compute. discriminate.
Defined.

(** The default pipeline, with the circular fit as its initializer, on the
    galaxy: the stage calls of the run. *)
Lemma default_pipeline_witness :
  exists new k,
    snd (Cases.Process_Image (Some Demo.galaxy)
           (Cases.pipeline (Some Demo.galaxy)) "galaxy.fits" 1 None None ∅ ∅ [])
    = [] ++ new
    /\ map fst (Pipeline.calls new)
       = take k ["background"; "psf"; "center"; "isophoteinit"; "isophotefit";
                 "starmask"; "isophoteextract"; "checkfit"]
    /\ ~ Pipeline.runs_before "checkfit" "isophoteextract"
           (map fst (Pipeline.calls new)).
Proof.
  destruct (default_pipeline_extracts_before_checking
              (stages := Cases.stages (Some Demo.galaxy))
              "galaxy.fits" 1 None None ∅ ∅ [])
    as (new & k & Hlog & Hcalls & _ & _ & _ & _ & Hnot & _).
  exists new, k. split; [exact Hlog|]. split; [exact Hcalls | exact Hnot].
Defined.

(** C7, as it is worded, fails: the list of steps that [__init__] gives
    the pipeline has the extractor in the seventh place and the checker in
    the eighth, and no two places with the checker first.  In the run of
    the default pipeline on the galaxy the checker is not called before
    the extractor either: the run ends at the fourth stage, where the
    circular fit finds no ['psf fwhm'] in [results]. *)
Lemma checker_does_not_run_before_extractor :
  Pipeline.pipeline_steps (Cases.pipeline (Some Demo.galaxy))
  = ["background"; "psf"; "center"; "isophoteinit"; "isophotefit";
     "starmask"; "isophoteextract"; "checkfit"]
  /\ ~ Pipeline.runs_before "checkfit" "isophoteextract"
         (Pipeline.pipeline_steps (Cases.pipeline (Some Demo.galaxy)))
  /\ fst (Cases.Process_Image (Some Demo.galaxy)
            (Cases.pipeline (Some Demo.galaxy)) "galaxy.fits" 1 None None ∅ ∅ [])
     = Raise (KeyError "psf fwhm")
  /\ map fst
       (Pipeline.calls
          (snd (Cases.Process_Image (Some Demo.galaxy)
                  (Cases.pipeline (Some Demo.galaxy)) "galaxy.fits" 1 None None
                  ∅ ∅ [])))
     = ["background"; "psf"; "center"; "isophoteinit"].
Proof.
  split; [reflexivity|]. split.
  - intros (i & j & Hlt & Hi & Hj).
    destruct (order_places _ i "checkfit" eq_refl Hi) as [_ Hi7].
    destruct (order_places _ j "isophoteextract" eq_refl Hj) as [Hj6 _].
    specialize (Hi7 eq_refl). specialize (Hj6 eq_refl). lia.
  - split; vm_compute; reflexivity.
Qed.

(** C8, as it is worded, fails: keyword arguments that name the
    configuration values leave the fit as it is, and so do all others. *)
Lemma keyword_arguments_override_nothing :
  Demo.CircFit true 100 0 Demo.galaxy 1 "galaxy" Demo.galaxy_results
    Demo.overrides
  = Demo.CircFit true 100 0 Demo.galaxy 1 "galaxy" Demo.galaxy_results ∅
  /\ ~ exists kwargs,
         returned (Demo.CircFit true 100 0 Demo.galaxy 1 "galaxy"
                     Demo.galaxy_results kwargs)
         <> returned (Demo.CircFit true 100 0 Demo.galaxy 1 "galaxy"
                        Demo.galaxy_results ∅).
Proof.
  split; [vm_compute; reflexivity|].
  intros (kwargs & Hne). apply Hne.
  apply (CircFit_returned_kwargs (num := Demo.numerics true)).
Qed.

(** C6.  A batch of two images run in sequence, the first of which is too
    small for its PSF: the initializer raises, the exception leaves
    [Process_List], the second image is never read and no list of codes is
    returned, although the second image alone is processed to the end. *)
Theorem Process_List_aborts_at_failing_image :
  Demo.run (Demo.Process_List ["small.fits"; "galaxy.fits"] (inl 1) 1 None
              None ∅)
  = (Raise (IndexError PyList),
     [("info", ["small"; "background"]); ("background", []);
      ("info", ["small"; "psf"]); ("psf", ["background"]);
      ("info", ["small"; "center"]); ("center", ["background"; "psf"]);
      ("info", ["small"; "isophoteinit"]);
      ("isophoteinit", ["center"; "background"; "psf"])])
  /\ fst (Demo.run (Demo.Process_Image "galaxy.fits" 1 None None ∅ ∅))
     = Ok 0%Z.
Proof. split; vm_compute; reflexivity. Qed.

End Runs.

(** * Further properties of the two files *)

(** ** The radii of the circular fit *)

Section Radii.

Context {num : Numerics}.
Local Open Scope Q_scope.
Import Initialize.

Lemma Qpower_succ (q : Q) (k : nat) :
  ~ q == 0 -> q ^ Z.of_nat (S k) == q ^ Z.of_nat k * q.
Proof.
  intros Hq. rewrite Nat2Z.inj_succ. unfold Z.succ.
  rewrite Qpower_plus by exact Hq. rewrite Qpower_1_r. reflexivity.
Qed.

(** The radius of index [k] is [psf fwhm / 2 * 1.2^k]. *)
Lemma grown_closed_form (IMG : image) (rs : results) (st : grow_state) :
  grown IMG rs st ->
  forall k a,
    circ_ellipse_radii st !! k = Some a ->
    a == psf_fwhm rs / 2 * (1 + 0.2) ^ Z.of_nat k.
Proof.
  intros (tried & Hr & Hgeo & _) k.
  induction k as [|k IH]; intros a Ha.
  - rewrite Hr in Ha. simpl in Ha. injection Ha as <-. simpl. ring.
  - destruct (circ_ellipse_radii st !! k) as [a'|] eqn:Ha'.
    + destruct (Hgeo k a' a Ha' Ha) as [-> _].
      rewrite (IH a' eq_refl), Qpower_succ by discriminate. ring.
    + apply lookup_ge_None in Ha'. apply lookup_lt_Some in Ha. lia.
Qed.

Lemma Qpower_12_ge_1 (k : nat) : 1 <= (1 + 0.2) ^ Z.of_nat k.
Proof.
  induction k as [|k IH]; [discriminate|].
  rewrite Qpower_succ by discriminate. lra.
Qed.

(** What holds of the list after the loop, in terms of its length. *)
Lemma grow_Ok_second_last (IMG : image) (rs : results) (fuel : nat)
    (st : grow_state) (R : Q) :
  grow fuel IMG rs = Ok st ->
  index (circ_ellipse_radii st) (-2) = Some R ->
  exists n,
    length (circ_ellipse_radii st) = S (S n)
    /\ length (allphase st) = S n
    /\ circ_ellipse_radii st !! n = Some R
    /\ last (circ_ellipse_radii st) = Some (R * (1 + 0.2))
    /\ R < half_len IMG
    /\ R == psf_fwhm rs / 2 * (1 + 0.2) ^ Z.of_nat n.
Proof.
  intros Hrun HR. apply grow_Ok in Hrun as [Hg _].
  pose proof (grown_closed_form IMG rs st Hg) as Hclosed.
  destruct Hg as (tried & Hr & Hgeo & Hall & _).
  rewrite index_second_last in HR.
  destruct (Nat.leb_spec 2 (length (circ_ellipse_radii st))) as [Hlen|Hlen];
    [|discriminate].
  destruct (length (circ_ellipse_radii st)) as [|[|n]] eqn:Hn; try lia.
  exists n. replace (S (S n) - 2)%nat with n in HR by lia.
  destruct (lookup_lt_is_Some_2 (circ_ellipse_radii st) (S n)) as [b Hb]; [lia|].
  destruct (Hgeo n R b HR Hb) as [-> Hlt].
  split; [reflexivity|]. split.
  { rewrite Hall, length_map. rewrite Hr in Hn. simpl in Hn. lia. }
  split; [exact HR|]. split.
  { rewrite last_lookup, Hn. simpl. exact Hb. }
  split; [exact Hlt|]. apply Hclosed. exact HR.
Qed.

(** X1.  The reference radius and the log of a run.  The radius returned as
    ['init R'] is the last radius from which the loop grew: it is [psf fwhm
    / 2 * 1.2^n] for the number [n + 1] of radii sampled, it lies below
    [len(IMG)/2], and not below half the PSF width when that is positive.
    The scale that the run logs first is the radius after it, 1.2 times
    ['init R'], and so below [1.2 * len(IMG)/2]; then come the counts, one
    radius more than coefficients, then at most one message of the optimizer
    and at most one figure. *)
Theorem reference_radius_and_log_of_a_run (fuel : nat) (clock : Q)
    (IMG : image) (pixscale : Q) (name : string) (rs : results)
    (kwargs : gmap string pyval) (out : CircFit_result) (ev : list event) :
  Isophote_Initialize_CircFit fuel clock IMG pixscale name rs kwargs
  = Ok (out, ev) ->
  exists n debug,
    ev = Info_init_scale name (init_R out * (1 + 0.2))
         :: Info_counts name (S (S n)) (S n)
         :: debug ++ plot_events name kwargs
    /\ (debug = []
        \/ exists grid, debug = [Debug_optimal name (init_ellip out) grid])
    /\ init_R out == psf_fwhm rs / 2 * (1 + 0.2) ^ Z.of_nat n
    /\ init_R out < half_len IMG
    /\ init_R out * (1 + 0.2) < (1 + 0.2) * half_len IMG
    /\ (0 < psf_fwhm rs -> psf_fwhm rs / 2 <= init_R out).
Proof.
  intros Hrun.
  apply CircFit_Ok in Hrun
    as (st & r_last & ellip & evs & pa_err & ellip_err & R
        & Hst & Hlast & Hell & _ & HR & -> & ->).
  destruct (grow_Ok_second_last IMG rs fuel st R Hst HR)
    as (n & Hlen & Hall & _ & Hlast' & Hlt & Hclosed).
  rewrite Hlast' in Hlast. injection Hlast as <-.
  destruct (global_ellip_Ok name _ _ _ rs R ellip evs HR Hell)
    as (test_f2 & k & grid & res & _ & _ & _ & _ & Hellip & Hevs).
  exists n, evs. cbn [init_R init_ellip]. rewrite Hlen, Hall.
  split; [reflexivity|]. split.
  { rewrite Hevs, Hellip. destruct (success res); eauto. }
  split; [exact Hclosed|]. split; [exact Hlt|]. split; [lra|].
  intros Hpsf. rewrite Hclosed. pose proof (Qpower_12_ge_1 n) as Hp.
  assert (Hhalf : 0 < psf_fwhm rs / 2) by (apply Qlt_shift_div_l; lra).
  assert (psf_fwhm rs / 2 * 1 <= psf_fwhm rs / 2 * (1 + 0.2) ^ Z.of_nat n).
  { rewrite !(Qmult_comm (psf_fwhm rs / 2)).
    apply Qmult_le_compat_r; lra. }
  lra.
Qed.

End Radii.

Section ShortGrowth.

Context {num : Numerics}.
Local Open Scope Q_scope.
Import Initialize.

Lemma Qpower_12_small (n : nat) : (n <= 3)%nat -> (1 + 0.2) ^ Z.of_nat n < 2.
Proof.
  intros Hn. do 4 (destruct n as [|n]; [reflexivity|]). lia.
Qed.

Lemma Qpower_12_large (n : nat) : (4 <= n)%nat -> 2 < (1 + 0.2) ^ Z.of_nat n.
Proof.
  intros Hn. induction n as [|n IH]; [lia|].
  destruct (Nat.eq_dec n 3%nat) as [->|Hne]; [reflexivity|].
  rewrite Qpower_succ by discriminate.
  assert (2 < (1 + 0.2) ^ Z.of_nat n) by (apply IH; lia). lra.
Qed.

(** X2.  The radii on which the error bars are sampled run from ['init R']
    minus the PSF width to ['init R'] plus the PSF width.  ['init R'] is
    below the PSF width when the loop ended with 5 radii or fewer (the break
    needs 5), since [1.2^3 / 2 < 1]: the first of the ten radii is then
    negative, and the isophote is sampled at it all the same.  With 6 radii
    or more all ten are positive. *)
Theorem short_growth_samples_negative_radii (fuel : nat) (clock : Q)
    (IMG : image) (pixscale : Q) (name : string) (rs : results)
    (kwargs : gmap string pyval) (out : CircFit_result) (ev : list event) :
  0 < psf_fwhm rs ->
  Isophote_Initialize_CircFit fuel clock IMG pixscale name rs kwargs
  = Ok (out, ev) ->
  let dat := subtract_background IMG (background rs) in
  let RR :=
    Np.linspace (init_R out - psf_fwhm rs) (init_R out + psf_fwhm rs) 10 in
  exists st errallphase,
    grow fuel IMG rs = Ok st
    /\ Forall2 (fun rr z =>
                  clipped_fft (fst (_iso_extract_more dat rr 0 0 (center_ rs)))
                    !! 2%nat = Some z) RR errallphase
    /\ ((length (circ_ellipse_radii st) <= 5)%nat ->
        exists r0, RR !! 0%nat = Some r0 /\ r0 < 0)
    /\ ((6 <= length (circ_ellipse_radii st))%nat ->
        forall i rr, RR !! i = Some rr -> 0 < rr).
Proof.
  intros Hpsf Hrun dat RR.
  apply CircFit_Ok in Hrun
    as (st & r_last & ellip & evs & pa_err & ellip_err & R
        & Hst & _ & _ & Herr & HR & -> & _).
  cbn [init_R] in RR.
  destruct (grow_Ok_second_last IMG rs fuel st R Hst HR)
    as (n & Hlen & _ & _ & _ & _ & Hclosed).
  destruct (error_bars_Ok _ _ ellip rs R pa_err ellip_err HR Herr)
    as (errallphase & res_multi & Hph & _).
  exists st, errallphase. split; [exact Hst|]. split; [exact Hph|].
  assert (Hhalf : 0 < psf_fwhm rs / 2) by (apply Qlt_shift_div_l; lra).
  assert (E : psf_fwhm rs / 2 == psf_fwhm rs * (1 # 2)) by reflexivity.
  rewrite Hlen. split.
  - intros Hn.
    destruct (lookup_lt_is_Some_2 RR 0) as [r0 Hr0];
      [unfold RR; rewrite linspace_length; lia|].
    exists r0. split; [exact Hr0|].
    rewrite (linspace_lookup _ _ 10 0 r0 ltac:(lia) Hr0).
    change (Np.of_nat 0) with 0.
    pose proof (Qpower_12_small n ltac:(lia)) as Hp.
    assert (psf_fwhm rs / 2 * (1 + 0.2) ^ Z.of_nat n < psf_fwhm rs / 2 * 2).
    { rewrite !(Qmult_comm (psf_fwhm rs / 2)).
      apply Qmult_lt_compat_r; assumption. }
    rewrite E in *. lra.
  - intros Hn i rr Hrr.
    rewrite (linspace_lookup _ _ 10 i rr ltac:(lia) Hrr).
    change (Np.of_nat (10 - 1)) with 9.
    pose proof (Qpower_12_large n ltac:(lia)) as Hp.
    assert (psf_fwhm rs / 2 * 2 < psf_fwhm rs / 2 * (1 + 0.2) ^ Z.of_nat n).
    { rewrite !(Qmult_comm (psf_fwhm rs / 2)).
      apply Qmult_lt_compat_r; assumption. }
    pose proof (of_nat_nonneg i) as Hi.
    assert (Hstep : (R + psf_fwhm rs - (R - psf_fwhm rs)) / 9
                    == psf_fwhm rs * (2 # 9)) by field.
    rewrite Hstep.
    assert (0 <= Np.of_nat i * (psf_fwhm rs * (2 # 9))).
    { apply Qmult_le_0_compat; [exact Hi | lra]. }
    rewrite E in *. lra.
Qed.

End ShortGrowth.

Section NoPositivePsf.

Context {num : Numerics}.
Local Open Scope Q_scope.
Import Initialize.

Variables (IMG : image) (rs : results).
Local Abbreviation dat := (subtract_background IMG (background rs)).

Hypothesis Hrows : (0 < length IMG)%nat.
Hypothesis Hbright :
  forall r, r <= 0 -> 3 * background_noise rs <= flux_p80 dat rs r.

Lemma half_len_positive : 0 < half_len IMG.
Proof.
  unfold half_len. apply Qlt_shift_div_l; [reflexivity|].
  unfold Np.of_nat. change (0 * 2) with (inject_Z 0). rewrite <- Zlt_Qlt. lia.
Qed.

Lemma grow_loop_never_returns (fuel : nat) :
  forall (st : grow_state) (r : Q),
    last (circ_ellipse_radii st) = Some r ->
    r <= 0 ->
    forall st', while_loop fuel (grow_guard IMG) (grow_body dat rs) st <> Ok st'.
Proof.
  pose proof half_len_positive as Hhalf.
  induction fuel as [|fuel IH]; intros st r Hlast Hr st'; simpl;
    unfold grow_guard at 1;
    apply getitem_last_Ok with (k := PyList) in Hlast as Hget;
    rewrite Hget; simpl;
    (destruct (Np.Qltb r (half_len IMG)) eqn:Hlt;
     [|apply Qltb_ge in Hlt; lra]).
  - discriminate.
  - destruct (grow_body dat rs st) as [[st1 b]| |] eqn:Hbody; simpl;
      try discriminate.
    destruct (grow_body_spec IMG rs st st1 b r Hlast Hbody) as (Hr1 & _ & _ & Hb).
    assert (Hr' : r * (1 + 0.2) <= 0) by lra.
    assert (Hstop : b = false).
    { rewrite Hb. apply andb_false_intro1. apply Qltb_ge. apply Hbright, Hr'. }
    rewrite Hstop. apply (IH st1 (r * (1 + 0.2))); [|exact Hr'].
    rewrite Hr1. apply last_snoc.
Qed.

Hypothesis Hcoefs :
  forall r,
    (4 <= length (clipped_fft (fst (_iso_extract_more dat r 0 0 (center_ rs)))))%nat.

Lemma grow_body_returns (st : grow_state) (r : Q) :
  last (circ_ellipse_radii st) = Some r ->
  exists st' b, grow_body dat rs st = Ok (st', b).
Proof.
  intros Hlast. unfold grow_body.
  apply getitem_last_Ok with (k := PyList) in Hlast as Hget.
  rewrite Hget. cbn [bind]. rewrite getitem_last. cbn [bind].
  set (coefs := clipped_fft _).
  assert (Hlen : (4 <= length coefs)%nat) by apply Hcoefs.
  destruct (lookup_lt_is_Some_2 coefs 1) as [c1 Hc1]; [lia|].
  destruct (lookup_lt_is_Some_2 coefs 2) as [c2 Hc2]; [lia|].
  destruct (lookup_lt_is_Some_2 coefs 3) as [c3 Hc3]; [lia|].
  apply (getitem_nat_Ok NdArray) in Hc1, Hc2, Hc3.
  change (Z.of_nat 1) with 1%Z in Hc1. change (Z.of_nat 2) with 2%Z in Hc2.
  change (Z.of_nat 3) with 3%Z in Hc3.
  rewrite Hc2. cbn [bind]. rewrite Hc1. cbn [bind]. rewrite Hc3.
  destruct (Np.Qltb (np_abs c1) (np_abs c2)); cbn [bind]; eauto.
Qed.

Lemma grow_loop_runs_on (fuel : nat) :
  forall (st : grow_state) (r : Q),
    last (circ_ellipse_radii st) = Some r ->
    r <= 0 ->
    while_loop fuel (grow_guard IMG) (grow_body dat rs) st = OutOfFuel.
Proof.
  pose proof half_len_positive as Hhalf.
  induction fuel as [|fuel IH]; intros st r Hlast Hr; simpl;
    unfold grow_guard at 1;
    apply getitem_last_Ok with (k := PyList) in Hlast as Hget;
    rewrite Hget; simpl;
    (destruct (Np.Qltb r (half_len IMG)) eqn:Hlt;
     [|apply Qltb_ge in Hlt; lra]).
  - reflexivity.
  - destruct (grow_body_returns st r Hlast) as (st1 & b & Hbody).
    rewrite Hbody. simpl.
    destruct (grow_body_spec IMG rs st st1 b r Hlast Hbody) as (Hr1 & _ & _ & Hb).
    assert (Hr' : r * (1 + 0.2) <= 0) by lra.
    assert (Hstop : b = false).
    { rewrite Hb. apply andb_false_intro1. apply Qltb_ge. apply Hbright, Hr'. }
    rewrite Hstop. apply (IH st1 (r * (1 + 0.2))); [|exact Hr'].
    rewrite Hr1. apply last_snoc.
Qed.

End NoPositivePsf.

Section NoPositivePsfRun.

Context {num : Numerics}.
Local Open Scope Q_scope.
Import Initialize.

(** X3.  Without a positive PSF width the growth loop has no end of its own.
    From a start at zero or below, the radius times 1.2 never comes to
    [len(IMG)/2], so the loop can only be left through the noise floor: on
    an image that has rows, and whose flux at the radii at and below zero is
    not below 3 times the noise, [Isophote_Initialize_CircFit] never
    returns.  When moreover every transform holds its four coefficients, so
    that no index fails, it runs until the iterations allowed are used up,
    however many they are. *)
Theorem growth_has_no_end_without_a_positive_psf (IMG : image) (rs : results) :
  let dat := subtract_background IMG (background rs) in
  psf_fwhm rs <= 0 ->
  (0 < length IMG)%nat ->
  (forall r, r <= 0 -> 3 * background_noise rs <= flux_p80 dat rs r) ->
  (forall fuel clock pixscale name kwargs result,
     Isophote_Initialize_CircFit fuel clock IMG pixscale name rs kwargs
     <> Ok result)
  /\ ((forall r,
         (4 <= length
                 (clipped_fft
                    (fst (_iso_extract_more dat r 0 0 (center_ rs)))))%nat) ->
      forall fuel clock pixscale name kwargs,
        Isophote_Initialize_CircFit fuel clock IMG pixscale name rs kwargs
        = OutOfFuel).
Proof.
  intros dat Hpsf Hrows Hbright.
  assert (Hstart : psf_fwhm rs / 2 <= 0).
  { assert (E : psf_fwhm rs / 2 == psf_fwhm rs * (1 # 2)) by reflexivity.
    rewrite E. lra. }
  split.
  - intros fuel clock pixscale name kwargs result Hrun.
    unfold Isophote_Initialize_CircFit in Hrun.
    apply bind_Ok in Hrun as (st & Hst & _).
    apply (grow_loop_never_returns IMG rs Hrows Hbright fuel (grow_init rs)
             (psf_fwhm rs / 2) eq_refl Hstart st Hst).
  - intros Hcoefs fuel clock pixscale name kwargs.
    unfold Isophote_Initialize_CircFit, grow.
    rewrite (grow_loop_runs_on IMG rs Hrows Hbright Hcoefs fuel (grow_init rs)
               (psf_fwhm rs / 2) eq_refl Hstart).
    reflexivity.
Qed.

End NoPositivePsfRun.

(** ** The grid search *)

Section GridSearch.

Context {num : Numerics}.
Local Open Scope Q_scope.
Import Initialize.

Lemma gs_loop_returns (IMG : image) (rs : results) (fuel : nat) :
  forall (radii : list Q) (r : Q),
    last radii = Some r ->
    0 < r ->
    half_len IMG <= r * (1 + Np.of_nat fuel * 0.3) ->
    exists radii' r',
      while_loop fuel (gs_guard IMG) (gs_body IMG rs) radii = Ok radii'
      /\ last radii' = Some r'.
Proof.
  induction fuel as [|fuel IH]; intros radii r Hlast Hr Hbound; simpl;
    unfold gs_guard at 1;
    apply getitem_last_Ok with (k := PyList) in Hlast as Hget;
    rewrite Hget; simpl;
    destruct (Np.Qltb r (half_len IMG)) eqn:Hlt; eauto.
  - apply Qltb_lt in Hlt. exfalso.
    change (Np.of_nat 0) with 0 in Hbound. lra.
  - unfold gs_body. rewrite Hget. cbn [bind]. rewrite getitem_last.
    cbn [bind fst snd].
    destruct (_ && _).
    + exists (radii ++ [r * (1 + 0.3)]), (r * (1 + 0.3)).
      split; [reflexivity | apply last_snoc].
    + apply (IH _ (r * (1 + 0.3))); [apply last_snoc | lra |].
      rewrite of_nat_S in Hbound. pose proof (of_nat_nonneg fuel).
      assert (0 <= r * Np.of_nat fuel) by (apply Qmult_le_0_compat; lra).
      lra.
Qed.

Lemma initializations_first :
  exists ep rest, initializations = ep :: rest.
Proof.
  unfold initializations.
  destruct (Np.linspace (_inv_x_to_eps 0.2) (_inv_x_to_eps 0.8) 10)
    as [|e es] eqn:He.
  { apply (f_equal length) in He. rewrite linspace_length in He. discriminate. }
  destruct (Np.linspace 0 ((Np.of_nat 20 - 1) * Np.pi / Np.of_nat 20) 20)
    as [|p ps] eqn:Hp.
  { apply (f_equal length) in Hp. rewrite linspace_length in Hp. discriminate. }
  cbn [flat_map map app]. eauto.
Qed.

(** X4.  The grid search cannot return as the module stands.  The loss it
    calls for each of the 200 pairs of ellipticity and angle,
    [_Fit_Isophotes_Loss], is a name that the module neither defines nor
    imports: whenever the growth loop ends, the first pair already ends the
    function in [NameError].  With a positive PSF width the loop ends within
    [growth_bound] iterations, so that [NameError] is then the outcome on
    every image. *)
Theorem grid_search_ends_in_NameError (IMG : image) (rs : results) :
  _Fit_Isophotes_Loss = None ->
  (forall fuel pixscale name kwargs result,
     Isophote_Initialize_GridSearch fuel IMG pixscale name rs kwargs
     <> Ok result)
  /\ (0 < psf_fwhm rs ->
      forall fuel pixscale name kwargs,
        (growth_bound IMG rs <= fuel)%nat ->
        Isophote_Initialize_GridSearch fuel IMG pixscale name rs kwargs
        = Raise (NameError "_Fit_Isophotes_Loss")).
Proof.
  intros Hname.
  destruct initializations_first as (ep & rest & Hinit).
  assert (Hfold : forall radii c st,
             foldM (gs_step IMG radii c) st initializations
             = Raise (NameError "_Fit_Isophotes_Loss")).
  { intros radii c st. rewrite Hinit. simpl. unfold gs_step.
    rewrite Hname. reflexivity. }
  split.
  - intros fuel pixscale name kwargs result Hrun.
    unfold Isophote_Initialize_GridSearch in Hrun.
    apply bind_Ok in Hrun as (radii & _ & Hrun).
    apply bind_Ok in Hrun as (r_last & _ & Hrun).
    rewrite Hfold in Hrun. discriminate.
  - intros Hpsf fuel pixscale name kwargs Hfuel.
    unfold Isophote_Initialize_GridSearch, gs_grow.
    destruct (gs_loop_returns IMG rs fuel [psf_fwhm rs] (psf_fwhm rs) eq_refl
                Hpsf) as (radii & r' & Hrun & Hlast).
    { pose proof (growth_bound_enough IMG rs Hpsf) as Hb.
      pose proof (of_nat_le _ _ Hfuel) as Hle.
      pose proof (of_nat_nonneg (growth_bound IMG rs)) as H0.
      assert (E : psf_fwhm rs / 2 == psf_fwhm rs * (1 # 2)) by reflexivity.
      rewrite E in Hb.
      assert (psf_fwhm rs * Np.of_nat (growth_bound IMG rs)
              <= psf_fwhm rs * Np.of_nat fuel).
      { rewrite !(Qmult_comm (psf_fwhm rs)). apply Qmult_le_compat_r; lra. }
      assert (0 <= psf_fwhm rs * Np.of_nat (growth_bound IMG rs)).
      { apply Qmult_le_0_compat; lra. }
      lra. }
    rewrite Hrun. cbn [bind].
    apply getitem_last_Ok with (k := PyList) in Hlast. rewrite Hlast.
    cbn [bind]. rewrite Hfold. reflexivity.
Qed.

End GridSearch.

(** ** The circular fit over the dictionary *)

Section StageProofs.

Context {num : Numerics} {V : Type} {val : Stage.Values V}.
Local Open Scope Q_scope.
Import Initialize.

Lemma while_loop_ext {St : Type} (guard : St -> res bool)
    (body body' : St -> res (St * bool)) (fuel : nat) (st : St) :
  (forall s, body s = body' s) ->
  while_loop fuel guard body st = while_loop fuel guard body' st.
Proof.
  intros Hb. revert st. induction fuel as [|fuel IH]; intros st; simpl.
  - reflexivity.
  - destruct (guard st) as [[|]| |]; simpl; try reflexivity.
    rewrite Hb. destruct (body' st) as [[st' [|]]| |]; simpl; try reflexivity.
    apply IH.
Qed.

Variables (results : gmap string V) (psf bg noise : Q) (c : center).

Hypothesis Hpsf : Stage.float_item results "psf fwhm" = Ok psf.
Hypothesis Hbg : Stage.float_item results "background" = Ok bg.
Hypothesis Hnoise : Stage.float_item results "background noise" = Ok noise.
Hypothesis Hc : Stage.center_item results "center" = Ok c.

Lemma Stage_grow_body (dat : image) (st : grow_state) :
  Stage.grow_body dat results st
  = grow_body dat (Stage.entries psf bg noise c) st.
Proof.
  unfold Stage.grow_body, grow_body. rewrite Hc, Hnoise. cbn [bind].
  reflexivity.
Qed.

Lemma Stage_test_f2_entry (radii : list Q) (dat : image) (phase e : Q) :
  Stage.test_f2_entry radii dat phase results e
  = test_f2_entry radii dat phase (Stage.entries psf bg noise c) e.
Proof.
  unfold Stage.test_f2_entry, test_f2_entry. rewrite Hc, Hnoise. cbn [bind].
  reflexivity.
Qed.

Lemma Stage_global_ellip (name : string) (radii : list Q) (dat : image)
    (phase : Q) :
  Stage.global_ellip name radii dat phase results
  = global_ellip name radii dat phase (Stage.entries psf bg noise c).
Proof.
  unfold Stage.global_ellip, global_ellip.
  rewrite (res_mapM_ext _ _ _ (Stage_test_f2_entry radii dat phase)).
  rewrite Hc, Hnoise. cbn [bind]. reflexivity.
Qed.

Lemma Stage_error_bars (radii : list Q) (dat : image) (ellip : Q) :
  Stage.error_bars radii dat ellip results
  = error_bars radii dat ellip (Stage.entries psf bg noise c).
Proof.
  unfold Stage.error_bars, error_bars. rewrite Hpsf, Hc, Hnoise. cbn [bind].
  reflexivity.
Qed.

Lemma Stage_plot_events (name : string) (kwargs : gmap string pyval) :
  Stage.plot_events name results kwargs = Ok (plot_events name kwargs).
Proof.
  unfold Stage.plot_events, plot_events. rewrite Hc. cbn [bind].
  destruct (doplot name kwargs); reflexivity.
Qed.

(** With the four entries in [results], the stage computes what the
    function of the record computes. *)
Lemma Stage_CircFit (fuel : nat) (clock : Q) (IMG : image) (pixscale : Q)
    (name : string) (kwargs : gmap string pyval) :
  Stage.Isophote_Initialize_CircFit fuel clock IMG pixscale name results kwargs
  = Isophote_Initialize_CircFit fuel clock IMG pixscale name
      (Stage.entries psf bg noise c) kwargs.
Proof.
  unfold Stage.Isophote_Initialize_CircFit, Isophote_Initialize_CircFit, grow.
  rewrite Hpsf, Hbg. cbn [bind].
  rewrite (while_loop_ext _ _ _ _ _
             (Stage_grow_body (subtract_background IMG bg))).
  cbn [Stage.entries background psf_fwhm grow_init].
  destruct (while_loop _ _ _ _) as [st| |]; cbn [bind]; try reflexivity.
  destruct (getitem PyList _ _) as [r| |]; cbn [bind]; try reflexivity.
  rewrite Stage_global_ellip.
  destruct (global_ellip _ _ _ _ _) as [ee| |]; cbn [bind]; try reflexivity.
  rewrite Stage_error_bars, Stage_plot_events.
  destruct (error_bars _ _ _ _) as [errs| |]; cbn [bind]; reflexivity.
Qed.

End StageProofs.

Section StageLookups.

Context {num : Numerics} {V : Type} {val : Stage.Values V}.
Local Open Scope Q_scope.
Import Initialize.

Lemma item_agree (results results' : gmap string V) (key : string) :
  results !! key = results' !! key ->
  Stage.float_item results key = Stage.float_item results' key
  /\ Stage.center_item results key = Stage.center_item results' key.
Proof.
  intros Hk. unfold Stage.float_item, Stage.center_item, Stage.item.
  rewrite Hk. split; reflexivity.
Qed.

(** X5.  The circular fit reads four entries of [results] and no other: two
    dictionaries that agree on ['psf fwhm'], ['background'], ['background
    noise'] and ['center'] give the same outcome, dictionary, log and
    exception alike, whatever else they hold. *)
Theorem circular_fit_reads_four_entries (fuel : nat) (clock : Q) (IMG : image)
    (pixscale : Q) (name : string) (results results' : gmap string V)
    (kwargs : gmap string pyval) :
  (forall key,
     key ∈ ["psf fwhm"; "background"; "background noise"; "center"] ->
     results !! key = results' !! key) ->
  Stage.Isophote_Initialize_CircFit fuel clock IMG pixscale name results kwargs
  = Stage.Isophote_Initialize_CircFit fuel clock IMG pixscale name results'
      kwargs.
Proof.
  intros Hsame.
  destruct (item_agree results results' "psf fwhm") as [Hpsf _];
    [apply Hsame; set_solver|].
  destruct (item_agree results results' "background") as [Hbg _];
    [apply Hsame; set_solver|].
  destruct (item_agree results results' "background noise") as [Hn _];
    [apply Hsame; set_solver|].
  destruct (item_agree results results' "center") as [_ Hc];
    [apply Hsame; set_solver|].
  unfold Stage.Isophote_Initialize_CircFit, Stage.grow_body,
    Stage.global_ellip, Stage.test_f2_entry, Stage.error_bars,
    Stage.plot_events.
  rewrite Hpsf, Hbg, Hn, Hc. reflexivity.
Qed.

Lemma while_loop_not_entered {St : Type} (guard : St -> res bool)
    (body : St -> res (St * bool)) (fuel : nat) (st : St) :
  guard st = Ok false -> while_loop fuel guard body st = Ok st.
Proof. intros Hg. destruct fuel; simpl; rewrite Hg; reflexivity. Qed.

Lemma item_missing (results : gmap string V) (key : string) :
  results !! key = None ->
  Stage.float_item results key = Raise (KeyError key)
  /\ Stage.center_item results key = Raise (KeyError key).
Proof.
  intros Hk. unfold Stage.float_item, Stage.center_item, Stage.item.
  rewrite Hk. split; reflexivity.
Qed.

Lemma grow_guard_first (IMG : image) (psf : Q) (pk al : list Np.complex) :
  grow_guard IMG
    {| circ_ellipse_radii := [psf / 2]; phasekeep := pk; allphase := al |}
  = Ok (Np.Qltb (psf / 2) (half_len IMG)).
Proof. reflexivity. Qed.

(** X6.  An entry that [results] lacks is missed where the source first
    reads it:  ['psf fwhm'] before anything else, then ['background'], and
    ['center'] in the first turn of the growth loop.  When the loop is not
    entered, because half the PSF width is not below [len(IMG)/2], the other
    two entries are never read and the function ends in the [IndexError] of
    [circ_ellipse_radii[-2]] whether they are there or not. *)
Theorem missing_entry_raises_where_it_is_read (fuel : nat) (clock : Q)
    (IMG : image) (pixscale : Q) (name : string) (results : gmap string V)
    (kwargs : gmap string pyval) :
  let run :=
    Stage.Isophote_Initialize_CircFit fuel clock IMG pixscale name results
      kwargs in
  (results !! "psf fwhm" = None -> run = Raise (KeyError "psf fwhm"))
  /\ (forall psf,
        Stage.float_item results "psf fwhm" = Ok psf ->
        results !! "background" = None ->
        run = Raise (KeyError "background"))
  /\ (forall psf bg,
        Stage.float_item results "psf fwhm" = Ok psf ->
        Stage.float_item results "background" = Ok bg ->
        psf / 2 < half_len IMG ->
        (0 < fuel)%nat ->
        results !! "center" = None ->
        run = Raise (KeyError "center"))
  /\ (forall psf bg,
        Stage.float_item results "psf fwhm" = Ok psf ->
        Stage.float_item results "background" = Ok bg ->
        half_len IMG <= psf / 2 ->
        run = Raise (IndexError PyList)).
Proof.
  intros run. unfold run, Stage.Isophote_Initialize_CircFit.
  split; [|split; [|split]].
  - intros Hk. apply item_missing in Hk as [-> _]. reflexivity.
  - intros psf -> Hk. apply item_missing in Hk as [-> _]. reflexivity.
  - intros psf bg -> -> Hlt Hfuel Hk. cbn [bind].
    apply item_missing in Hk as [_ Hc].
    destruct fuel as [|fuel']; [lia|]. cbn [while_loop].
    rewrite grow_guard_first. apply Qltb_lt in Hlt. rewrite Hlt. cbn [bind].
    unfold Stage.grow_body. cbn [circ_ellipse_radii].
    change (getitem PyList [psf / 2] (-1)) with (Ok (psf / 2)). cbn [bind].
    rewrite getitem_last. cbn [bind]. rewrite Hc. reflexivity.
  - intros psf bg -> -> Hge. cbn [bind].
    rewrite while_loop_not_entered
      by (rewrite grow_guard_first; apply Qltb_ge in Hge; rewrite Hge;
          reflexivity).
    cbn [bind circ_ellipse_radii].
    change (getitem PyList [psf / 2] (-1)) with (Ok (psf / 2)). cbn [bind].
    unfold Stage.global_ellip, Stage.test_f2_entry.
    change (getitem PyList [psf / 2] (-2)) with (@Raise Q (IndexError PyList)).
    simpl. reflexivity.
Qed.

End StageLookups.

(** ** The pipeline object and its runs *)

Section PipelineMore.

Context {V : Type} {stages : Pipeline.Stages V}.
Import Pipeline.

Lemma run_steps_app (self : Isophote_Pipeline) (dat : image) (pixscale : Q)
    (name : string) (kwargs : gmap string pyval) (pre rest : list string) :
  forall (results : gmap string V) (log : list (log_event V)),
    run_steps self dat pixscale name kwargs (pre ++ rest) results log
    = match run_steps self dat pixscale name kwargs pre results log with
      | (Ok r1, log1) => run_steps self dat pixscale name kwargs rest r1 log1
      | (Raise e, log1) => (Raise e, log1)
      | (OutOfFuel, log1) => (OutOfFuel, log1)
      end.
Proof.
  induction pre as [|step pre IH]; intros results log; simpl.
  - reflexivity.
  - unfold io_bind, io_log, io_lift.
    destruct (pipeline_functions self !! step) as [f|]; [|reflexivity].
    destruct (f dat pixscale name results kwargs) as [v| |]; try reflexivity.
    apply IH.
Qed.

(** The part of [Process_Image] that comes after the image is read and
    found to hold data. *)
Lemma Process_Image_with_data (self : Isophote_Pipeline) (IMG : string)
    (pixscale : Q) (saveto name : option string)
    (kwargs_internal kwargs : gmap string pyval) (dat : image)
    (block : list (list Q)) (log : list (log_event V)) :
  let kw := kwargs_internal ∪ kwargs in
  let nm := match name with Some n => n | None => name_of_path IMG end in
  Read_Image IMG kw = Ok (Some dat) ->
  center_block dat = Ok block ->
  all_zero block = false ->
  Process_Image self IMG pixscale saveto name kwargs_internal kwargs log
  = match run_steps self dat pixscale nm kw (pipeline_steps self) ∅ log with
    | (Ok results, log1) =>
        match WriteProf results (match saveto with Some s => s | None => "./" end)
                pixscale nm kw with
        | Ok _ => (Ok 0%Z, log1 ++ [Info_saving nm; Info_complete nm])
        | Raise e => (Raise e, log1 ++ [Info_saving nm])
        | OutOfFuel => (OutOfFuel, log1 ++ [Info_saving nm])
        end
    | (Raise e, log1) => (Raise e, log1)
    | (OutOfFuel, log1) => (OutOfFuel, log1)
    end.
Proof.
  intros kw nm Hread Hblock Hzero.
  unfold Process_Image, io_bind, io_lift, io_log, io_ret.
  fold kw. fold nm. rewrite Hread, Hblock, Hzero.
  destruct (run_steps _ _ _ _ _ _ _ _) as [[results| |] log1]; try reflexivity.
  destruct (WriteProf _ _ _ _ _); try reflexivity.
  rewrite <- app_assoc. reflexivity.
Qed.

End PipelineMore.

Section StagePipeline.

Context {num : Numerics} {V : Type} {val : Stage.Values V}
  {stages : Pipeline.Stages V}.
Import Pipeline.

(** X7.  The circular fit does not find its input in the dictionary that
    [Process_Image] builds.  That dictionary holds the output of every
    earlier stage under the name of its step, so that, unless a step is
    itself named ['psf fwhm'], the lookup [results['psf fwhm']] of line 105
    fails: the run ends in [KeyError('psf fwhm')] as soon as the stages
    before the fit have returned, the later stages are not called and no
    profile is written.  (A stage is a function of its arguments here: it
    returns its output and leaves the dictionary it is handed as it is.) *)
Theorem circular_fit_misses_psf_in_the_pipeline (self : Isophote_Pipeline)
    (IMG : string) (pixscale : Q) (saveto name : option string)
    (kwargs_internal kwargs : gmap string pyval) (fuel : nat) (clock : Q)
    (pre post : list string) (step : string) (dat : image)
    (block : list (list Q)) (results1 : gmap string V)
    (log log1 : list (log_event V)) :
  let kw := kwargs_internal ∪ kwargs in
  let nm := match name with Some n => n | None => name_of_path IMG end in
  pipeline_steps self = pre ++ step :: post ->
  pipeline_functions self !! step = Some (Stage.CircFit_stage fuel clock) ->
  "psf fwhm" ∉ pre ->
  Read_Image IMG kw = Ok (Some dat) ->
  center_block dat = Ok block ->
  all_zero block = false ->
  run_steps self dat pixscale nm kw pre ∅ log = (Ok results1, log1) ->
  Process_Image self IMG pixscale saveto name kwargs_internal kwargs log
  = (Raise (KeyError "psf fwhm"),
     log1 ++ [Info_step nm step; Called step results1]).
Proof.
  intros kw nm Hsteps Hf Hpre Hread Hblock Hzero Hrun.
  rewrite (Process_Image_with_data self IMG pixscale saveto name
             kwargs_internal kwargs dat block log Hread Hblock Hzero).
  fold kw. fold nm. rewrite Hsteps, run_steps_app, Hrun.
  cbn [run_steps]. unfold io_bind, io_log, io_lift.
  replace (pipeline_functions self !! step)
    with (Some (Stage.CircFit_stage fuel clock)).
  assert (Hnone : results1 !! "psf fwhm" = None).
  { apply run_steps_Ok in Hrun as (new & _ & _ & _ & Hdom).
    apply not_elem_of_dom. rewrite Hdom, dom_empty_L.
    rewrite elem_of_union, elem_of_list_to_set. set_solver. }
  unfold Stage.CircFit_stage, Stage.Isophote_Initialize_CircFit,
    Stage.float_item, Stage.item.
  rewrite Hnone. simpl. rewrite <- app_assoc. reflexivity.
Qed.

End StagePipeline.

Section PipelineObject.

Context {V : Type} {stages : Pipeline.Stages V}.
Import Pipeline.

Lemma UpdatePipeline_keeps (self : Isophote_Pipeline)
    (fs : option (gmap string (stage V))) (steps : option (list string))
    (step : string) :
  is_Some (pipeline_functions self !! step) ->
  is_Some (pipeline_functions (UpdatePipeline self fs steps) !! step).
Proof.
  intros Hs. unfold UpdatePipeline. cbn [pipeline_functions].
  destruct fs as [new|]; [|exact Hs].
  destruct (decide (new = ∅)); [exact Hs|].
  apply lookup_union_is_Some. right. exact Hs.
Qed.

Lemma UpdatePipeline_steps (self : Isophote_Pipeline)
    (fs : option (gmap string (stage V))) (steps : option (list string)) :
  pipeline_steps self <> [] ->
  pipeline_steps (UpdatePipeline self fs steps) <> [].
Proof.
  intros Hs. unfold UpdatePipeline. cbn [pipeline_steps].
  destruct steps as [[|s l]|]; try exact Hs. discriminate.
Qed.

(** X8.  [UpdatePipeline] adds and rebinds stage functions and replaces the
    list of steps, and it takes nothing away: an empty dictionary and an
    empty list are passed over like [None].  So after any number of updates
    of a new pipeline each of the eight default step names is still bound to
    a function, and the list of steps is not empty.  A function given in an
    update is the one bound to its name after it. *)
Theorem updates_keep_the_default_stages
    (updates : list (option (gmap string (stage V)) * option (list string))) :
  let self :=
    fold_left (fun p u => UpdatePipeline p (fst u) (snd u)) updates init in
  (forall step,
     step ∈ ["background"; "psf"; "center"; "isophoteinit"; "isophotefit";
             "starmask"; "isophoteextract"; "checkfit"] ->
     is_Some (pipeline_functions self !! step))
  /\ pipeline_steps self <> []
  /\ UpdatePipeline self (Some ∅) (Some []) = self
  /\ UpdatePipeline self None None = self
  /\ forall new steps step f,
       new !! step = Some f ->
       pipeline_functions (UpdatePipeline self (Some new) steps) !! step
       = Some f.
Proof.
  intros self.
  assert (Hinv : forall p,
             ((forall step,
                 step ∈ ["background"; "psf"; "center"; "isophoteinit";
                         "isophotefit"; "starmask"; "isophoteextract";
                         "checkfit"] ->
                 is_Some (pipeline_functions p !! step))
              /\ pipeline_steps p <> []) ->
             let p' := fold_left (fun p u => UpdatePipeline p (fst u) (snd u))
                         updates p in
             (forall step,
                 step ∈ ["background"; "psf"; "center"; "isophoteinit";
                         "isophotefit"; "starmask"; "isophoteextract";
                         "checkfit"] ->
                 is_Some (pipeline_functions p' !! step))
             /\ pipeline_steps p' <> []).
  { induction updates as [|u us IH]; intros p Hp; [exact Hp|].
    simpl. apply IH. destruct Hp as [Hf Hs]. split.
    - intros step Hstep. apply UpdatePipeline_keeps, Hf, Hstep.
    - apply UpdatePipeline_steps, Hs. }
  destruct (Hinv init) as [Hf Hs].
  { split; [|discriminate]. intros step Hstep.
    repeat (apply elem_of_cons in Hstep as [->|Hstep];
            [vm_compute; eauto|]).
    apply elem_of_nil in Hstep. contradiction. }
  split; [exact Hf|]. split; [exact Hs|].
  split; [|split].
  - destruct self as [fs steps]. unfold UpdatePipeline. simpl.
    destruct (decide (∅ = ∅)) as [_|Hne]; [reflexivity | contradiction].
  - destruct self as [fs steps]. reflexivity.
  - intros new steps step f Hnew. unfold UpdatePipeline.
    cbn [pipeline_functions].
    destruct (decide (new = ∅)) as [->|_];
      [rewrite lookup_empty in Hnew; discriminate|].
    apply lookup_union_Some_l. exact Hnew.
Qed.

End PipelineObject.

(** ** The check of the image data *)

Section Blocks.

(** What [l[len(l)/2 - 10 : len(l)/2 + 10]] selects: twenty elements around
    the middle of a list of at least twenty, and of a shorter list its
    tail, since the lower bound is then negative and counts from the
    end. *)
Lemma slice_middle {A} (l : list A) (h : nat) :
  slice l (Z.of_nat h - 10) (Z.of_nat h + 10)
  = if (10 <=? h)%nat
    then take (Z.to_nat (Z.min (Z.of_nat h + 10) (Z.of_nat (length l))
                         - Z.min (Z.of_nat h - 10) (Z.of_nat (length l))))
           (drop (Z.to_nat (Z.min (Z.of_nat h - 10) (Z.of_nat (length l)))) l)
    else take (Z.to_nat (Z.min (Z.of_nat h + 10) (Z.of_nat (length l))
                         - Z.max (Z.of_nat h - 10 + Z.of_nat (length l)) 0))
           (drop (Z.to_nat (Z.max (Z.of_nat h - 10 + Z.of_nat (length l)) 0)) l).
Proof.
  unfold slice.
  destruct (Z.leb_spec 0 (Z.of_nat h + 10)) as [_|Hneg]; [|lia].
  destruct (Z.leb_spec 0 (Z.of_nat h - 10)) as [Hge|Hlt];
    destruct (Nat.leb_spec 10 h) as [Hh|Hh]; try lia; reflexivity.
Qed.

Lemma slice_middle_large {A} (l : list A) :
  (20 <= length l)%nat ->
  slice l (Z.of_nat (length l / 2) - 10) (Z.of_nat (length l / 2) + 10)
  = take 20 (drop (length l / 2 - 10) l).
Proof.
  intros Hn. rewrite slice_middle.
  pose proof (Nat.div_mod_eq (length l) 2) as Hd.
  pose proof (Nat.mod_upper_bound (length l) 2 ltac:(lia)) as Hm.
  destruct (Nat.leb_spec 10 (length l / 2)) as [Hh|Hh]; [|lia].
  f_equal; [|f_equal]; lia.
Qed.

Lemma slice_middle_small {A} (l : list A) :
  (length l < 20)%nat ->
  slice l (Z.of_nat (length l / 2) - 10) (Z.of_nat (length l / 2) + 10)
  = drop (length l + length l / 2 - 10) l.
Proof.
  intros Hn. rewrite slice_middle.
  pose proof (Nat.div_mod_eq (length l) 2) as Hd.
  pose proof (Nat.mod_upper_bound (length l) 2 ltac:(lia)) as Hm.
  destruct (Nat.leb_spec 10 (length l / 2)) as [Hh|Hh]; [lia|].
  replace (Z.to_nat (Z.max (Z.of_nat (length l / 2) - 10 + Z.of_nat (length l)) 0))
    with (length l + length l / 2 - 10)%nat by lia.
  apply take_ge. rewrite length_drop. lia.
Qed.

Lemma slice_middle_row {A} (l : list A) (m : nat) :
  length l = m -> (20 <= m)%nat ->
  slice l (Z.of_nat (m / 2) - 10) (Z.of_nat (m / 2) + 10)
  = take 20 (drop (m / 2 - 10) l).
Proof. intros <- Hm. apply slice_middle_large. exact Hm. Qed.

End Blocks.

Section DataCheck.

Context {V : Type} {stages : Pipeline.Stages V}.
Import Pipeline.
Local Open Scope Q_scope.

Lemma all_zero_Forall (block : list (list Q)) :
  all_zero block = true <-> Forall (Forall (fun v => v == 0)) block.
Proof.
  unfold all_zero. induction block as [|row block IH]; simpl.
  - split; [constructor | reflexivity].
  - rewrite andb_true_iff, IH, Forall_cons. apply and_iff_compat_r.
    induction row as [|v row IHr]; simpl.
    + split; [constructor | reflexivity].
    + rewrite andb_true_iff, IHr, Forall_cons, Qeq_bool_iff. reflexivity.
Qed.

Lemma Forall_slice {A} (P : A -> Prop) (l : list A) (i j : Z) :
  Forall P l -> Forall P (slice l i j).
Proof. intros Hl. unfold slice. apply Forall_take, Forall_drop, Hl. Qed.

(** When the image is read and its block is all zero, or when there is no
    image, the run ends with the code 1 and the error is logged: no stage
    is called. *)
Lemma Process_Image_missing (self : Isophote_Pipeline) (IMG : string)
    (pixscale : Q) (saveto name : option string)
    (kwargs_internal kwargs : gmap string pyval) (dat : image)
    (block : list (list Q)) (log : list (log_event V)) :
  let kw := kwargs_internal ∪ kwargs in
  let nm := match name with Some n => n | None => name_of_path IMG end in
  Read_Image IMG kw = Ok (Some dat) ->
  center_block dat = Ok block ->
  all_zero block = true ->
  Process_Image self IMG pixscale saveto name kwargs_internal kwargs log
  = (Ok 1%Z, log ++ [Error_data_missing nm]).
Proof.
  intros kw nm Hread Hblock Hzero.
  unfold Process_Image, io_bind, io_lift, io_log, io_ret.
  fold kw. fold nm. rewrite Hread, Hblock, Hzero. reflexivity.
Qed.

Lemma center_block_rows (dat : image) (row0 : list Q) :
  dat !! 0%nat = Some row0 ->
  center_block dat
  = Ok (map (fun row => slice row (Z.of_nat (length row0 / 2) - 10)
                          (Z.of_nat (length row0 / 2) + 10))
          (slice dat (Z.of_nat (length dat / 2) - 10)
             (Z.of_nat (length dat / 2) + 10))).
Proof.
  intros H0. unfold center_block.
  change 0%Z with (Z.of_nat 0).
  apply (getitem_nat_Ok NdArray) in H0. rewrite H0. reflexivity.
Qed.

(** X9.  An image of 11 to 19 rows is judged by its last rows.  The lower
    bound [len(dat)/2 - 10] of the block of line 135 is then negative, a
    negative bound of a slice counts from the end, and the block is the rows
    from [len(dat) + len(dat)/2 - 10] on, which leaves out the middle row:
    when those last rows hold zeros the image is refused with the code 1,
    whatever the rest of it holds. *)
Theorem small_image_is_judged_by_its_last_rows (self : Isophote_Pipeline)
    (IMG : string) (pixscale : Q) (saveto name : option string)
    (kwargs_internal kwargs : gmap string pyval) (dat : image)
    (log : list (log_event V)) :
  let n := length dat in
  let nm := match name with Some n => n | None => name_of_path IMG end in
  Read_Image IMG (kwargs_internal ∪ kwargs) = Ok (Some dat) ->
  (11 <= n < 20)%nat ->
  Forall (Forall (fun v => v == 0)) (drop (n + n / 2 - 10) dat) ->
  (n / 2 < n + n / 2 - 10)%nat
  /\ Process_Image self IMG pixscale saveto name kwargs_internal kwargs log
     = (Ok 1%Z, log ++ [Error_data_missing nm]).
Proof.
  intros n nm Hread Hn Hzero.
  split; [generalize (n / 2)%nat; intros h; lia|].
  destruct (dat !! 0%nat) as [row0|] eqn:H0;
    [|apply lookup_ge_None in H0; fold n in H0; lia].
  apply (Process_Image_missing self IMG pixscale saveto name kwargs_internal
           kwargs dat _ log Hread (center_block_rows dat row0 H0)).
  apply all_zero_Forall. rewrite slice_middle_small by (fold n; lia).
  fold n. apply Forall_fmap. eapply Forall_impl; [exact Hzero|].
  intros row Hrow. simpl. apply Forall_slice. exact Hrow.
Qed.

Lemma Forall_window {A} (P : A -> Prop) (l : list A) (a : nat) :
  Forall P (take 20 (drop a l))
  <-> forall i v, (a <= i < a + 20)%nat -> l !! i = Some v -> P v.
Proof.
  rewrite Forall_lookup. split.
  - intros Hw i v Hi Hv. apply (Hw (i - a)%nat).
    rewrite lookup_take_lt by lia. rewrite lookup_drop.
    replace (a + (i - a))%nat with i by lia. exact Hv.
  - intros Hl i v Hv.
    destruct (Nat.lt_ge_cases i 20) as [Hi|Hi];
      [|rewrite lookup_take_ge in Hv by lia; discriminate].
    rewrite lookup_take_lt in Hv by lia. rewrite lookup_drop in Hv.
    apply (Hl (a + i)%nat); [lia | exact Hv].
Qed.

(** X10.  An image of at least 20 rows and 20 columns is refused, with the
    code 1, exactly when the 400 pixels of rows [len(dat)/2 - 10] to
    [len(dat)/2 + 9] and columns [len(dat[0])/2 - 10] to [len(dat[0])/2 + 9]
    are all zero; no other pixel is looked at. *)
Theorem large_image_is_judged_by_its_central_block (self : Isophote_Pipeline)
    (IMG : string) (pixscale : Q) (saveto name : option string)
    (kwargs_internal kwargs : gmap string pyval) (dat : image) (m : nat)
    (log : list (log_event V)) :
  let n := length dat in
  Read_Image IMG (kwargs_internal ∪ kwargs) = Ok (Some dat) ->
  (20 <= n)%nat ->
  (20 <= m)%nat ->
  Forall (fun row => length row = m) dat ->
  fst (Process_Image self IMG pixscale saveto name kwargs_internal kwargs log)
  = Ok 1%Z
  <-> forall i j row v,
        (n / 2 - 10 <= i < n / 2 - 10 + 20)%nat ->
        (m / 2 - 10 <= j < m / 2 - 10 + 20)%nat ->
        dat !! i = Some row -> row !! j = Some v -> v == 0.
Proof.
  intros n Hread Hn Hm Hrect.
  destruct (dat !! 0%nat) as [row0|] eqn:H0;
    [|apply lookup_ge_None in H0; fold n in H0; lia].
  assert (Hrow0 : length row0 = m)
    by (eapply Forall_lookup_1 in Hrect; [exact Hrect | exact H0]).
  pose proof (center_block_rows dat row0 H0) as Hblock.
  rewrite slice_middle_large in Hblock by (fold n; lia).
  fold n in Hblock. rewrite Hrow0 in Hblock.
  set (rows := take 20 (drop (n / 2 - 10) dat)) in *.
  set (block := map _ rows) in Hblock.
  assert (Hzero : all_zero block = true
                  <-> forall i j row v,
                        (n / 2 - 10 <= i < n / 2 - 10 + 20)%nat ->
                        (m / 2 - 10 <= j < m / 2 - 10 + 20)%nat ->
                        dat !! i = Some row -> row !! j = Some v -> v == 0).
  { rewrite all_zero_Forall. unfold block. rewrite Forall_fmap.
    unfold rows. rewrite Forall_window. split.
    - intros Hall i j row v Hi Hj Hr Hv.
      specialize (Hall i row Hi Hr). unfold compose in Hall.
      assert (Hlen : length row = m)
        by (eapply Forall_lookup_1 in Hrect; [exact Hrect | exact Hr]).
      rewrite (slice_middle_row row m Hlen Hm) in Hall.
      apply Forall_window with (i := j) (v := v) in Hall; assumption.
    - intros Hpix i row Hi Hr. unfold compose.
      assert (Hlen : length row = m)
        by (eapply Forall_lookup_1 in Hrect; [exact Hrect | exact Hr]).
      rewrite (slice_middle_row row m Hlen Hm). apply Forall_window. intros j v Hj Hv.
      exact (Hpix i j row v Hi Hj Hr Hv). }
  rewrite <- Hzero. destruct (all_zero block) eqn:Hz.
  - rewrite (Process_Image_missing self IMG pixscale saveto name
               kwargs_internal kwargs dat block log Hread Hblock Hz).
    split; reflexivity.
  - rewrite (Process_Image_with_data self IMG pixscale saveto name
               kwargs_internal kwargs dat block log Hread Hblock Hz).
    split; [|discriminate]. intros Hone. exfalso.
    destruct (run_steps _ _ _ _ _ _ _ _) as [[results| |] log1];
      try discriminate.
    destruct (WriteProf _ _ _ _ _); discriminate.
Qed.

(** X11.  The two empty images.  An array without rows has no [dat[0]] to
    take the number of columns from: the check of line 135 itself ends in
    [IndexError], and [Process_Image] raises instead of returning 1.  An
    array whose rows are empty has an empty block, of which [np.all] is
    true: it is refused with the code 1. *)
Theorem empty_image_raises_or_is_refused (self : Isophote_Pipeline)
    (IMG : string) (pixscale : Q) (saveto name : option string)
    (kwargs_internal kwargs : gmap string pyval) (dat : image)
    (log : list (log_event V)) :
  let nm := match name with Some n => n | None => name_of_path IMG end in
  Read_Image IMG (kwargs_internal ∪ kwargs) = Ok (Some dat) ->
  (dat = [] ->
   Process_Image self IMG pixscale saveto name kwargs_internal kwargs log
   = (Raise (IndexError NdArray), log))
  /\ (dat <> [] -> Forall (fun row => row = []) dat ->
      Process_Image self IMG pixscale saveto name kwargs_internal kwargs log
      = (Ok 1%Z, log ++ [Error_data_missing nm])).
Proof.
  intros nm Hread. split.
  - intros ->. unfold Process_Image, io_bind, io_lift.
    rewrite Hread. reflexivity.
  - intros Hne Hrows.
    destruct (dat !! 0%nat) as [row0|] eqn:H0;
      [|apply lookup_ge_None in H0; destruct dat; [contradiction | simpl in H0; lia]].
    apply (Process_Image_missing self IMG pixscale saveto name kwargs_internal
             kwargs dat _ log Hread (center_block_rows dat row0 H0)).
    apply all_zero_Forall, Forall_fmap, Forall_slice.
    eapply Forall_impl; [exact Hrows|]. intros row ->. simpl.
    unfold slice. rewrite drop_nil, take_nil. constructor.
Qed.

End DataCheck.

(** ** A run of the pipeline, and its end *)

Section PipelineRuns.

Context {V : Type} {stages : Pipeline.Stages V}.
Import Pipeline.

Lemma run_steps_functions (self self' : Isophote_Pipeline) (dat : image)
    (pixscale : Q) (name : string) (kwargs : gmap string pyval)
    (steps : list string) :
  pipeline_functions self = pipeline_functions self' ->
  forall (results : gmap string V) (log : list (log_event V)),
    run_steps self dat pixscale name kwargs steps results log
    = run_steps self' dat pixscale name kwargs steps results log.
Proof.
  intros Hf. induction steps as [|step rest IH]; intros results log; simpl.
  - reflexivity.
  - unfold io_bind, io_log, io_lift. rewrite Hf.
    destruct (pipeline_functions self' !! step) as [f|]; [|reflexivity].
    destruct (f dat pixscale name results kwargs) as [v| |]; try reflexivity.
    apply IH.
Qed.

(** X12.  [UpdatePipeline] takes a new list of steps as it is, without
    looking the names up.  A name that no stage function is bound to shows
    when the image is processed: the stages before it are run, then the
    lookup of the function raises [KeyError] with that name, the later
    stages are not called and no profile is written. *)
Theorem unbound_step_raises_KeyError (self : Isophote_Pipeline) (IMG : string)
    (pixscale : Q) (saveto name : option string)
    (kwargs_internal kwargs : gmap string pyval) (pre post : list string)
    (step : string) (dat : image) (block : list (list Q))
    (results1 : gmap string V) (log log1 : list (log_event V)) :
  let kw := kwargs_internal ∪ kwargs in
  let nm := match name with Some n => n | None => name_of_path IMG end in
  let self' := UpdatePipeline self None (Some (pre ++ step :: post)) in
  pipeline_functions self !! step = None ->
  Read_Image IMG kw = Ok (Some dat) ->
  center_block dat = Ok block ->
  all_zero block = false ->
  run_steps self dat pixscale nm kw pre ∅ log = (Ok results1, log1) ->
  pipeline_steps self' = pre ++ step :: post
  /\ Process_Image self' IMG pixscale saveto name kwargs_internal kwargs log
     = (Raise (KeyError step), log1 ++ [Info_step nm step]).
Proof.
  intros kw nm self' Hf Hread Hblock Hzero Hrun.
  assert (Hsteps : pipeline_steps self' = pre ++ step :: post).
  { unfold self', UpdatePipeline. cbn [pipeline_steps].
    destruct pre; reflexivity. }
  split; [exact Hsteps|].
  rewrite (Process_Image_with_data self' IMG pixscale saveto name
             kwargs_internal kwargs dat block log Hread Hblock Hzero).
  fold kw. fold nm. rewrite Hsteps, run_steps_app.
  rewrite <- (run_steps_functions self self') by reflexivity.
  rewrite Hrun. cbn [run_steps]. unfold io_bind, io_log, io_lift.
  replace (pipeline_functions self' !! step) with (@None (stage V)).
  reflexivity.
Qed.

(** X20.  An exception raised by a stage is not caught: it leaves
    [Process_Image] as it is, after the stages before it have run and their
    messages are logged.  The stages after it are not called, nothing is
    written, and no code is returned. *)
Theorem exception_of_a_stage_leaves_the_run (self : Isophote_Pipeline)
    (IMG : string) (pixscale : Q) (saveto name : option string)
    (kwargs_internal kwargs : gmap string pyval) (pre post : list string)
    (step : string) (f : stage V) (e : exn) (dat : image)
    (block : list (list Q)) (results1 : gmap string V)
    (log log1 : list (log_event V)) :
  let kw := kwargs_internal ∪ kwargs in
  let nm := match name with Some n => n | None => name_of_path IMG end in
  pipeline_steps self = pre ++ step :: post ->
  pipeline_functions self !! step = Some f ->
  Read_Image IMG kw = Ok (Some dat) ->
  center_block dat = Ok block ->
  all_zero block = false ->
  run_steps self dat pixscale nm kw pre ∅ log = (Ok results1, log1) ->
  f dat pixscale nm results1 kw = Raise e ->
  Process_Image self IMG pixscale saveto name kwargs_internal kwargs log
  = (Raise e, log1 ++ [Info_step nm step; Called step results1]).
Proof.
  intros kw nm Hsteps Hf Hread Hblock Hzero Hrun Hraise.
  rewrite (Process_Image_with_data self IMG pixscale saveto name
             kwargs_internal kwargs dat block log Hread Hblock Hzero).
  fold kw. fold nm. rewrite Hsteps, run_steps_app, Hrun.
  cbn [run_steps]. unfold io_bind, io_log, io_lift.
  replace (pipeline_functions self !! step) with (Some f).
  rewrite Hraise. rewrite <- app_assoc. reflexivity.
Qed.

(** X13.  What a run that returns has done.  [Process_Image] returns 1 or 0
    and nothing else.  With the code 1 the image was missing or its central
    block was all zero: the error is logged, no stage was called and nothing
    was written.  With the code 0 every step of the pipeline was called
    once, in the order of [pipeline_steps] whatever that list is, each stage
    was handed the outputs of the steps before it under their step names,
    and the profile was written from the outputs of all of them. *)
Theorem Process_Image_returns_1_or_0 (self : Isophote_Pipeline) (IMG : string)
    (pixscale : Q) (saveto name : option string)
    (kwargs_internal kwargs : gmap string pyval) (code : Z)
    (log log' : list (log_event V)) :
  let kw := kwargs_internal ∪ kwargs in
  let nm := match name with Some n => n | None => name_of_path IMG end in
  Process_Image self IMG pixscale saveto name kwargs_internal kwargs log
  = (Ok code, log') ->
  exists new,
    log' = log ++ new
    /\ ((code = 1%Z
         /\ new = [Error_data_missing nm]
         /\ (Read_Image IMG kw = Ok None
             \/ exists dat block,
                  Read_Image IMG kw = Ok (Some dat)
                  /\ center_block dat = Ok block
                  /\ all_zero block = true))
        \/ (code = 0%Z
            /\ map fst (calls new) = pipeline_steps self
            /\ (forall i step seen,
                  calls new !! i = Some (step, seen) ->
                  dom seen = list_to_set (take i (pipeline_steps self)))
            /\ exists dat block results,
                 Read_Image IMG kw = Ok (Some dat)
                 /\ center_block dat = Ok block
                 /\ all_zero block = false
                 /\ dom results = list_to_set (pipeline_steps self)
                 /\ WriteProf results
                      (match saveto with Some s => s | None => "./" end)
                      pixscale nm kw = Ok tt)).
Proof.
  intros kw nm Hrun.
  destruct (Read_Image IMG kw) as [[dat|]| |] eqn:Hread.
  - destruct (center_block dat) as [block| |] eqn:Hblock.
    + destruct (all_zero block) eqn:Hzero.
      * rewrite (Process_Image_missing self IMG pixscale saveto name
                   kwargs_internal kwargs dat block log Hread Hblock Hzero)
          in Hrun.
        injection Hrun as <- <-. exists [Error_data_missing nm].
        split; [reflexivity|]. left. split; [reflexivity|].
        split; [reflexivity|]. right. exists dat, block. auto.
      * rewrite (Process_Image_with_data self IMG pixscale saveto name
                   kwargs_internal kwargs dat block log Hread Hblock Hzero)
          in Hrun.
        fold kw in Hrun. fold nm in Hrun.
        destruct (run_steps _ _ _ _ _ _ _ _) as [[results| |] log1] eqn:Hsteps;
          try discriminate.
        destruct (WriteProf _ _ _ _ _) as [[]| |] eqn:Hwrite; try discriminate.
        injection Hrun as <- <-.
        apply run_steps_Ok in Hsteps as (new & -> & Horder & Hseen & Hdom).
        exists (new ++ [Info_saving nm; Info_complete nm]).
        split; [rewrite app_assoc; reflexivity|]. right.
        split; [reflexivity|]. rewrite calls_app. simpl. rewrite app_nil_r.
        split; [exact Horder|]. split.
        { intros i step seen Hc. rewrite (Hseen i step seen Hc), dom_empty_L.
          set_solver. }
        exists dat, block, results. repeat split; try assumption.
        rewrite Hdom, dom_empty_L. set_solver.
    + exfalso. unfold Process_Image, io_bind, io_lift in Hrun.
      fold kw in Hrun. rewrite Hread, Hblock in Hrun. discriminate.
    + exfalso. unfold Process_Image, io_bind, io_lift in Hrun.
      fold kw in Hrun. rewrite Hread, Hblock in Hrun. discriminate.
  - unfold Process_Image, io_bind, io_lift, io_log, io_ret in Hrun.
    fold kw in Hrun. fold nm in Hrun. rewrite Hread in Hrun.
    injection Hrun as <- <-. exists [Error_data_missing nm].
    split; [reflexivity|]. left. auto.
  - exfalso. unfold Process_Image, io_bind, io_lift in Hrun.
    fold kw in Hrun. rewrite Hread in Hrun. discriminate.
  - exfalso. unfold Process_Image, io_bind, io_lift in Hrun.
    fold kw in Hrun. rewrite Hread in Hrun. discriminate.
Qed.

End PipelineRuns.

(** ** Names of images and of configuration modules *)

Section Names.

Import Name.

Lemma list_ascii_app (a b : string) :
  String.list_ascii_of_string (a +:+ b)
  = String.list_ascii_of_string a ++ String.list_ascii_of_string b.
Proof. induction a as [|c a IH]; simpl; [reflexivity | rewrite IH; reflexivity]. Qed.

Lemma find_first (c : ascii) (p0 pre post : list ascii) :
  c ∉ pre ->
  find c (p0 ++ pre ++ c :: post) (length p0)
  = Z.of_nat (length p0 + length pre).
Proof.
  intros Hpre. unfold find. rewrite drop_app_length.
  rewrite list_find_app_r
    by (apply list_find_None, Forall_forall; intros x Hx ->; contradiction).
  simpl. destruct (decide (c = c)) as [_|Hne]; [|contradiction].
  simpl. do 2 f_equal.
Qed.

Lemma find_nothing (c : ascii) (s : list ascii) (a : nat) :
  c ∉ drop a s -> find c s a = (-1)%Z.
Proof.
  intros Hc. unfold find.
  rewrite (proj2 (list_find_None (fun x => x = c) (drop a s))); [reflexivity|].
  apply Forall_forall. intros x Hx ->. contradiction.
Qed.

Lemma rfind_last (c : ascii) (pre post : list ascii) :
  c ∉ post -> rfind c (pre ++ c :: post) = Z.of_nat (length pre).
Proof.
  intros Hpost. unfold rfind.
  rewrite reverse_app, reverse_cons, <- app_assoc.
  rewrite list_find_app_r.
  2:{ apply list_find_None, Forall_forall. intros x Hx Hc. subst x.
      rewrite elem_of_reverse in Hx. contradiction. }
  simpl. destruct (decide (c = c)) as [_|Hne]; [|contradiction].
  simpl. rewrite length_reverse, length_app. simpl. f_equal. lia.
Qed.

Lemma slice_nat {A} (l : list A) (a b : nat) :
  (a <= b <= length l)%nat ->
  slice l (Z.of_nat a) (Z.of_nat b) = take (b - a) (drop a l).
Proof.
  intros Hab. unfold slice.
  destruct (Z.leb_spec 0 (Z.of_nat a)); [|lia].
  destruct (Z.leb_spec 0 (Z.of_nat b)); [|lia].
  f_equal; [|f_equal]; lia.
Qed.

Lemma slice_to_last {A} (l : list A) (a : nat) :
  (a < length l)%nat ->
  slice l (Z.of_nat a) (-1) = take (length l - 1 - a) (drop a l).
Proof.
  intros Ha. unfold slice.
  destruct (Z.leb_spec 0 (Z.of_nat a)); [|lia].
  destruct (Z.leb_spec 0 (-1)); [lia|].
  f_equal; [|f_equal]; lia.
Qed.

Lemma default_name_no_slash (s : list ascii) :
  "/"%char ∉ s ->
  default_name (String.string_of_list_ascii s)
  = String.string_of_list_ascii (slice s 0 (find "." s 0)).
Proof.
  intros Hs. unfold default_name.
  rewrite String.list_ascii_of_string_of_list_ascii.
  rewrite bool_decide_eq_false_2 by exact Hs. reflexivity.
Qed.

Lemma default_name_slash (dir rest : list ascii) :
  "/"%char ∉ rest ->
  let s := dir ++ "/"%char :: rest in
  default_name (String.string_of_list_ascii s)
  = String.string_of_list_ascii
      (slice s (Z.of_nat (length dir)) (find "." s (length dir))).
Proof.
  intros Hrest s. unfold default_name.
  rewrite String.list_ascii_of_string_of_list_ascii. fold s.
  rewrite bool_decide_eq_true_2 by (unfold s; set_solver).
  assert (Hr : rfind "/" s = Z.of_nat (length dir))
    by (apply rfind_last; exact Hrest).
  rewrite Hr, Nat2Z.id. reflexivity.
Qed.

Local Abbreviation chars := String.list_ascii_of_string.

Lemma chars_inj (a b : string) : chars a = chars b -> a = b.
Proof.
  intros Hab. rewrite <- (String.string_of_list_ascii_of_string a),
    <- (String.string_of_list_ascii_of_string b), Hab. reflexivity.
Qed.

Lemma default_name_chars (IMG : string) :
  default_name IMG = default_name (String.string_of_list_ascii (chars IMG)).
Proof. rewrite String.string_of_list_ascii_of_string. reflexivity. Qed.

(** X14.  When no name is given, the image is named after its file: the name
    is the part of the path from the last slash, the slash itself included,
    up to the first dot after it.  A file given without a directory gets the
    name one expects, ['galaxy'] for ['galaxy.fits']; a file given with a
    directory gets a name that starts with the slash, ['/galaxy'] for
    ['data/galaxy.fits'].  This is the name that goes into the log and into
    the names of the files written. *)
Theorem default_name_starts_at_the_last_slash (dir base ext : string) :
  "/"%char ∉ chars base ->
  "/"%char ∉ chars ext ->
  "."%char ∉ chars base ->
  default_name (base +:+ "." +:+ ext) = base
  /\ default_name (dir +:+ "/" +:+ base +:+ "." +:+ ext) = "/" +:+ base.
Proof.
  intros Hbase Hext Hdot. split.
  - rewrite default_name_chars, !list_ascii_app.
    change (chars ".") with ["."%char].
    rewrite default_name_no_slash
      by (rewrite !not_elem_of_app, not_elem_of_cons, elem_of_nil;
          repeat split; try assumption; try discriminate; tauto).
    pose proof (find_first "." [] (chars base) (chars ext) Hdot) as Hf.
    simpl in Hf. simpl app. rewrite Hf.
    change 0%Z with (Z.of_nat 0).
    rewrite slice_nat by (rewrite length_app; simpl; lia).
    rewrite drop_0, Nat.sub_0_r, take_app_length.
    apply String.string_of_list_ascii_of_string.
  - rewrite default_name_chars, !list_ascii_app.
    change (chars ".") with ["."%char]. change (chars "/") with ["/"%char].
    simpl app.
    rewrite (default_name_slash (chars dir) (chars base ++ "."%char :: chars ext))
      by (rewrite not_elem_of_app, not_elem_of_cons;
          repeat split; try assumption; discriminate).
    replace (chars dir ++ "/"%char :: chars base ++ "."%char :: chars ext)
      with (chars dir ++ ("/"%char :: chars base) ++ "."%char :: chars ext)
      by reflexivity.
    rewrite find_first
      by (rewrite not_elem_of_cons; split; [discriminate | exact Hdot]).
    rewrite slice_nat
      by (repeat (rewrite length_app || rewrite length_cons); lia).
    rewrite drop_app_length.
    replace (length (chars dir) + length ("/"%char :: chars base)
             - length (chars dir))%nat
      with (length ("/"%char :: chars base)) by lia.
    rewrite take_app_length. simpl.
    rewrite String.string_of_list_ascii_of_string. reflexivity.
Qed.

(** X15.  A path with no dot after its last slash loses its last character:
    [find] then answers -1, and -1 as the upper bound of the slice is the
    position of the last character.  So ['galaxy'] is named ['galax'], and
    ['data.v2/galaxy'] is named ['/galax']. *)
Theorem default_name_without_a_dot_drops_a_character (dir base : string)
    (c : ascii) :
  "/"%char ∉ chars base ++ [c] ->
  "."%char ∉ chars base ++ [c] ->
  default_name (base +:+ String c "") = base
  /\ default_name (dir +:+ "/" +:+ base +:+ String c "") = "/" +:+ base.
Proof.
  intros Hslash Hdot. split.
  - rewrite default_name_chars, !list_ascii_app.
    change (chars (String c "")) with [c].
    rewrite default_name_no_slash by exact Hslash.
    rewrite find_nothing by (rewrite drop_0; exact Hdot).
    change 0%Z with (Z.of_nat 0).
    rewrite slice_to_last by (rewrite length_app; simpl; lia).
    rewrite drop_0, length_app. simpl.
    replace (length (chars base) + 1 - 1 - 0)%nat with (length (chars base))
      by lia.
    rewrite take_app_length. apply String.string_of_list_ascii_of_string.
  - rewrite default_name_chars, !list_ascii_app.
    change (chars (String c "")) with [c]. change (chars "/") with ["/"%char].
    simpl app.
    rewrite (default_name_slash (chars dir) (chars base ++ [c]))
      by exact Hslash.
    rewrite find_nothing.
    2:{ rewrite drop_app_length. rewrite not_elem_of_cons.
        split; [discriminate | exact Hdot]. }
    rewrite slice_to_last
      by (repeat (rewrite length_app || rewrite length_cons); lia).
    rewrite drop_app_length.
    repeat (rewrite length_app || rewrite length_cons). simpl length.
    replace (length (chars dir) + S (length (chars base) + 1) - 1
             - length (chars dir))%nat
      with (length ("/"%char :: chars base)) by (simpl; lia).
    replace ("/"%char :: chars base ++ [c])
      with (("/"%char :: chars base) ++ [c]) by reflexivity.
    rewrite take_app_length. simpl.
    rewrite String.string_of_list_ascii_of_string. reflexivity.
Qed.

Lemma slice_up_to_neg {A} (l : list A) (k : nat) :
  (0 < k)%nat -> slice l 0 (- Z.of_nat k) = take (length l - k) l.
Proof.
  intros Hk. unfold slice.
  destruct (Z.leb_spec 0 0) as [_|?]; [|lia].
  destruct (Z.leb_spec 0 (- Z.of_nat k)) as [?|_]; [lia|].
  replace (Z.to_nat (Z.min 0 (Z.of_nat (length l)))) with 0%nat by lia.
  rewrite drop_0. f_equal. lia.
Qed.

Lemma py_suffix (pre : list ascii) :
  let s := pre ++ ["."; "p"; "y"]%char in
  slice_from s (-3) = ["."; "p"; "y"]%char /\ slice s 0 (-3) = pre.
Proof.
  intros s. split.
  - change (-3)%Z with (- Z.of_nat 3)%Z. rewrite slice_from_neg by lia.
    unfold s. rewrite length_app. simpl length.
    replace (length pre + 3 - 3)%nat with (length pre) by lia.
    apply drop_app_length.
  - change (-3)%Z with (- Z.of_nat 3)%Z. rewrite slice_up_to_neg by lia.
    unfold s. rewrite length_app. simpl length.
    replace (length pre + 3 - 3)%nat with (length pre) by lia.
    apply take_app_length.
Qed.

(** X16.  The configuration file is imported under its file name, without
    the directory and without a final ['.py'], and the directory, when there
    is one, is what is appended to [sys.path] for the import. *)
Theorem configuration_module_is_named_by_the_file (dir base : string) :
  "/"%char ∉ chars base ->
  Config.use_config (base +:+ ".py") = base
  /\ Config.path_appended (base +:+ ".py") = None
  /\ Config.use_config (dir +:+ "/" +:+ base +:+ ".py") = base
  /\ Config.path_appended (dir +:+ "/" +:+ base +:+ ".py") = Some dir.
Proof.
  intros Hbase.
  assert (Hpy : "/"%char ∉ ["."; "p"; "y"]%char).
  { rewrite !not_elem_of_cons, elem_of_nil. repeat split; try discriminate. tauto. }
  assert (Hrest : "/"%char ∉ chars base ++ ["."; "p"; "y"]%char)
    by (rewrite not_elem_of_app; split; assumption).
  unfold Config.use_config, Config.path_appended.
  rewrite !list_ascii_app.
  change (chars ".py") with ["."; "p"; "y"]%char.
  change (chars "/") with ["/"%char].
  destruct (py_suffix (chars base)) as [Hs1 Hu1].
  destruct (py_suffix (chars dir ++ ["/"%char] ++ chars base)) as [Hs2 Hu2].
  rewrite <- !app_assoc in Hs2, Hu2.
  rewrite Hs1, Hu1, Hs2, Hu2.
  rewrite !(bool_decide_eq_true_2 (["."; "p"; "y"]%char = ["."; "p"; "y"]%char)
              eq_refl).
  rewrite !(bool_decide_eq_false_2 _ Hrest).
  rewrite !bool_decide_eq_true_2 by set_solver.
  split; [apply String.string_of_list_ascii_of_string|].
  split; [reflexivity|].
  simpl app.
  rewrite (rfind_last "/" (chars dir) (chars base) Hbase).
  rewrite (rfind_last "/" (chars dir) _ Hrest).
  split.
  - replace (Z.of_nat (length (chars dir)) + 1)%Z
      with (Z.of_nat (length (chars dir ++ ["/"%char])))
      by (rewrite length_app; simpl; lia).
    rewrite slice_from_nat.
    replace (chars dir ++ "/"%char :: chars base)
      with ((chars dir ++ ["/"%char]) ++ chars base)
      by (rewrite <- app_assoc; reflexivity).
    rewrite drop_app_length. apply String.string_of_list_ascii_of_string.
  - change 0%Z with (Z.of_nat 0).
    rewrite slice_nat by (rewrite length_app; lia).
    rewrite drop_0, Nat.sub_0_r, take_app_length.
    rewrite String.string_of_list_ascii_of_string. reflexivity.
Qed.

End Names.

(** ** Batches of images *)

Section ImageList.

Context {V : Type} {stages : Pipeline.Stages V}.
Import Pipeline.

(** The keyword argument [key] as the image of index [i] gets it. *)
Lemma kwargs_of_lookup (kwargs tmp : gmap string pyval) (i : nat) :
  kwargs_of kwargs i = Ok tmp ->
  forall key,
    tmp !! key
    = match kwargs !! key with
      | Some (PList l) => l !! i
      | other => other
      end.
Proof.
  unfold kwargs_of. destruct (_ =? _)%nat; [|discriminate].
  intros Htmp key. injection Htmp as <-. rewrite lookup_omap.
  destruct (kwargs !! key) as [[]|]; reflexivity.
Qed.

Lemma use_kwargs_Ok (kwargs : gmap string pyval) (n : nat)
    (kws : list (gmap string pyval)) :
  use_kwargs kwargs n = Ok kws ->
  length kws = n
  /\ forall i kw, kws !! i = Some kw ->
       forall key,
         kw !! key
         = match kwargs !! key with
           | Some (PList l) => l !! i
           | other => other
           end.
Proof.
  unfold use_kwargs.
  destruct (decide (map_Forall (fun _ v => is_list v = false) kwargs))
    as [Hno|Hsome].
  - intros Hk. injection Hk as <-. split; [apply length_replicate|].
    intros i kw Hkw key. apply lookup_replicate in Hkw as [-> _].
    destruct (kwargs !! key) as [v|] eqn:Hv; [|reflexivity].
    specialize (Hno key v Hv). simpl in Hno. destruct v; try reflexivity.
    discriminate.
  - intros Hk. apply res_mapM_Ok in Hk. split.
    + apply Forall2_length in Hk. rewrite length_seq in Hk. congruence.
    + intros i kw Hkw.
      destruct (Forall2_lookup_r _ _ _ _ _ Hk Hkw) as (j & Hj & Hof).
      apply lookup_seq in Hj as [-> _]. simpl in Hof.
      apply kwargs_of_lookup. exact Hof.
Qed.

Lemma zip5_lookup {A B C D E} (a : list A) (b : list B) (c : list C)
    (d : list D) (e : list E) (i : nat) (x : A) (y : B) (z : C) (u : D)
    (w : E) :
  zip5 a b c d e !! i = Some (x, y, z, u, w)
  <-> a !! i = Some x /\ b !! i = Some y /\ c !! i = Some z
      /\ d !! i = Some u /\ e !! i = Some w.
Proof.
  unfold zip5. rewrite !lookup_zip_Some. simpl. tauto.
Qed.

(** X17.  What each call of [Process_Image] receives.  The images, pixel
    scales, destinations, names and keyword dictionaries are paired with
    [zip], which stops at the shortest: there are as many calls as the
    shortest of the lists given, and the images beyond are not processed.
    The call of index [i] gets the [i]-th image, the one pixel scale or the
    [i]-th of the list, the [i]-th destination and name or [None], and of
    every keyword argument the [i]-th element when its value is a list and
    the value itself when it is not. *)
Theorem image_list_is_cut_to_the_shortest_argument (IMG : list string)
    (pixscale : Q + list Q) (saveto name : option (list string))
    (kwargs : gmap string pyval) (jobs : list job) :
  imagedata IMG pixscale saveto name kwargs = Ok jobs ->
  length jobs
  = Nat.min (length IMG)
      (Nat.min (match pixscale with inl _ => length IMG | inr l => length l end)
         (Nat.min (match saveto with None => length IMG | Some l => length l end)
            (match name with None => length IMG | Some l => length l end)))
  /\ forall i img p s nm kw,
       jobs !! i = Some (img, p, s, nm, kw) ->
       IMG !! i = Some img
       /\ match pixscale with inl q => p = q | inr l => l !! i = Some p end
       /\ match saveto with
          | None => s = None
          | Some l => exists v, l !! i = Some v /\ s = Some v
          end
       /\ match name with
          | None => nm = None
          | Some l => exists v, l !! i = Some v /\ nm = Some v
          end
       /\ forall key,
            kw !! key
            = match kwargs !! key with
              | Some (PList l) => l !! i
              | other => other
              end.
Proof.
  unfold imagedata. intros Hjobs.
  apply bind_Ok in Hjobs as (kws & Hkws & Hjobs). injection Hjobs as <-.
  apply use_kwargs_Ok in Hkws as [Hlen Hkw]. split.
  - unfold zip5. rewrite !length_zip_with, Hlen.
    destruct pixscale, saveto, name;
      rewrite ?length_replicate, ?length_map; lia.
  - intros i img p s nm kw Hjob. apply zip5_lookup in Hjob
      as (Himg & Hp & Hs & Hnm & Hk).
    split; [exact Himg|]. split; [|split; [|split]].
    + destruct pixscale; [|exact Hp].
      apply lookup_replicate in Hp as [-> _]. reflexivity.
    + destruct saveto as [l|].
      * rewrite list_lookup_fmap in Hs.
        destruct (l !! i) as [v|]; [|discriminate].
        injection Hs as <-. eauto.
      * apply lookup_replicate in Hs as [-> _]. reflexivity.
    + destruct name as [l|].
      * rewrite list_lookup_fmap in Hnm.
        destruct (l !! i) as [v|]; [|discriminate].
        injection Hnm as <-. eauto.
      * apply lookup_replicate in Hnm as [-> _]. reflexivity.
    + apply (Hkw i kw Hk).
Qed.

End ImageList.

Section Batches.

Context {V : Type} {stages : Pipeline.Stages V}.
Import Pipeline.

(** The log is only ever appended to: what a run does and logs is the same
    after any earlier log. *)
Lemma run_steps_frame (self : Isophote_Pipeline) (dat : image) (pixscale : Q)
    (name : string) (kwargs : gmap string pyval) (steps : list string) :
  forall (results : gmap string V) (log : list (log_event V)),
    run_steps self dat pixscale name kwargs steps results log
    = (fst (run_steps self dat pixscale name kwargs steps results []),
       log ++ snd (run_steps self dat pixscale name kwargs steps results [])).
Proof.
  induction steps as [|step rest IH]; intros results log; simpl.
  - unfold io_ret. simpl. rewrite app_nil_r. reflexivity.
  - unfold io_bind, io_log, io_lift. simpl.
    destruct (pipeline_functions self !! step) as [f|];
      [|simpl; reflexivity].
    destruct (f dat pixscale name results kwargs) as [v| |];
      try (simpl; rewrite <- app_assoc; reflexivity).
    rewrite (IH _ ((log ++ [Info_step name step]) ++ [Called step results])).
    rewrite (IH _ [Info_step name step; Called step results]).
    simpl. rewrite <- !app_assoc. reflexivity.
Qed.

Lemma Process_Image_frame (self : Isophote_Pipeline) (IMG : string)
    (pixscale : Q) (saveto name : option string)
    (kwargs_internal kwargs : gmap string pyval) (log : list (log_event V)) :
  Process_Image self IMG pixscale saveto name kwargs_internal kwargs log
  = (fst (Process_Image self IMG pixscale saveto name kwargs_internal kwargs []),
     log ++ snd (Process_Image self IMG pixscale saveto name kwargs_internal
                   kwargs [])).
Proof.
  unfold Process_Image, io_bind, io_lift, io_log, io_ret.
  destruct (Read_Image IMG (kwargs_internal ∪ kwargs)) as [[dat|]| |];
    simpl; rewrite ?app_nil_r; try reflexivity.
  destruct (center_block dat) as [block| |];
    simpl; rewrite ?app_nil_r; try reflexivity.
  destruct (all_zero block); [reflexivity|].
  rewrite run_steps_frame.
  destruct (run_steps _ _ _ _ _ _ _ []) as [[results| |] new];
    simpl; try reflexivity.
  destruct (WriteProf _ _ _ _ _); simpl; rewrite <- !app_assoc; reflexivity.
Qed.

Lemma Process_Image_code (self : Isophote_Pipeline) (IMG : string)
    (pixscale : Q) (saveto name : option string)
    (kwargs_internal kwargs : gmap string pyval) (code : Z)
    (log : list (log_event V)) :
  fst (Process_Image self IMG pixscale saveto name kwargs_internal kwargs log)
  = Ok code ->
  code = 0%Z \/ code = 1%Z.
Proof.
  unfold Process_Image, io_bind, io_lift, io_log, io_ret.
  destruct (Read_Image IMG (kwargs_internal ∪ kwargs)) as [[dat|]| |];
    simpl; try discriminate.
  - destruct (center_block dat) as [block| |]; simpl; try discriminate.
    destruct (all_zero block); [intros Hc; injection Hc as <-; auto|].
    destruct (run_steps _ _ _ _ _ _ _ _) as [[results| |] new];
      simpl; try discriminate.
    destruct (WriteProf _ _ _ _ _); simpl; try discriminate.
    intros Hc. injection Hc as <-. auto.
  - intros Hc. injection Hc as <-. auto.
Qed.

Lemma io_mapM_jobs (self : Isophote_Pipeline) (jobs : list job) :
  forall (codes : list Z) (log log' : list (log_event V)),
    io_mapM (Process_job self) jobs log = (Ok codes, log') ->
    Forall2 (fun a code =>
               fst (Process_job self a []) = Ok code
               /\ (code = 0%Z \/ code = 1%Z)) jobs codes
    /\ log' = log ++ concat (map (fun a => snd (Process_job self a [])) jobs).
Proof.
  induction jobs as [|a jobs IH]; intros codes log log' Hrun; simpl in Hrun.
  - unfold io_ret in Hrun. injection Hrun as <- <-.
    split; [constructor | simpl; rewrite app_nil_r; reflexivity].
  - unfold io_bind in Hrun.
    assert (Hframe : Process_job self a log
                     = (fst (Process_job self a []),
                        log ++ snd (Process_job self a []))).
    { destruct a as [[[[img p] s] nm] kw]. apply Process_Image_frame. }
    rewrite Hframe in Hrun.
    destruct (fst (Process_job self a [])) as [code| |] eqn:Hcode;
      try discriminate.
    destruct (io_mapM (Process_job self) jobs _) as [[codes'| |] log1] eqn:Hrest;
      try discriminate.
    unfold io_ret in Hrun. injection Hrun as <- <-.
    apply IH in Hrest as [Hall ->]. split.
    + constructor; [|exact Hall]. split; [exact Hcode|].
      destruct a as [[[[img p] s] nm] kw].
      eapply Process_Image_code. exact Hcode.
    + simpl. rewrite <- app_assoc. reflexivity.
Qed.

(** X18.  With one process the images are processed one after the other,
    each as [Process_Image] processes it alone.  When every image is
    processed without an exception, the list returned holds one code per
    call, in the order of the images, each the 0 or the 1 that
    [Process_Image] returns for that image; the log is the logs of the
    images one after the other, and the closing message after them. *)
Theorem images_in_sequence_are_processed_as_alone (self : Isophote_Pipeline)
    (IMG : list string) (pixscale : Q + list Q) (n_procs : Z)
    (saveto name : option (list string)) (kwargs : gmap string pyval)
    (codes : list Z) (log log' : list (log_event V)) :
  (n_procs <= 1)%Z ->
  Process_List self IMG pixscale n_procs saveto name kwargs log
  = (Ok codes, log') ->
  exists jobs,
    imagedata IMG pixscale saveto name kwargs = Ok jobs
    /\ Forall2 (fun a code =>
                  fst (Process_job self a []) = Ok code
                  /\ (code = 0%Z \/ code = 1%Z)) jobs codes
    /\ log' = log ++ concat (map (fun a => snd (Process_job self a [])) jobs)
              ++ [Info_all_finished].
Proof.
  intros Hn Hrun. unfold Process_List, io_bind, io_lift, io_log, io_ret in Hrun.
  destruct (imagedata IMG pixscale saveto name kwargs) as [jobs| |];
    try discriminate.
  destruct (Z.ltb_spec 1 n_procs) as [Hlt|_]; [lia|].
  destruct (io_mapM (Process_job self) jobs log) as [[codes'| |] log1] eqn:Hjobs;
    try discriminate.
  injection Hrun as <- <-. apply io_mapM_jobs in Hjobs as [Hall ->].
  exists jobs. split; [reflexivity|]. split; [exact Hall|].
  rewrite <- app_assoc. reflexivity.
Qed.

Lemma kwargs_of_short (kwargs : gmap string pyval) (key : string)
    (l : list pyval) (i : nat) :
  kwargs !! key = Some (PList l) ->
  (length l <= i)%nat ->
  kwargs_of kwargs i = Raise (IndexError PyList).
Proof.
  intros Hkey Hi. unfold kwargs_of.
  set (tmp := omap _ kwargs).
  assert (Hsub : dom tmp ⊂ dom kwargs).
  { split; [apply dom_omap_subseteq|]. intros Hsup.
    assert (Hin : key ∈ dom tmp)
      by (apply Hsup, elem_of_dom; rewrite Hkey; eauto).
    apply elem_of_dom in Hin as [v Hv]. unfold tmp in Hv.
    rewrite lookup_omap, Hkey in Hv. simpl in Hv.
    rewrite (proj2 (lookup_ge_None l i) Hi) in Hv. discriminate. }
  apply subset_size in Hsub. rewrite !size_dom in Hsub.
  destruct (Nat.eqb_spec (size tmp) (size kwargs)); [lia | reflexivity].
Qed.

Lemma kwargs_of_outcome (kwargs : gmap string pyval) (i : nat) :
  kwargs_of kwargs i = Raise (IndexError PyList)
  \/ exists tmp, kwargs_of kwargs i = Ok tmp.
Proof. unfold kwargs_of. destruct (_ =? _)%nat; eauto. Qed.

Lemma mapM_raises {A B} (f : A -> res B) (e : exn) (l : list A) (a : A) :
  (forall x, f x = Raise e \/ exists y, f x = Ok y) ->
  a ∈ l -> f a = Raise e -> mapM f l = Raise e.
Proof.
  intros Hf Ha Hfa. induction l as [|x l IH]; [inversion Ha|]. simpl.
  destruct (Hf x) as [->|[y Hy]]; [reflexivity|]. rewrite Hy. simpl.
  apply elem_of_cons in Ha as [->|Ha]; [congruence|].
  rewrite (IH Ha). reflexivity.
Qed.

(** X19.  A keyword argument whose value is a list is handed out by index,
    one element per image, so the list must be at least as long as the list
    of images.  When it is shorter, [Process_List] ends in [IndexError]
    while it prepares the calls: no image is read, whatever the number of
    processes, and nothing is logged. *)
Theorem short_keyword_list_raises_before_any_image (self : Isophote_Pipeline)
    (IMG : list string) (pixscale : Q + list Q) (n_procs : Z)
    (saveto name : option (list string)) (kwargs : gmap string pyval)
    (key : string) (l : list pyval) (log : list (log_event V)) :
  kwargs !! key = Some (PList l) ->
  (length l < length IMG)%nat ->
  Process_List self IMG pixscale n_procs saveto name kwargs log
  = (Raise (IndexError PyList), log).
Proof.
  intros Hkey Hlen.
  assert (Hjobs : imagedata IMG pixscale saveto name kwargs
                  = Raise (IndexError PyList)).
  { unfold imagedata, use_kwargs.
    destruct (decide (map_Forall (fun _ v => is_list v = false) kwargs))
      as [Hno|_]; [specialize (Hno key _ Hkey); discriminate|].
    rewrite (mapM_raises (kwargs_of kwargs) (IndexError PyList)
               (seq 0 (length IMG)) (length l)).
    - reflexivity.
    - apply kwargs_of_outcome.
    - apply elem_of_seq. lia.
    - apply (kwargs_of_short kwargs key l); [exact Hkey | lia]. }
  unfold Process_List, io_bind, io_lift. rewrite Hjobs. reflexivity.
Qed.

End Batches.

(** ** The further properties at work *)

Section MoreRuns.

Local Open Scope Q_scope.
Import Initialize.

(** The fit of the galaxy through the dictionary: an entry that the fit
    does not read changes nothing. *)
Lemma four_entries_witness :
  Stage.Isophote_Initialize_CircFit (num := Demo.numerics true)
    (val := Cases.values) 100 0 Demo.galaxy 1 "galaxy" Cases.galaxy_entries ∅
  = Stage.Isophote_Initialize_CircFit (num := Demo.numerics true)
      (val := Cases.values) 100 0 Demo.galaxy 1 "galaxy"
      (<["psf" := Cases.Seen []]> Cases.galaxy_entries) ∅.
Proof.
  apply (circular_fit_reads_four_entries (num := Demo.numerics true)
           (val := Cases.values)).
  intros key Hkey.
  repeat (apply elem_of_cons in Hkey as [->|Hkey]; [vm_compute; reflexivity|]).
  apply elem_of_nil in Hkey. contradiction.
Defined.

(** The same fit with entries taken out of the dictionary. *)
Lemma missing_entry_witness :
  Stage.Isophote_Initialize_CircFit (num := Demo.numerics true)
    (val := Cases.values) 100 0 Demo.galaxy 1 "galaxy"
    (delete "psf fwhm" Cases.galaxy_entries) ∅
  = Raise (KeyError "psf fwhm")
  /\ Stage.Isophote_Initialize_CircFit (num := Demo.numerics true)
       (val := Cases.values) 100 0 Demo.galaxy 1 "galaxy"
       (delete "center" Cases.galaxy_entries) ∅
     = Raise (KeyError "center")
  /\ Stage.Isophote_Initialize_CircFit (num := Demo.numerics true)
       (val := Cases.values) 100 0 (Demo.flat 4 8) 1 "small"
       (<["psf fwhm" := Cases.Float 4]> (delete "center" Cases.galaxy_entries))
       ∅
     = Raise (IndexError PyList).
Proof.
  split; [|split].
  - apply (missing_entry_raises_where_it_is_read (num := Demo.numerics true)
             (val := Cases.values)).
    vm_compute. reflexivity.
  - apply (proj1 (proj2 (proj2
             (missing_entry_raises_where_it_is_read (num := Demo.numerics true)
                (val := Cases.values) 100 0 Demo.galaxy 1 "galaxy"
                (delete "center" Cases.galaxy_entries) ∅))) 2 0);
      try (vm_compute; reflexivity). lia.
  - apply (proj2 (proj2 (proj2
             (missing_entry_raises_where_it_is_read (num := Demo.numerics true)
                (val := Cases.values) 100 0 (Demo.flat 4 8) 1 "small"
                (<["psf fwhm" := Cases.Float 4]>
                   (delete "center" Cases.galaxy_entries)) ∅))) 4 0);
      try (vm_compute; reflexivity). vm_compute. discriminate.
Defined.

(** The default pipeline with the circular fit as its initializer, on the
    galaxy: the fit is called fourth and ends the run. *)
Lemma pipeline_misses_psf_witness :
  fst (Cases.Process_Image (Some Demo.galaxy) (Cases.pipeline (Some Demo.galaxy))
         "data/galaxy.fits" 1 None None ∅ ∅ [])
  = Raise (KeyError "psf fwhm")
  /\ map fst
       (Pipeline.calls
          (snd (Cases.Process_Image (Some Demo.galaxy)
                  (Cases.pipeline (Some Demo.galaxy)) "data/galaxy.fits" 1 None
                  None ∅ ∅ [])))
     = ["background"; "psf"; "center"; "isophoteinit"].
Proof.
  unfold Cases.Process_Image.
  erewrite (circular_fit_misses_psf_in_the_pipeline
              (num := Demo.numerics true) (val := Cases.values)
              (stages := Cases.stages (Some Demo.galaxy))
              (Cases.pipeline (Some Demo.galaxy)) "data/galaxy.fits" 1 None None
              ∅ ∅ 100 0 ["background"; "psf"; "center"]
              ["isophotefit"; "starmask"; "isophoteextract"; "checkfit"]
              "isophoteinit" Demo.galaxy); cycle 1.
  - reflexivity.
  - reflexivity.
  - intros Hin.
    repeat (apply elem_of_cons in Hin as [Hin|Hin]; [discriminate|]).
    apply elem_of_nil in Hin. exact Hin.
  - reflexivity.
  - vm_compute. reflexivity.
  - vm_compute. reflexivity.
  - vm_compute. reflexivity.
  - split; [reflexivity | vm_compute; reflexivity].
Defined.

(** An image of 19 rows whose last row is dark is refused, although its
    middle holds flux. *)
Lemma small_image_witness :
  (19 / 2 < 19 + 19 / 2 - 10)%nat
  /\ Cases.Process_Image (Some Cases.last_row_dark) (Cases.pipeline None)
       "dark.fits" 1 None None ∅ ∅ []
     = (Ok 1%Z, [Pipeline.Error_data_missing "dark"]).
Proof.
  apply (small_image_is_judged_by_its_last_rows
           (stages := Cases.stages (Some Cases.last_row_dark))
           (Cases.pipeline None) "dark.fits" 1 None None ∅ ∅
           Cases.last_row_dark []).
  - reflexivity.
  - vm_compute. lia.
  - vm_compute. repeat constructor.
Defined.

(** An image refused by the check is dark in its central block. *)
Lemma large_image_witness :
  fst (Cases.Process_Image (Some Cases.hollow) (Cases.pipeline None)
         "hollow.fits" 1 None None ∅ ∅ []) = Ok 1%Z
  /\ forall i j row v,
       (32 / 2 - 10 <= i < 32 / 2 - 10 + 20)%nat ->
       (32 / 2 - 10 <= j < 32 / 2 - 10 + 20)%nat ->
       Cases.hollow !! i = Some row -> row !! j = Some v -> v == 0.
Proof.
  assert (Hrun : fst (Cases.Process_Image (Some Cases.hollow)
                        (Cases.pipeline None) "hollow.fits" 1 None None ∅ ∅ [])
                 = Ok 1%Z) by (vm_compute; reflexivity).
  split; [exact Hrun|].
  apply (large_image_is_judged_by_its_central_block
           (stages := Cases.stages (Some Cases.hollow))
           (Cases.pipeline None) "hollow.fits" 1 None None ∅ ∅ Cases.hollow 32
           []).
  - reflexivity.
  - vm_compute. lia.
  - lia.
  - vm_compute. repeat constructor.
  - exact Hrun.
Defined.

(** Neither kind of empty image is processed. *)
Lemma empty_image_witness :
  Cases.Process_Image (Some []) (Cases.pipeline None) "none.fits" 1 None None
    ∅ ∅ []
  = (Raise (IndexError NdArray), [])
  /\ Cases.Process_Image (Some [[]; []]) (Cases.pipeline None) "thin.fits" 1
       None None ∅ ∅ []
     = (Ok 1%Z, [Pipeline.Error_data_missing "thin"]).
Proof.
  split.
  - apply (empty_image_raises_or_is_refused (stages := Cases.stages (Some []))
             (Cases.pipeline None) "none.fits" 1 None None ∅ ∅ [] []);
      reflexivity.
  - apply (empty_image_raises_or_is_refused
             (stages := Cases.stages (Some [[]; []]))
             (Cases.pipeline None) "thin.fits" 1 None None ∅ ∅ [[]; []] []).
    + reflexivity.
    + discriminate.
    + repeat constructor.
Defined.

(** A list of steps that names a stage nobody bound. *)
Lemma unbound_step_witness :
  fst (Cases.Process_Image (Some Demo.galaxy)
         (Pipeline.UpdatePipeline (Cases.pipeline None) None
            (Some ["background"; "sky"; "psf"]))
         "galaxy.fits" 1 None None ∅ ∅ [])
  = Raise (KeyError "sky").
Proof.
  assert (Hrun := fun block results1 log1 H1 H2 H3 H4 H5 =>
            proj2 (unbound_step_raises_KeyError
                     (stages := Cases.stages (Some Demo.galaxy))
                     (Cases.pipeline None) "galaxy.fits" 1 None None ∅ ∅
                     ["background"] ["psf"] "sky" Demo.galaxy block results1 []
                     log1 H1 H2 H3 H4 H5)).
  unfold Cases.Process_Image.
  change ["background"; "sky"; "psf"] with (["background"] ++ ["sky"; "psf"]).
  erewrite Hrun; cycle 1.
  - reflexivity.
  - reflexivity.
  - vm_compute. reflexivity.
  - vm_compute. reflexivity.
  - vm_compute. reflexivity.
  - reflexivity.
Defined.

(** The image of 4 rows, on which the initializer of [Demo] raises. *)
Lemma exception_of_a_stage_witness :
  fst (Demo.Process_Image "small.fits" 1 None None ∅ ∅ [])
  = Raise (IndexError PyList).
Proof.
  unfold Demo.Process_Image.
  erewrite (exception_of_a_stage_leaves_the_run (stages := Demo.stages)
              Demo.pipeline "small.fits" 1 None None ∅ ∅
              ["background"; "psf"; "center"]
              ["isophotefit"; "starmask"; "isophoteextract"; "checkfit"]
              "isophoteinit" Demo.circfit_stage (IndexError PyList)
              (Demo.flat 4 8)); cycle 1.
  - reflexivity.
  - reflexivity.
  - reflexivity.
  - vm_compute. reflexivity.
  - vm_compute. reflexivity.
  - vm_compute. reflexivity.
  - vm_compute. reflexivity.
  - reflexivity.
Defined.

(** The run on the galaxy returns 0: every step was called, in order. *)
Lemma returns_1_or_0_witness :
  exists new,
    Demo.galaxy_log = [] ++ new
    /\ map fst (Pipeline.calls new) = Pipeline.pipeline_steps Demo.pipeline.
Proof.
  destruct (Process_Image_returns_1_or_0 (stages := Demo.stages) Demo.pipeline
              "galaxy.fits" 1 None None ∅ ∅ 0 [] Demo.galaxy_log)
    as (new & Hlog & [(Hcode & _)|(_ & Horder & _)]);
    [vm_compute; reflexivity | discriminate Hcode |].
  exists new. split; assumption.
Defined.

(** Three images, two pixel scales: two calls. *)
Lemma image_list_witness :
  exists jobs,
    Pipeline.imagedata ["a.fits"; "b.fits"; "c.fits"] (inr [1; 2]) None None
      Cases.batch_kwargs = Ok jobs
    /\ length jobs = 2%nat.
Proof.
  destruct (Pipeline.imagedata ["a.fits"; "b.fits"; "c.fits"] (inr [1; 2]) None
              None Cases.batch_kwargs) as [jobs| |] eqn:Hjobs;
    [|vm_compute in Hjobs; discriminate..].
  exists jobs. split; [reflexivity|].
  rewrite (proj1 (image_list_is_cut_to_the_shortest_argument _ _ _ _ _ _ Hjobs)).
  reflexivity.
Defined.

(** A batch of a blank image and the galaxy, in sequence. *)
Lemma images_in_sequence_witness :
  exists jobs,
    Pipeline.imagedata ["blank.fits"; "galaxy.fits"] (inl 1) None None ∅
    = Ok jobs
    /\ Forall2 (fun a code =>
                  fst (Pipeline.Process_job (stages := Demo.stages)
                         Demo.pipeline a []) = Ok code
                  /\ (code = 0%Z \/ code = 1%Z)) jobs [1%Z; 0%Z].
Proof.
  destruct (images_in_sequence_are_processed_as_alone (stages := Demo.stages)
              Demo.pipeline ["blank.fits"; "galaxy.fits"] (inl 1) 1 None None ∅
              [1%Z; 0%Z] []
              (snd (Demo.Process_List ["blank.fits"; "galaxy.fits"] (inl 1) 1
                      None None ∅ [])))
    as (jobs & Hjobs & Hall & _); [lia | vm_compute; reflexivity|].
  exists jobs. split; assumption.
Defined.

(** Two images and a list of one keyword value. *)
Lemma short_keyword_list_witness :
  Demo.Process_List ["blank.fits"; "galaxy.fits"] (inl 1) 4 None None
    (<["doplot" := PList [PBool true]]> ∅) []
  = (Raise (IndexError PyList), []).
Proof.
  apply (short_keyword_list_raises_before_any_image (stages := Demo.stages)
           Demo.pipeline ["blank.fits"; "galaxy.fits"] (inl 1) 4 None None
           (<["doplot" := PList [PBool true]]> ∅) "doplot" [PBool true] []).
  - vm_compute. reflexivity.
  - simpl. lia.
Defined.

(** The names of two files, with and without a directory. *)
Lemma default_name_witness :
  Name.default_name "galaxy.fits" = "galaxy"
  /\ Name.default_name "data/run1/galaxy.fits" = "/galaxy".
Proof.
  apply (default_name_starts_at_the_last_slash "data/run1" "galaxy" "fits");
    apply (bool_decide_unpack _); vm_compute; exact I.
Defined.

(** The names of two files without an extension. *)
Lemma default_name_no_dot_witness :
  Name.default_name "galaxy" = "galax"
  /\ Name.default_name "data.v2/galaxy" = "/galax".
Proof.
  apply (default_name_without_a_dot_drops_a_character "data.v2" "galax" "y");
    apply (bool_decide_unpack _); vm_compute; exact I.
Defined.

(** The fit of the galaxy: 11 radii, the reference radius the tenth. *)
Lemma reference_radius_log_witness :
  exists n,
    init_R (fst Demo.galaxy_fit)
    == psf_fwhm Demo.galaxy_results / 2 * (1 + 0.2) ^ Z.of_nat n
    /\ init_R (fst Demo.galaxy_fit) < half_len Demo.galaxy.
Proof.
  destruct (reference_radius_and_log_of_a_run (num := Demo.numerics true)
              100 0 Demo.galaxy 1 "galaxy" Demo.galaxy_results ∅
              (fst Demo.galaxy_fit) (snd Demo.galaxy_fit))
    as (n & debug & _ & _ & Hclosed & Hlt & _); [vm_compute; reflexivity|].
  exists n. split; assumption.
Defined.

(** The fit of a flat field of 8 rows with a PSF of 4 pixels: 5 radii,
    and an error bar sampled from a negative radius on. *)
Lemma short_growth_witness :
  0 < psf_fwhm (Demo.flat_results 8 4)
  /\ exists r0,
       Np.linspace
         (init_R (fst Cases.flat_fit) - psf_fwhm (Demo.flat_results 8 4))
         (init_R (fst Cases.flat_fit) + psf_fwhm (Demo.flat_results 8 4)) 10
       !! 0%nat = Some r0
       /\ r0 < 0.
Proof.
  assert (Hpsf : 0 < psf_fwhm (Demo.flat_results 8 4)) by reflexivity.
  split; [exact Hpsf|].
  destruct (short_growth_samples_negative_radii (num := Demo.numerics true)
              100 0 (Demo.flat 8 8) 1 "flat" (Demo.flat_results 8 4) ∅
              (fst Cases.flat_fit) (snd Cases.flat_fit) Hpsf)
    as (st & errallphase & Hst & _ & Hshort & _); [vm_compute; reflexivity|].
  apply Hshort. vm_compute in Hst. injection Hst as <-. simpl. lia.
Defined.

(** A PSF width of 0 on a field that is bright everywhere. *)
Lemma no_positive_psf_witness :
  psf_fwhm (Demo.flat_results 8 0) <= 0
  /\ Isophote_Initialize_CircFit (num := Cases.saturated) 1000 0 (Demo.flat 8 8)
       1 "flat" (Demo.flat_results 8 0) ∅
     = OutOfFuel.
Proof.
  assert (Hpsf : psf_fwhm (Demo.flat_results 8 0) <= 0) by discriminate.
  split; [exact Hpsf|].
  apply (growth_has_no_end_without_a_positive_psf (num := Cases.saturated)
           (Demo.flat 8 8) (Demo.flat_results 8 0) Hpsf).
  - simpl. lia.
  - intros r _. vm_compute. discriminate.
  - intros r. vm_compute. lia.
Defined.

(** The grid search on a flat field. *)
Lemma grid_search_witness :
  0 < psf_fwhm (Demo.flat_results 8 2)
  /\ Isophote_Initialize_GridSearch (num := Demo.numerics true) 100
       (Demo.flat 8 8) 1 "flat" (Demo.flat_results 8 2) ∅
     = Raise (NameError "_Fit_Isophotes_Loss").
Proof.
  assert (Hpsf : 0 < psf_fwhm (Demo.flat_results 8 2)) by reflexivity.
  split; [exact Hpsf|].
  apply (grid_search_ends_in_NameError (num := Demo.numerics true)
           (Demo.flat 8 8) (Demo.flat_results 8 2) eq_refl); [exact Hpsf|].
  vm_compute. lia.
Defined.

(** Two configuration files, with and without a directory. *)
Lemma configuration_module_witness :
  Config.use_config "config.py" = "config"
  /\ Config.path_appended "config.py" = None
  /\ Config.use_config "runs/m51/config.py" = "config"
  /\ Config.path_appended "runs/m51/config.py" = Some "runs/m51".
Proof.
  apply (configuration_module_is_named_by_the_file "runs/m51" "config").
  apply (bool_decide_unpack _). vm_compute. exact I.
Defined.

End MoreRuns.
